(** * dataclean: volume detection, datastore classification and the
      snapshot lifecycle manager

    A shallow embedding of [internal/docker] (compose volume detection and
    [inferDatastoreType]), [internal/models] (the record types) and
    [internal/snapshot] (the [Manager]) together with the properties the
    specification states about them.

    Go strings are modelled as [string] (sequences of bytes); the slices
    of the source are lists; [map[string]T] is a [gmap string T] except
    where the order of a [range] over the map is observable, in which case
    the enumeration order is made explicit. *)

From Stdlib Require Import ZArith Ascii String List.
From stdpp Require Import base option list strings gmap sorting pretty.

Local Open Scope Z_scope.

(** ** The [strings] package, as far as the sources use it *)

Module GoStrings.

(** [strings.HasPrefix(s, prefix)]. *)
Definition HasPrefix (s pre : string) : bool := String.prefix pre s.

(** [strings.Contains(s, substr)]: some suffix of [s] starts with
    [substr]. *)
Fixpoint Contains (s substr : string) : bool :=
  match s with
  | EmptyString => String.prefix substr EmptyString
  | String _ s' => String.prefix substr s || Contains s' substr
  end.

Definition is_upper (c : ascii) : bool :=
  let n := nat_of_ascii c in (Nat.leb 65 n && Nat.leb n 90)%bool.

Definition lower_ascii (c : ascii) : ascii :=
  if is_upper c then ascii_of_nat (nat_of_ascii c + 32) else c.

(** [strings.ToLower] on the ASCII range; bytes above 127 are left as
    they are (image references are ASCII). *)
Fixpoint ToLower (s : string) : string :=
  match s with
  | EmptyString => EmptyString
  | String c s' => String (lower_ascii c) (ToLower s')
  end.

(** [strings.Split(s, sep)] for a one-byte separator: the pieces between
    the occurrences of [sep]; [n] separators give [n + 1] pieces. *)
Fixpoint Split (s : string) (sep : ascii) : list string :=
  match s with
  | EmptyString => [EmptyString]
  | String c s' =>
      if Ascii.eqb c sep then EmptyString :: Split s' sep
      else match Split s' sep with
           | [] => [String c EmptyString]
           | p :: ps => String c p :: ps
           end
  end.

(** [strings.ReplaceAll(s, old, new)] for one-byte [old] and [new]. *)
Fixpoint ReplaceAll (s : string) (old new : ascii) : string :=
  match s with
  | EmptyString => EmptyString
  | String c s' =>
      String (if Ascii.eqb c old then new else c) (ReplaceAll s' old new)
  end.

End GoStrings.

(** ** [internal/models] *)

Module models.

(** [type DatastoreType string]. *)
Definition DatastoreType := string.

Definition DatastorePostgres : DatastoreType := "postgres".
Definition DatastoreMySQL : DatastoreType := "mysql".
Definition DatastoreRedis : DatastoreType := "redis".
Definition DatastoreMongoDB : DatastoreType := "mongodb".
Definition DatastoreNeo4j : DatastoreType := "neo4j".
Definition DatastoreGeneric : DatastoreType := "generic".

Record Volume := mkVolume {
  Name : string;
  DatastoreTypeOf : DatastoreType;
  ContainerName : string;
  MountPath : string;
  ImageName : string;
  SizeBytes : Z;
  SizeHuman : string
}.

Record Snapshot := mkSnapshot {
  SName : string;
  Timestamp : Z;
  Volumes : list Volume;
  SSizeBytes : Z;
  SSizeHuman : string;
  Path : string;
  Checksum : string;
  Tags : list string;
  Description : string;
  Metadata : gmap string string;
  ParentName : string;
  Incremental : bool
}.

Record Config := mkConfig {
  ComposeFile : string;
  IncludeVolumes : list string;
  ExcludeVolumes : list string;
  DatastoreHints : gmap string DatastoreType;
  SnapshotDir : string;
  BackupBeforeRestore : bool;
  DefaultTags : list string;
  RetentionDays : Z
}.

Definition DefaultConfig : Config :=
  {| ComposeFile := ""; IncludeVolumes := []; ExcludeVolumes := [];
     DatastoreHints := ∅; SnapshotDir := ".dataclean";
     BackupBeforeRestore := true; DefaultTags := []; RetentionDays := 0 |}.

End models.

(** ** [path/filepath], on a Unix host *)

Module filepath.
Import GoStrings.

Definition slash : ascii := "/"%char.

Definition not_slash (c : ascii) : bool := negb (Ascii.eqb c slash).

Fixpoint drop_slashes (l : list ascii) : list ascii :=
  match l with
  | c :: l' => if Ascii.eqb c slash then drop_slashes l' else l
  | [] => []
  end.

Fixpoint take_element (l : list ascii) : list ascii :=
  match l with
  | c :: l' => if not_slash c then c :: take_element l' else []
  | [] => []
  end.

(** [filepath.Base]: the last element of the path, trailing slashes
    removed first; ["."] for the empty path and ["/"] for a path of
    slashes only. The path is scanned from its end, hence the reversals. *)
Definition Base (path : string) : string :=
  match path with
  | EmptyString => "."
  | _ =>
      match drop_slashes (rev (list_ascii_of_string path)) with
      | [] => "/"
      | r => string_of_list_ascii (rev (take_element r))
      end
  end.

(** The elements [filepath.Clean] keeps, of the elements between the
    separators of a path: an empty element and [.] are dropped; [..]
    takes back the element before it, is dropped at the root, and stays
    where a relative path has nothing left to take back. [kept] holds the
    elements kept so far, the last one first. *)
Fixpoint clean_elements (rooted : bool) (elements kept : list string)
    : list string :=
  match elements with
  | [] => rev kept
  | e :: rest =>
      if String.eqb e "" || String.eqb e "." then
        clean_elements rooted rest kept
      else if String.eqb e ".." then
        match kept with
        | last :: before =>
            if String.eqb last ".." then clean_elements rooted rest (e :: kept)
            else clean_elements rooted rest before
        | [] =>
            if rooted then clean_elements rooted rest []
            else clean_elements rooted rest [e]
        end
      else clean_elements rooted rest (e :: kept)
  end.

Fixpoint join_elements (elements : list string) : string :=
  match elements with
  | [] => ""
  | [e] => e
  | e :: rest => e +:+ "/" +:+ join_elements rest
  end.

(** [filepath.Clean]: the shortest path equivalent to [path] by purely
    lexical processing; [.] for the empty result of a relative path. *)
Definition Clean (path : string) : string :=
  let rooted := HasPrefix path "/" in
  let body := join_elements (clean_elements rooted (Split path slash) []) in
  if rooted then "/" +:+ body
  else if String.eqb body "" then "." else body.

(** A single path element: a name that is not empty, is neither [.] nor
    [..], and has no separator. The names [os.ReadDir] returns are
    such. *)
Definition element (name : string) : bool :=
  negb (String.eqb name "") && negb (String.eqb name ".")
  && negb (String.eqb name "..")
  && forallb not_slash (list_ascii_of_string name).

(** What [filepath.Join(dir, elem)] puts before a single path element
    [elem]: the cleaned [dir] and a separator; nothing when the cleaned
    [dir] is [.], and only the separator when it is the root. *)
Definition under (dir : string) : string :=
  let d := Clean dir in
  if String.eqb d "." then ""
  else if String.eqb d "/" then "/"
  else d +:+ "/".

(** [filepath.Join(dir, elem)] for a single path element [elem]. [Join]
    cleans the joined path, which for such an [elem] is the cleaned [dir]
    followed by [elem]. The snapshot names the manager is given are used
    as they come: where a name is not a single path element ([""], ["."],
    [".."], a name with a separator), the cleaned path can be another one
    than this (the root itself, a directory above it, a directory nested
    in a snapshot directory), and the operations on files below do not
    cover it: the properties of the manager that depend on where a name
    lands are stated for names with [element name = true]. *)
Definition Join (dir elem : string) : string := under dir +:+ elem.

(** The inverse of [Join dir]: the element [e] when the path is
    [Join dir e]. *)
Fixpoint strip_prefix (pre s : string) : option string :=
  match pre with
  | EmptyString => Some s
  | String a pre' =>
      match s with
      | String b s' => if Ascii.eqb a b then strip_prefix pre' s' else None
      | EmptyString => None
      end
  end.

Definition element_under (dir path : string) : option string :=
  strip_prefix (under dir) path.

End filepath.

(** ** [internal/docker]: classification and compose volume detection *)

Module docker.
Import GoStrings models.

(** [Client.inferDatastoreType]: the two [switch] statements are the two
    cascades of conditionals below. *)
Definition inferDatastoreType (image mountPath : string)
    (hint : DatastoreType) : DatastoreType :=
  if negb (String.eqb hint "") then hint else
  let imageLower := ToLower image in
  if Contains imageLower "postgres" then DatastorePostgres
  else if Contains imageLower "mysql" || Contains imageLower "mariadb"
    then DatastoreMySQL
  else if Contains imageLower "redis" then DatastoreRedis
  else if Contains imageLower "mongo" then DatastoreMongoDB
  else if Contains imageLower "neo4j" then DatastoreNeo4j
  else if Contains mountPath "postgresql" || Contains mountPath "pgdata"
    then DatastorePostgres
  else if Contains mountPath "mysql" then DatastoreMySQL
  else if Contains mountPath "redis" then DatastoreRedis
  else if Contains mountPath "mongo" then DatastoreMongoDB
  else if Contains mountPath "neo4j" then DatastoreNeo4j
  else DatastoreGeneric.

(** [ComposeService]: what the manifest says about one service. *)
Record ComposeService := mkService {
  Image : string;
  SvcContainerName : string;
  SvcVolumes : list string
}.

(** [ComposeConfig]. [Services] is a Go map, decoded from a YAML mapping
    whose keys are unique. Of [Volumes map[string]interface{}] only the
    key set is ever inspected; [None] is the nil map (the section is
    missing or null), [Some s] a map with the keys [s] (possibly none). *)
Record ComposeConfig := mkCompose {
  Services : gmap string ComposeService;
  CVolumes : option (gset string)
}.

(** [contains]. *)
Fixpoint contains (slice : list string) (item : string) : bool :=
  match slice with
  | [] => false
  | s :: rest => if String.eqb s item then true else contains rest item
  end.

(** [Client.getProjectName]; [cwd] is the result of [os.Getwd], [None]
    when it fails. *)
Definition getProjectName (cwd : option string) : string :=
  match cwd with
  | None => "unknown"
  | Some d => filepath.Base d
  end.

Definition colon : ascii := ":"%char.

(** The body of the inner loop of [DetectComposeVolumes] for one mount
    entry of one service: [None] for every [continue], [Some v] for the
    volume that is appended. *)
Definition mountVolume (projectName : string) (cfg : Config)
    (compose : ComposeConfig) (service : ComposeService)
    (volumeMount : string) : option Volume :=
  match Split volumeMount colon with
  | volumeName :: mountPath :: _ =>
      if HasPrefix volumeName "." || HasPrefix volumeName "/" then None
      else if match CVolumes compose with
              | Some declared => negb (bool_decide (volumeName ∈ declared))
              | None => false
              end then None
      else if (0 <? Z.of_nat (length (IncludeVolumes cfg)))
              && negb (contains (IncludeVolumes cfg) volumeName) then None
      else if contains (ExcludeVolumes cfg) volumeName then None
      else
        let datastoreType :=
          inferDatastoreType (Image service) mountPath
            (default "" (DatastoreHints cfg !! volumeName)) in
        let fullVolumeName := projectName +:+ "_" +:+ volumeName in
        Some {| Name := fullVolumeName;
                DatastoreTypeOf := datastoreType;
                ContainerName := SvcContainerName service;
                MountPath := mountPath;
                ImageName := Image service;
                SizeBytes := 0;
                SizeHuman := "" |}
  | _ => None
  end.

(** The inner loop: [volumes = append(volumes, ...)] per mount entry. *)
Definition serviceLoop (projectName : string) (cfg : Config)
    (compose : ComposeConfig) (service : ComposeService)
    (volumes : list Volume) : list Volume :=
  fold_left
    (fun acc volumeMount =>
       match mountVolume projectName cfg compose service volumeMount with
       | Some v => acc ++ [v]
       | None => acc
       end)
    (SvcVolumes service) volumes.

(** The outer loop, over the services in the order [visit] in which the
    [range] over the map yields them. *)
Definition extractVolumes (projectName : string) (cfg : Config)
    (compose : ComposeConfig)
    (visit : list (string * ComposeService)) : list Volume :=
  fold_left
    (fun acc entry => serviceLoop projectName cfg compose (snd entry) acc)
    visit [].

(** A [range] over a Go map yields every entry once, in an order the
    language leaves unspecified (and the runtime randomises). *)
Definition range_order (m : gmap string ComposeService)
    (visit : list (string * ComposeService)) : Prop :=
  visit ≡ₚ map_to_list m.

(** What is on disk at a candidate manifest path. *)
Inductive ManifestFile :=
| Unreadable
| Malformed
| Manifest (compose : ComposeConfig).

(** The part of the host the detection looks at: the files in the
    working directory (a path that is not in the map does not exist) and
    the working directory itself. *)
Record Host := mkHost {
  files : gmap string ManifestFile;
  cwd : option string
}.

Inductive DetectError :=
| NoComposeFile
| ReadFailed (file : string)
| ParseFailed (file : string).

Definition candidates : list string :=
  ["compose.yaml"; "compose.yml"; "docker-compose.yaml";
   "docker-compose.yml"].

(** The auto-detection loop: the first candidate [os.Stat] finds, [""]
    when there is none. *)
Fixpoint probe (h : Host) (names : list string) : string :=
  match names with
  | [] => ""
  | name :: rest =>
      match files h !! name with
      | Some _ => name
      | None => probe h rest
      end
  end.

Definition locate (h : Host) (cfg : Config) : string :=
  if String.eqb (ComposeFile cfg) "" then probe h candidates
  else ComposeFile cfg.

(** Everything of [DetectComposeVolumes] before the loops: the manifest
    located, read and parsed. *)
Definition loadCompose (h : Host) (cfg : Config)
    : DetectError + ComposeConfig :=
  let composeFile := locate h cfg in
  if String.eqb composeFile "" then inl NoComposeFile
  else match files h !! composeFile with
       | None | Some Unreadable => inl (ReadFailed composeFile)
       | Some Malformed => inl (ParseFailed composeFile)
       | Some (Manifest compose) => inr compose
       end.

(** [Client.DetectComposeVolumes], for the order [visit] the runtime
    picks for the range over [compose.Services]. *)
Definition DetectComposeVolumesIn (h : Host) (cfg : Config)
    (visit : list (string * ComposeService))
    : DetectError + list Volume :=
  match loadCompose h cfg with
  | inl e => inl e
  | inr compose =>
      inr (extractVolumes (getProjectName (cwd h)) cfg compose visit)
  end.

(** The possible outcomes of one call of [DetectComposeVolumes]. *)
Definition DetectComposeVolumes (h : Host) (cfg : Config)
    (res : DetectError + list Volume) : Prop :=
  match loadCompose h cfg with
  | inl e => res = inl e
  | inr compose =>
      ∃ visit, range_order (Services compose) visit ∧
               res = DetectComposeVolumesIn h cfg visit
  end.

End docker.

(** ** [internal/snapshot]: the manager *)

Module snapshot.
Import GoStrings models filepath.

(** *** The snapshot root on disk *)

(** The bytes of a [metadata.yaml]: YAML that [yaml.Unmarshal] decodes
    into the record [s] ([yaml.Marshal] of [s] is such a document), or
    bytes it rejects. *)
Inductive Document :=
| Yaml (s : Snapshot)
| Garbled.

(** The record file of a snapshot directory, as [os.ReadFile] finds it. *)
Inductive MetaFile :=
| Missing
| NoAccess
| Holds (d : Document).

(** An entry of the snapshot root. *)
Inductive Node :=
| PlainFile
| Directory (meta : MetaFile).

(** The docker commands the client runs. *)
Inductive Event :=
| Stop (container : string)
| Start (container : string)
| ExportTar (v : Volume) (dest : string)
| ClearData (v : Volume)
| ImportTar (src : string) (v : Volume)
| DiskUsage (v : Volume).

(** The state the manager acts on: the entries of the snapshot root by
    their names, each a single path element ([None]: the root does not
    exist), the docker commands run so far, and the clock, in seconds. *)
Record World := mkWorld {
  root : option (gmap string Node);
  trace : list Event;
  now : Z
}.

(** [Time.After] and [Time.Before], on instants counted in seconds. *)
Definition After (t u : Z) : bool := u <? t.

Definition Before (t u : Z) : bool := t <? u.

(** The comparison [List] sorts by:
    [snapshots[i].Timestamp.After(snapshots[j].Timestamp)]. *)
Definition newer (a b : Snapshot) : bool :=
  After (Timestamp a) (Timestamp b).

(** No record is followed by a newer one. *)
Definition not_older (a b : Snapshot) : Prop := Timestamp b ≤ Timestamp a.

(** What package [sort] requires of a [less] function: nothing is less
    than itself, and both [less] and its negation are transitive. *)
Definition ordering {A} (less : A → A → bool) : Prop :=
  (∀ a, less a a = false) ∧
  (∀ a b c, less a b = true → less b c = true → less a c = true) ∧
  (∀ a b c, less a b = false → less b c = false → less a c = false).

(** [sort.Slice(x, less)] through its contract, for any [less] it is
    called with: the result is a rearrangement of the slice, and when
    [less] is an ordering, no element of the result is less than one
    before it. Which of two elements neither of which is less than the
    other comes first is not specified ([sort.Slice] is not stable). *)
Record Sorter := mkSorter {
  sort_slice : (Snapshot → Snapshot → bool) → list Snapshot → list Snapshot;
  sort_slice_perm : ∀ less l, sort_slice less l ≡ₚ l;
  sort_slice_sorted :
    ∀ less l, ordering less →
      StronglySorted (fun a b => less b a = false) (sort_slice less l)
}.

(** What the operating system and the container runtime decide: which
    calls fail, the size of an exported archive, and the library
    functions that are not modelled ([Time.Format], [Time.AddDate], the
    float formatting of [models.FormatSize], [sort.Slice]). Paths identify
    the calls. [AddDate t days] is [t.AddDate(0, 0, days)], the instant
    [days] calendar days from [t] in the time zone of [t], where a day
    need not have 86400 seconds.

    A call that fails may have had part of its effect. [mkdir_leaves]:
    the failed [os.MkdirAll] had made the snapshot root. [write_leaves]:
    what the failed [os.WriteFile], which truncates the file when it opens
    it, leaves of the record file: [None] when the file could not be
    opened and is as it was, otherwise the document the truncated or
    partly written file decodes to (the empty file decodes to the zero
    record). [remove_takes_record]: the failed [os.RemoveAll] had removed
    the record file. *)
Record Runtime := mkRuntime {
  mkdir_fails : string → bool;
  mkdir_leaves : string → bool;
  export_fails : Volume → string → bool;
  import_fails : string → Volume → bool;
  clear_fails : Volume → bool;
  stat_size : string → option Z;
  write_fails : string → bool;
  write_leaves : string → option Document;
  remove_fails : string → bool;
  remove_takes_record : string → bool;
  readdir_fails : bool;
  FormatSize : Z → string;
  format_stamp : Z → string;
  AddDate : Z → Z → Z;
  sorter : Sorter
}.

Inductive Error :=
| ErrCreateDir
| ErrExport (volume : string)
| ErrWriteMetadata
| ErrMetadataNotFound
| ErrInvalidMetadata
| ErrImport (volume : string)
| ErrClear (volume : string)
| ErrReadDir
| ErrRemove
| ErrSave.

(** *** State and errors *)

Definition M (A : Type) : Type := World → (Error + A) * World.

Definition ret {A} (a : A) : M A := fun w => (inr a, w).

Definition fail {A} (e : Error) : M A := fun w => (inl e, w).

Definition bind {A B} (m : M A) (k : A → M B) : M B :=
  fun w => match m w with
           | (inl e, w') => (inl e, w')
           | (inr a, w') => k a w'
           end.

Notation "x <- m ;; k" := (bind m (fun x => k))
  (at level 100, m at next level, right associativity).

(** A call whose error is dropped ([m.Create(...)] as a statement). *)
Definition ignore {A} (m : M A) : M unit :=
  fun w => (inr tt, snd (m w)).

(** [defer release]: [release] runs when the body returns, whatever it
    returns. *)
Definition defer {A} (release : World → World) (body : M A) : M A :=
  fun w => let (r, w') := body w in (r, release w').

Definition emit (e : Event) (w : World) : World :=
  {| root := root w; trace := trace w ++ [e]; now := now w |}.

Definition set_root (r : option (gmap string Node)) (w : World) : World :=
  {| root := r; trace := trace w; now := now w |}.

(** *** The client's container and volume commands *)

(** [Client.StopContainers]; its result is always nil. *)
Fixpoint StopContainers (volumes : list Volume) (w : World) : World :=
  match volumes with
  | [] => w
  | v :: rest =>
      StopContainers rest
        (if String.eqb (ContainerName v) "" then w
         else emit (Stop (ContainerName v)) w)
  end.

(** [Client.StartContainers]. *)
Fixpoint StartContainers (volumes : list Volume) (w : World) : World :=
  match volumes with
  | [] => w
  | v :: rest =>
      StartContainers rest
        (if String.eqb (ContainerName v) "" then w
         else emit (Start (ContainerName v)) w)
  end.

(** [Client.ExportVolume]: one [docker run ... tar czf]. *)
Definition ExportVolume (rt : Runtime) (v : Volume) (dest : string)
    : World → bool * World :=
  fun w => (negb (export_fails rt v dest), emit (ExportTar v dest) w).

(** [Client.ImportVolume]: the volume is cleared (errors ignored), then
    the archive is unpacked into it. *)
Definition ImportVolume (rt : Runtime) (src : string) (v : Volume)
    : World → bool * World :=
  fun w => (negb (import_fails rt src v),
            emit (ImportTar src v) (emit (ClearData v) w)).

(** [Client.ClearVolume]. *)
Definition ClearVolume (rt : Runtime) (v : Volume)
    : World → bool * World :=
  fun w => (negb (clear_fails rt v), emit (ClearData v) w).

(** *** Files *)

(** [os.MkdirAll(dir, 0755)] for a directory [dir] directly under the
    snapshot root, [Join (SnapshotDir cfg) e] for a single path element
    [e]; [None] is an error. An existing directory is left as it is. *)
Definition MkdirAll (rt : Runtime) (cfg : Config) (dir : string)
    (w : World) : option World :=
  if mkdir_fails rt dir then None else
  match element_under (SnapshotDir cfg) dir with
  | None => None
  | Some e =>
      match root w with
      | None => Some (set_root (Some {[ e := Directory Missing ]}) w)
      | Some es =>
          match es !! e with
          | None => Some (set_root (Some (<[ e := Directory Missing ]> es)) w)
          | Some (Directory _) => Some w
          | Some PlainFile => None
          end
      end
  end.

(** What a failed [os.MkdirAll(dir, 0755)] leaves: the directories are
    made from the top, so the snapshot root may be there by then. *)
Definition MkdirAll_left (rt : Runtime) (dir : string) (w : World)
    : World :=
  match root w with
  | None => if mkdir_leaves rt dir then set_root (Some ∅) w else w
  | Some _ => w
  end.

(** [os.ReadFile(filepath.Join(dir, "metadata.yaml"))]; [None] is an
    error. *)
Definition ReadMetadataFile (cfg : Config) (dir : string) (w : World)
    : option Document :=
  match element_under (SnapshotDir cfg) dir with
  | None => None
  | Some e =>
      match root w with
      | None => None
      | Some es =>
          match es !! e with
          | Some (Directory (Holds d)) => Some d
          | _ => None
          end
      end
  end.

(** [os.WriteFile(filepath.Join(dir, "metadata.yaml"), bytes, 0644)];
    [None] is an error. *)
Definition WriteMetadataFile (rt : Runtime) (cfg : Config) (dir : string)
    (d : Document) (w : World) : option World :=
  if write_fails rt dir then None else
  match element_under (SnapshotDir cfg) dir with
  | None => None
  | Some e =>
      match root w with
      | None => None
      | Some es =>
          match es !! e with
          | Some (Directory _) =>
              Some (set_root (Some (<[ e := Directory (Holds d) ]> es)) w)
          | _ => None
          end
      end
  end.

(** What a failed [os.WriteFile] leaves of the record file of [dir]. *)
Definition WriteMetadataFile_left (rt : Runtime) (cfg : Config)
    (dir : string) (w : World) : World :=
  match element_under (SnapshotDir cfg) dir with
  | None => w
  | Some e =>
      match root w with
      | None => w
      | Some es =>
          match es !! e, write_leaves rt dir with
          | Some (Directory _), Some remains =>
              set_root (Some (<[ e := Directory (Holds remains) ]> es)) w
          | _, _ => w
          end
      end
  end.

(** [os.RemoveAll(dir)] for a directory [dir] directly under the
    snapshot root: removing what is not there is no error. *)
Definition RemoveAll (rt : Runtime) (cfg : Config) (dir : string)
    (w : World) : option World :=
  if remove_fails rt dir then None else
  match element_under (SnapshotDir cfg) dir with
  | None => None
  | Some e =>
      match root w with
      | None => Some w
      | Some es => Some (set_root (Some (delete e es)) w)
      end
  end.

(** What a failed [os.RemoveAll(dir)] leaves: the directory, without its
    record file when that was removed before the call failed. *)
Definition RemoveAll_left (rt : Runtime) (cfg : Config) (dir : string)
    (w : World) : World :=
  match element_under (SnapshotDir cfg) dir with
  | None => w
  | Some e =>
      match root w with
      | None => w
      | Some es =>
          match es !! e with
          | Some (Directory _) =>
              if remove_takes_record rt dir
              then set_root (Some (<[ e := Directory Missing ]> es)) w
              else w
          | _ => w
          end
      end
  end.

(** [os.ReadDir(m.cfg.SnapshotDir)]: the entries of the root; [None] is
    an error. The entries come in the order of the map's enumeration
    rather than sorted by file name: [List] sorts what it collects, and
    the order it is handed can only show among records with equal
    timestamps, which [sort.Slice] leaves unspecified anyway. *)
Definition ReadDir (rt : Runtime) (w : World)
    : option (list (string * Node)) :=
  if readdir_fails rt then None
  else match root w with
       | None => None
       | Some es => Some (map_to_list es)
       end.

(** An operating-system call whose error is returned: [leaves] is what
    the call that fails leaves. *)
Definition try_os (e : Error) (op : World → option World)
    (leaves : World → World) : M unit :=
  fun w => match op w with
           | Some w' => (inr tt, w')
           | None => (inl e, leaves w)
           end.

(** A docker command: it has run whether or not it reports success. *)
Definition call (e : Error) (cmd : World → bool * World) : M unit :=
  fun w => let (ok, w') := cmd w in
           if ok then (inr tt, w') else (inl e, w').

Definition run (f : World → World) : M unit := fun w => (inr tt, f w).

Definition time_Now : M Z := fun w => (inr (now w), w).

(** *** The manager *)

Record CreateOptions := mkOptions {
  OptTags : list string;
  OptDescription : string;
  OptMetadata : gmap string string;
  OptIncremental : bool;
  OptParentName : string
}.

(** [CreateOptions{}]. *)
Definition noOptions : CreateOptions :=
  {| OptTags := []; OptDescription := ""; OptMetadata := ∅;
     OptIncremental := false; OptParentName := "" |}.

(** Addition of [int64] values. *)
Definition wrap64 (z : Z) : Z := (z + 2 ^ 63) mod 2 ^ 64 - 2 ^ 63.

(** The double quote, byte 34. *)
Definition double_quote : ascii := ascii_of_nat 34.

Definition unsafe_chars : list ascii :=
  ["/"%char; "\"%char; ":"%char; "*"%char; "?"%char; double_quote;
   "<"%char; ">"%char; "|"%char].

(** [sanitizeName]. *)
Definition sanitizeName (name : string) : string :=
  fold_left (fun result char => ReplaceAll result char "_"%char)
    unsafe_chars name.

(** [filepath.Join(snapshotDir, fmt.Sprintf("%s.tar.gz",
    sanitizeName(vol.Name)))]. *)
Definition archivePath (snapshotDir : string) (vol : Volume) : string :=
  Join snapshotDir (sanitizeName (Name vol) +:+ ".tar.gz").

Definition with_size (vol : Volume) (size : Z) (human : string) : Volume :=
  {| Name := Name vol; DatastoreTypeOf := DatastoreTypeOf vol;
     ContainerName := ContainerName vol; MountPath := MountPath vol;
     ImageName := ImageName vol; SizeBytes := size; SizeHuman := human |}.

(** The export loop of [CreateWithOptions]; the first export that fails
    is the [return nil, fmt.Errorf(...)] inside the loop. *)
Fixpoint exportLoop (rt : Runtime) (snapshotDir : string)
    (volumes : list Volume) (totalSize : Z)
    (snapshotVolumes : list Volume) : M (Z * list Volume) :=
  match volumes with
  | [] => ret (totalSize, snapshotVolumes)
  | vol :: rest =>
      let tarPath := archivePath snapshotDir vol in
      _ <- call (ErrExport (Name vol)) (ExportVolume rt vol tarPath) ;;
      match stat_size rt tarPath with
      | Some size =>
          exportLoop rt snapshotDir rest (wrap64 (totalSize + size))
            (snapshotVolumes ++ [with_size vol size (FormatSize rt size)])
      | None =>
          exportLoop rt snapshotDir rest totalSize
            (snapshotVolumes ++ [vol])
      end
  end.

(** [Manager.CreateWithOptions]. *)
Definition CreateWithOptions (rt : Runtime) (cfg : Config) (name : string)
    (volumes : list Volume) (opts : CreateOptions) : M Snapshot :=
  let snapshotDir := Join (SnapshotDir cfg) name in
  _ <- try_os ErrCreateDir (MkdirAll rt cfg snapshotDir)
         (MkdirAll_left rt snapshotDir) ;;
  _ <- run (StopContainers volumes) ;;
  defer (StartContainers volumes)
    (exported <- exportLoop rt snapshotDir volumes 0 [] ;;
     let allTags := DefaultTags cfg ++ OptTags opts in
     timestamp <- time_Now ;;
     let snapshot :=
       {| SName := name;
          Timestamp := timestamp;
          Volumes := snd exported;
          SSizeBytes := fst exported;
          SSizeHuman := FormatSize rt (fst exported);
          Path := snapshotDir;
          Checksum := "";
          Tags := allTags;
          Description := OptDescription opts;
          Metadata := OptMetadata opts;
          ParentName := OptParentName opts;
          Incremental := OptIncremental opts |} in
     _ <- try_os ErrWriteMetadata
            (WriteMetadataFile rt cfg snapshotDir (Yaml snapshot))
            (WriteMetadataFile_left rt cfg snapshotDir) ;;
     ret snapshot).

(** [Manager.Create]. *)
Definition Create (rt : Runtime) (cfg : Config) (name : string)
    (volumes : list Volume) : M Snapshot :=
  CreateWithOptions rt cfg name volumes noOptions.

Definition with_Path (s : Snapshot) (p : string) : Snapshot :=
  {| SName := SName s; Timestamp := Timestamp s; Volumes := Volumes s;
     SSizeBytes := SSizeBytes s; SSizeHuman := SSizeHuman s; Path := p;
     Checksum := Checksum s; Tags := Tags s; Description := Description s;
     Metadata := Metadata s; ParentName := ParentName s;
     Incremental := Incremental s |}.

Definition with_Tags (s : Snapshot) (t : list string) : Snapshot :=
  {| SName := SName s; Timestamp := Timestamp s; Volumes := Volumes s;
     SSizeBytes := SSizeBytes s; SSizeHuman := SSizeHuman s; Path := Path s;
     Checksum := Checksum s; Tags := t; Description := Description s;
     Metadata := Metadata s; ParentName := ParentName s;
     Incremental := Incremental s |}.

Definition with_Description (s : Snapshot) (d : string) : Snapshot :=
  {| SName := SName s; Timestamp := Timestamp s; Volumes := Volumes s;
     SSizeBytes := SSizeBytes s; SSizeHuman := SSizeHuman s; Path := Path s;
     Checksum := Checksum s; Tags := Tags s; Description := d;
     Metadata := Metadata s; ParentName := ParentName s;
     Incremental := Incremental s |}.

Definition with_Metadata (s : Snapshot) (m : gmap string string)
    : Snapshot :=
  {| SName := SName s; Timestamp := Timestamp s; Volumes := Volumes s;
     SSizeBytes := SSizeBytes s; SSizeHuman := SSizeHuman s; Path := Path s;
     Checksum := Checksum s; Tags := Tags s; Description := Description s;
     Metadata := m; ParentName := ParentName s;
     Incremental := Incremental s |}.

(** [Manager.loadMetadata]. *)
Definition loadMetadata (cfg : Config) (snapshotDir : string) : M Snapshot :=
  fun w =>
    match ReadMetadataFile cfg snapshotDir w with
    | None => (inl ErrMetadataNotFound, w)
    | Some Garbled => (inl ErrInvalidMetadata, w)
    | Some (Yaml snapshot) => (inr (with_Path snapshot snapshotDir), w)
    end.

(** The import loop of [Restore]. *)
Fixpoint importLoop (rt : Runtime) (snapshotDir : string)
    (volumes : list Volume) : M unit :=
  match volumes with
  | [] => ret tt
  | vol :: rest =>
      let tarPath := archivePath snapshotDir vol in
      _ <- call (ErrImport (Name vol)) (ImportVolume rt tarPath vol) ;;
      importLoop rt snapshotDir rest
  end.

(** [Manager.Restore]. *)
Definition Restore (rt : Runtime) (cfg : Config) (name : string) : M unit :=
  let snapshotDir := Join (SnapshotDir cfg) name in
  snapshot <- loadMetadata cfg snapshotDir ;;
  _ <- (if BackupBeforeRestore cfg then
          timestamp <- time_Now ;;
          let backupName := "_pre-restore-" +:+ format_stamp rt timestamp in
          ignore (Create rt cfg backupName (Volumes snapshot))
        else ret tt) ;;
  _ <- run (StopContainers (Volumes snapshot)) ;;
  defer (StartContainers (Volumes snapshot))
    (importLoop rt snapshotDir (Volumes snapshot)).

(** The clear loop of [Reset]. *)
Fixpoint clearLoop (rt : Runtime) (volumes : list Volume) : M unit :=
  match volumes with
  | [] => ret tt
  | vol :: rest =>
      _ <- call (ErrClear (Name vol)) (ClearVolume rt vol) ;;
      clearLoop rt rest
  end.

(** [Manager.Reset]. *)
Definition Reset (rt : Runtime) (cfg : Config) (volumes : list Volume)
    : M unit :=
  _ <- (if BackupBeforeRestore cfg then
          timestamp <- time_Now ;;
          let backupName := "_pre-reset-" +:+ format_stamp rt timestamp in
          ignore (Create rt cfg backupName volumes)
        else ret tt) ;;
  _ <- run (StopContainers volumes) ;;
  defer (StartContainers volumes) (clearLoop rt volumes).

(** The loop of [List] over the directory entries: plain files and
    directories whose record does not load are passed over. *)
Fixpoint listLoop (cfg : Config) (entries : list (string * Node))
    (snapshots : list Snapshot) (w : World) : list Snapshot :=
  match entries with
  | [] => snapshots
  | (entryName, PlainFile) :: rest => listLoop cfg rest snapshots w
  | (entryName, Directory _) :: rest =>
      let snapshotDir := Join (SnapshotDir cfg) entryName in
      match fst (loadMetadata cfg snapshotDir w) with
      | inl _ => listLoop cfg rest snapshots w
      | inr snapshot => listLoop cfg rest (snapshots ++ [snapshot]) w
      end
  end.

(** [Manager.List]. *)
Definition List (rt : Runtime) (cfg : Config) : M (list Snapshot) :=
  fun w =>
    match root w with
    | None => (inr [], w)
    | Some _ =>
        match ReadDir rt w with
        | None => (inl ErrReadDir, w)
        | Some entries =>
            (inr (sort_slice (sorter rt) newer
                    (listLoop cfg entries [] w)), w)
        end
    end.

(** [Manager.Get]. *)
Definition Get (cfg : Config) (name : string) : M Snapshot :=
  loadMetadata cfg (Join (SnapshotDir cfg) name).

(** [Manager.Delete]. *)
Definition Delete (rt : Runtime) (cfg : Config) (name : string) : M unit :=
  try_os ErrRemove (RemoveAll rt cfg (Join (SnapshotDir cfg) name))
    (RemoveAll_left rt cfg (Join (SnapshotDir cfg) name)).

(** [Manager.saveMetadata]. *)
Definition saveMetadata (rt : Runtime) (cfg : Config) (snapshot : Snapshot)
    : M unit :=
  try_os ErrSave (WriteMetadataFile rt cfg (Path snapshot) (Yaml snapshot))
    (WriteMetadataFile_left rt cfg (Path snapshot)).

(** The loop [for _, t := range tags { if t == tag ... }]. *)
Fixpoint hasTag (tags : list string) (tag : string) : bool :=
  match tags with
  | [] => false
  | t :: rest => if String.eqb t tag then true else hasTag rest tag
  end.

(** [Manager.ListByTag]. *)
Definition ListByTag (rt : Runtime) (cfg : Config) (tag : string)
    : M (list Snapshot) :=
  all <- List rt cfg ;;
  ret (filter (fun s => hasTag (Tags s) tag = true) all).

(** [Manager.AddTag]. *)
Definition AddTag (rt : Runtime) (cfg : Config) (name tag : string)
    : M unit :=
  snapshot <- Get cfg name ;;
  if hasTag (Tags snapshot) tag then ret tt
  else saveMetadata rt cfg (with_Tags snapshot (Tags snapshot ++ [tag])).

(** [Manager.RemoveTag]. *)
Definition RemoveTag (rt : Runtime) (cfg : Config) (name tag : string)
    : M unit :=
  snapshot <- Get cfg name ;;
  let newTags := filter (fun t => t ≠ tag) (Tags snapshot) in
  saveMetadata rt cfg (with_Tags snapshot newTags).

(** [Manager.UpdateDescription]. *)
Definition UpdateDescription (rt : Runtime) (cfg : Config)
    (name description : string) : M unit :=
  snapshot <- Get cfg name ;;
  saveMetadata rt cfg (with_Description snapshot description).

(** [Manager.UpdateMetadata]: every key of [metadata] is assigned, the
    other keys stay. *)
Definition UpdateMetadata (rt : Runtime) (cfg : Config) (name : string)
    (metadata : gmap string string) : M unit :=
  snapshot <- Get cfg name ;;
  saveMetadata rt cfg
    (with_Metadata snapshot (metadata ∪ Metadata snapshot)).

(** The loop of [CleanupOldSnapshots]. *)
Fixpoint cleanupLoop (rt : Runtime) (cfg : Config) (cutoff : Z)
    (snapshots : list Snapshot) (deleted : list string) (w : World)
    : list string * World :=
  match snapshots with
  | [] => (deleted, w)
  | s :: rest =>
      if HasPrefix (SName s) "_" then
        cleanupLoop rt cfg cutoff rest deleted w
      else if Before (Timestamp s) cutoff then
        match Delete rt cfg (SName s) w with
        | (inr _, w') =>
            cleanupLoop rt cfg cutoff rest (deleted ++ [SName s]) w'
        | (inl _, w') => cleanupLoop rt cfg cutoff rest deleted w'
        end
      else cleanupLoop rt cfg cutoff rest deleted w
  end.

(** [Manager.CleanupOldSnapshots]. [-m.cfg.RetentionDays] is the
    negation of an [int], of 64 bits. *)
Definition CleanupOldSnapshots (rt : Runtime) (cfg : Config)
    : M (list string) :=
  if RetentionDays cfg <=? 0 then ret []
  else
    timestamp <- time_Now ;;
    let cutoff := AddDate rt timestamp (wrap64 (- RetentionDays cfg)) in
    snapshots <- List rt cfg ;;
    fun w =>
      let (deleted, w') := cleanupLoop rt cfg cutoff snapshots [] w in
      (inr deleted, w').

End snapshot.

(** ** The vocabulary of the specification *)

Module stated.
Import GoStrings models docker.

(** *** The classifier, as a table of keyword groups *)

Definition group : Type := list string * DatastoreType.

(** The first group, in the order of the table, one of whose keywords
    occurs in [s]. *)
Fixpoint first_match (table : list group) (s : string)
    : option DatastoreType :=
  match table with
  | [] => None
  | (keywords, kind) :: rest =>
      if existsb (Contains s) keywords then Some kind
      else first_match rest s
  end.

(** Hint first, then the image (compared in lower case) against
    [image_table], then the mount path against [path_table], then
    generic. *)
Definition classify (image_table path_table : list group)
    (image mountPath : string) (hint : DatastoreType) : DatastoreType :=
  if decide (hint = "") then
    match first_match image_table (ToLower image) with
    | Some kind => kind
    | None =>
        match first_match path_table mountPath with
        | Some kind => kind
        | None => DatastoreGeneric
        end
    end
  else hint.

(** The fixed order postgres, mysql/mariadb, redis, mongo, neo4j. *)
Definition image_groups : list group :=
  [ (["postgres"], DatastorePostgres);
    (["mysql"; "mariadb"], DatastoreMySQL);
    (["redis"], DatastoreRedis);
    (["mongo"], DatastoreMongoDB);
    (["neo4j"], DatastoreNeo4j) ].

(** The groups the source matches the mount path against. *)
Definition path_groups : list group :=
  [ (["postgresql"; "pgdata"], DatastorePostgres);
    (["mysql"], DatastoreMySQL);
    (["redis"], DatastoreRedis);
    (["mongo"], DatastoreMongoDB);
    (["neo4j"], DatastoreNeo4j) ].

(** The classifier with the same ordered keyword groups for the image
    and for the mount path. *)
Definition classify_same_groups : string → string → DatastoreType →
    DatastoreType :=
  classify image_groups image_groups.

(** *** Mount entries *)

(** The volume reference of a mount entry [reference:mountPath[:mode]]:
    the text before the first colon. *)
Definition reference (mount : string) : string :=
  hd "" (Split mount colon).

(** The entry has a reference and a mount path. *)
Definition has_mount_path (mount : string) : bool :=
  bool_decide (2 ≤ length (Split mount colon))%nat.

(** A path-like reference: a bind mount. *)
Definition bind_mount (ref : string) : bool :=
  HasPrefix ref "." || HasPrefix ref "/".

(** The declared-volumes check. *)
Definition declared (compose : ComposeConfig) (ref : string) : bool :=
  match CVolumes compose with
  | None => true
  | Some names => bool_decide (ref ∈ names)
  end.

Definition included (cfg : Config) (ref : string) : bool :=
  match IncludeVolumes cfg with
  | [] => true
  | _ => bool_decide (ref ∈ IncludeVolumes cfg)
  end.

Definition excluded (cfg : Config) (ref : string) : bool :=
  bool_decide (ref ∈ ExcludeVolumes cfg).

(** The mount entry survives the bind-mount skip, the declared-volumes
    check and the include/exclude filters. *)
Definition survives (cfg : Config) (compose : ComposeConfig)
    (mount : string) : bool :=
  has_mount_path mount
  && negb (bind_mount (reference mount))
  && declared compose (reference mount)
  && included cfg (reference mount)
  && negb (excluded cfg (reference mount)).

(** The mount entries of the services, each with its service, in the
    order in which the services are visited. *)
Definition service_mounts (visit : list (string * ComposeService))
    : list (ComposeService * string) :=
  flat_map (fun entry => map (pair (snd entry)) (SvcVolumes (snd entry)))
    visit.

(** What is emitted for a surviving mount entry of a service. *)
Definition emitted_for (project : string) (v : Volume)
    (sm : ComposeService * string) : Prop :=
  Name v = project +:+ "_" +:+ reference (snd sm) ∧
  ContainerName v = SvcContainerName (fst sm) ∧
  ImageName v = Image (fst sm).

(** The top-level volumes section is absent or has no entry. *)
Definition absent_or_empty (compose : ComposeConfig) : Prop :=
  match CVolumes compose with
  | None => True
  | Some names => names = ∅
  end.

(** Every named reference of a service mount that passes the filters
    has its volume in [vols]. *)
Definition accepts_all_named (project : string) (cfg : Config)
    (compose : ComposeConfig) (vols : list Volume) : Prop :=
  ∀ name service mount,
    Services compose !! name = Some service →
    mount ∈ SvcVolumes service →
    has_mount_path mount = true →
    bind_mount (reference mount) = false →
    included cfg (reference mount) = true →
    excluded cfg (reference mount) = false →
    ∃ v, v ∈ vols ∧ Name v = project +:+ "_" +:+ reference mount.

(** The volumes one service contributes, in the order of its mount
    entries. *)
Definition service_block (project : string) (cfg : Config)
    (compose : ComposeConfig) (service : ComposeService) : list Volume :=
  omap (mountVolume project cfg compose service) (SvcVolumes service).

(** *** Runs of the manager *)

Import filepath snapshot.

(** The world after the docker commands [events] have run. *)
Definition extended (w : World) (events : list Event) : World :=
  {| root := root w; trace := trace w ++ events; now := now w |}.

(** The [docker stop] commands of a pause request: one for every volume
    that names its container. *)
Definition docker_stops (volumes : list Volume) : list Event :=
  map Stop (filter (fun c => c ≠ "") (map ContainerName volumes)).

(** The [docker start] commands of a resume request. *)
Definition docker_starts (volumes : list Volume) : list Event :=
  map Start (filter (fun c => c ≠ "") (map ContainerName volumes)).

(** The first volume for which [failing] holds. *)
Fixpoint first_failing (failing : Volume → bool) (volumes : list Volume)
    : option Volume :=
  match volumes with
  | [] => None
  | v :: rest => if failing v then Some v else first_failing failing rest
  end.

(** The volumes up to and including the first for which [failing]
    holds; all of them when there is none. *)
Fixpoint through_first (failing : Volume → bool) (volumes : list Volume)
    : list Volume :=
  match volumes with
  | [] => []
  | v :: rest => v :: (if failing v then [] else through_first failing rest)
  end.

Definition export_failing (rt : Runtime) (dir : string) (v : Volume)
    : bool :=
  export_fails rt v (archivePath dir v).

Definition import_failing (rt : Runtime) (dir : string) (v : Volume)
    : bool :=
  import_fails rt (archivePath dir v) v.

(** The export commands for [volumes], into the directory [dir]. *)
Definition exports (dir : string) (volumes : list Volume) : list Event :=
  map (fun v => ExportTar v (archivePath dir v)) volumes.

(** The clear-then-import commands for [volumes], from the archives in
    [dir]. *)
Definition imports (dir : string) (volumes : list Volume) : list Event :=
  flat_map (fun v => [ClearData v; ImportTar (archivePath dir v) v])
    volumes.

(** The record file of the snapshot directory [name], as a read finds
    it; no such directory is no file. *)
Definition record_file (w : World) (name : string) : MetaFile :=
  match root w with
  | None => Missing
  | Some es =>
      match es !! name with
      | Some (Directory meta) => meta
      | _ => Missing
      end
  end.

(** The record a directory entry stands for: that of a directory whose
    record file is readable and well-formed, reported at the directory
    where it was found. *)
Definition record_of (cfg : Config) (entry : string * Node)
    : option Snapshot :=
  match snd entry with
  | Directory (Holds (Yaml s)) =>
      Some (with_Path s (Join (SnapshotDir cfg) (fst entry)))
  | _ => None
  end.

(** The name under which the auto-backup of a restore is created. *)
Definition pre_restore_name (rt : Runtime) (w : World) : string :=
  "_pre-restore-" +:+ format_stamp rt (now w).

(** Every record of the catalog carries the name of its directory, as
    the records [Create] writes do. *)
Definition named_after_directory (es : gmap string Node) : Prop :=
  ∀ name s, es !! name = Some (Directory (Holds (Yaml s))) → SName s = name.

(** The same, for the catalog of a world. *)
Definition catalog_named (w : World) : Prop :=
  ∀ name s, record_file w name = Holds (Yaml s) → SName s = name.

(** The retention sweep removes this record: it is not an auto-backup
    and it is older than the cutoff. *)
Definition expired (cfg : Config) (w : World) (s : Snapshot) : bool :=
  negb (HasPrefix (SName s) "_")
  && (Timestamp s <? now w - 86400 * RetentionDays cfg).


(** The sweep removes the directory of this record: the record is past
    the cutoff, not an auto-backup, and its removal succeeds. *)
Definition removable (rt : Runtime) (cfg : Config) (cutoff : Z)
    (s : Snapshot) : bool :=
  negb (HasPrefix (SName s) "_")
  && (Timestamp s <? cutoff)
  && negb (remove_fails rt (Join (SnapshotDir cfg) (SName s))).

End stated.

(** ** Concrete manifests, hosts and snapshot roots *)

Module sample.
Import GoStrings models filepath docker snapshot.

(** One service that mounts a named volume. *)
Definition db : ComposeService :=
  {| Image := "postgres:15"; SvcContainerName := "db";
     SvcVolumes := ["pgdata:/var/lib/postgresql/data"] |}.

(** A manifest whose volumes section is present and empty. *)
Definition empty_section : ComposeConfig :=
  {| Services := {[ "db" := db ]}; CVolumes := Some ∅ |}.

Definition host_of (compose : ComposeConfig) : Host :=
  {| files := {[ "compose.yaml" := Manifest compose ]};
     cwd := Some "/home/dev/shop" |}.

Definition shop_host : Host := host_of empty_section.

(** The end-to-end scenario of the specification: [db] mounts [pgdata],
    which the volumes section declares. *)
Definition declared_section : ComposeConfig :=
  {| Services := {[ "db" := db ]}; CVolumes := Some {[ "pgdata" ]} |}.

Definition pgdata_volume : Volume :=
  {| Name := "shop_pgdata"; DatastoreTypeOf := DatastorePostgres;
     ContainerName := "db"; MountPath := "/var/lib/postgresql/data";
     ImageName := "postgres:15"; SizeBytes := 0; SizeHuman := "" |}.

(** A second service, and a manifest with both and no volumes
    section. *)
Definition cache : ComposeService :=
  {| Image := "redis:7"; SvcContainerName := "cache";
     SvcVolumes := ["cachedata:/data"] |}.

Definition cachedata_volume : Volume :=
  {| Name := "shop_cachedata"; DatastoreTypeOf := DatastoreRedis;
     ContainerName := "cache"; MountPath := "/data";
     ImageName := "redis:7"; SizeBytes := 0; SizeHuman := "" |}.

Definition two_services : ComposeConfig :=
  {| Services := {[ "db" := db; "cache" := cache ]}; CVolumes := None |}.

(** Two services that mount the same named volume. *)
Definition worker : ComposeService :=
  {| Image := "shop-worker:latest"; SvcContainerName := "worker";
     SvcVolumes := ["pgdata:/import"; "./conf:/etc/shop:ro"] |}.

Definition shared_volume : ComposeConfig :=
  {| Services := {[ "db" := db; "worker" := worker ]};
     CVolumes := Some {[ "pgdata" ]} |}.

(** [sort.Slice] as a merge sort by [less]. *)
Definition not_less (less : Snapshot → Snapshot → bool) (a b : Snapshot)
    : Prop :=
  less b a = false.

#[local] Instance not_less_dec (less : Snapshot → Snapshot → bool)
    : RelDecision (not_less less) :=
  fun a b => decide (less b a = false).

Definition not_less_trans (less : Snapshot → Snapshot → bool)
    (H : ordering less) : Transitive (not_less less) :=
  fun a b c Hab Hbc => proj2 (proj2 H) c b a Hbc Hab.

Definition not_less_total (less : Snapshot → Snapshot → bool)
    (H : ordering less) : Total (not_less less).
Proof.
  intros a b. unfold not_less.
  destruct (less b a) eqn:Hba; [| by left].
  destruct (less a b) eqn:Hab; [| by right].
  destruct H as (Hirr & Htrans & _).
  pose proof (Htrans a b a Hab Hba) as Haa. by rewrite Hirr in Haa.
Qed.

Definition merge_sorter : Sorter :=
  {| sort_slice := fun less => merge_sort (not_less less);
     sort_slice_perm := fun less => merge_sort_Permutation (not_less less);
     sort_slice_sorted := fun less l H =>
       @StronglySorted_merge_sort _ (not_less less) _
         (not_less_trans less H) (not_less_total less H) l |}.

(** A runtime in which every call succeeds. *)
Definition calm : Runtime :=
  {| mkdir_fails := fun _ => false;
     mkdir_leaves := fun _ => false;
     export_fails := fun _ _ => false;
     import_fails := fun _ _ => false;
     clear_fails := fun _ => false;
     stat_size := fun _ => Some 2048;
     write_fails := fun _ => false;
     write_leaves := fun _ => None;
     remove_fails := fun _ => false;
     remove_takes_record := fun _ => false;
     readdir_fails := false;
     FormatSize := fun _ => "2.0 KB";
     format_stamp := fun _ => "20240115-143052";
     AddDate := fun t days => t + 86400 * days;
     sorter := merge_sorter |}.


(** A runtime in which the export of the cache volume fails, and so does
    the creation of the auto-backup directory of a restore. *)
Definition stormy : Runtime :=
  {| mkdir_fails := fun dir => HasPrefix dir ".dataclean/_pre-restore-";
     mkdir_leaves := fun _ => false;
     export_fails := fun v _ => String.eqb (Name v) "shop_cachedata";
     import_fails := fun _ v => String.eqb (Name v) "shop_cachedata";
     clear_fails := fun _ => false;
     stat_size := fun _ => Some 2048;
     write_fails := fun _ => false;
     write_leaves := fun _ => None;
     remove_fails := fun dir => String.eqb dir ".dataclean/locked";
     remove_takes_record := fun _ => false;
     readdir_fails := false;
     FormatSize := fun _ => "2.0 KB";
     format_stamp := fun _ => "20240115-143052";
     AddDate := fun t days => t + 86400 * days;
     sorter := merge_sorter |}.

Definition logs_volume : Volume :=
  {| Name := "shop_logs"; DatastoreTypeOf := DatastoreGeneric;
     ContainerName := ""; MountPath := "/var/log/shop";
     ImageName := "shop:latest"; SizeBytes := 0; SizeHuman := "" |}.

(** Nothing on disk yet, no docker command run; the clock reads
    2024-01-15 14:30:52 UTC. *)
Definition blank : World :=
  {| root := None; trace := []; now := 1705329052 |}.


(** A record as [Create] wrote it at [timestamp], whose persisted path
    is [path]. *)
Definition record (name : string) (timestamp : Z) (path : string)
    (tags : list string) : Snapshot :=
  {| SName := name; Timestamp := timestamp;
     Volumes := [pgdata_volume]; SSizeBytes := 2048;
     SSizeHuman := "2.0 KB"; Path := path; Checksum := "";
     Tags := tags; Description := ""; Metadata := ∅; ParentName := "";
     Incremental := false |}.

(** The scenario of the specification for [List]: a directory with a
    valid record, a directory with no record, and a plain file. *)
Definition one_snapshot_entries : gmap string Node :=
  {[ "good" := Directory (Holds (Yaml
                 (record "good" 1705000000 "/old/place/good" [])));
     "empty" := Directory Missing;
     "notes.txt" := PlainFile ]}.

Definition one_snapshot : World := set_root (Some one_snapshot_entries) blank.




(** The retention scenario of the specification: a window of seven
    days; a snapshot of ten days ago, one of three days ago, and an
    auto-backup of thirty days ago. *)
Definition week : Config :=
  {| ComposeFile := ""; IncludeVolumes := []; ExcludeVolumes := [];
     DatastoreHints := ∅; SnapshotDir := ".dataclean";
     BackupBeforeRestore := true; DefaultTags := []; RetentionDays := 7 |}.

Definition aged_entries : gmap string Node :=
  {[ "old" := Directory (Holds (Yaml
                (record "old" (1705329052 - 10 * 86400)
                   ".dataclean/old" [])));
     "recent" := Directory (Holds (Yaml
                   (record "recent" (1705329052 - 3 * 86400)
                      ".dataclean/recent" [])));
     "_pre-reset-20231216-143052" :=
       Directory (Holds (Yaml
         (record "_pre-reset-20231216-143052" (1705329052 - 30 * 86400)
            ".dataclean/_pre-reset-20231216-143052" []))) ]}.

Definition aged : World := set_root (Some aged_entries) blank.

(** A snapshot directory renamed by hand: the directory [archive] holds
    the record of the snapshot [old]. *)
Definition renamed_entries : gmap string Node :=
  {[ "archive" := Directory (Holds (Yaml
                    (record "old" (1705329052 - 10 * 86400)
                       ".dataclean/old" []))) ]}.

Definition renamed : World := set_root (Some renamed_entries) blank.

(** The same, after a new snapshot was made under the name [old], one
    day ago. *)
Definition reused_entries : gmap string Node :=
  {[ "archive" := Directory (Holds (Yaml
                    (record "old" (1705329052 - 10 * 86400)
                       ".dataclean/old" [])));
     "old" := Directory (Holds (Yaml
                (record "old" (1705329052 - 1 * 86400)
                   ".dataclean/old" []))) ]}.

Definition reused : World := set_root (Some reused_entries) blank.


(** A config whose default tag is also given on the command line. *)
Definition tagged : Config :=
  {| ComposeFile := ""; IncludeVolumes := []; ExcludeVolumes := [];
     DatastoreHints := ∅; SnapshotDir := ".dataclean";
     BackupBeforeRestore := true; DefaultTags := ["dev"];
     RetentionDays := 0 |}.

Definition dev_options : CreateOptions :=
  {| OptTags := ["dev"]; OptDescription := ""; OptMetadata := ∅;
     OptIncremental := false; OptParentName := "" |}.

End sample.

(** ** More vocabulary for runs of the manager *)

Module runs.
Import GoStrings models filepath snapshot.

(** The volume as the export loop records it: with the size of its
    archive when [os.Stat] finds the archive, as it came otherwise. *)
Definition sized (rt : Runtime) (dir : string) (vol : Volume) : Volume :=
  match stat_size rt (archivePath dir vol) with
  | Some size => with_size vol size (FormatSize rt size)
  | None => vol
  end.

(** The running total of the export loop after [volumes], from [total]:
    [int64] additions of the sizes of the archives found. *)
Definition running_total (rt : Runtime) (dir : string)
    (volumes : list Volume) (total : Z) : Z :=
  fold_left
    (fun t vol =>
       match stat_size rt (archivePath dir vol) with
       | Some size => wrap64 (t + size)
       | None => t
       end)
    volumes total.

(** The clear commands for [volumes]. *)
Definition clears (volumes : list Volume) : list Event :=
  map ClearData volumes.

(** The name under which the auto-backup of a reset is created. *)
Definition pre_reset_name (rt : Runtime) (w : World) : string :=
  "_pre-reset-" +:+ format_stamp rt (now w).

(** The containers a pause or resume request addresses: the container
    names of the volumes that have one, in the order of the volumes. *)
Definition containers (volumes : list Volume) : list string :=
  filter (fun c => c ≠ "") (map ContainerName volumes).

(** The four operations that edit the record of an existing snapshot. *)
Inductive Edit :=
| EditAddTag (tag : string)
| EditRemoveTag (tag : string)
| EditDescription (description : string)
| EditMetadata (metadata : gmap string string).

Definition edit (rt : Runtime) (cfg : Config) (name : string) (e : Edit)
    : M unit :=
  match e with
  | EditAddTag tag => AddTag rt cfg name tag
  | EditRemoveTag tag => RemoveTag rt cfg name tag
  | EditDescription description => UpdateDescription rt cfg name description
  | EditMetadata metadata => UpdateMetadata rt cfg name metadata
  end.

(** One byte of a sanitized name. *)
Definition sanitize_char (c : ascii) : ascii :=
  if bool_decide (c ∈ unsafe_chars) then "_"%char else c.

(** The bytes of a string. *)
Definition bytes (s : string) : list ascii := list_ascii_of_string s.

End runs.

(** ** The record after an edit *)

Module edits.
Import GoStrings models filepath snapshot runs.

(** The record an edit writes, from the record [s] that was loaded;
    [None] when it writes nothing ([AddTag] of a tag that is there). *)
Definition edited (e : Edit) (s : Snapshot) : option Snapshot :=
  match e with
  | EditAddTag tag =>
      if bool_decide (tag ∈ Tags s) then None
      else Some (with_Tags s (Tags s ++ [tag]))
  | EditRemoveTag tag =>
      Some (with_Tags s (filter (fun t => t ≠ tag) (Tags s)))
  | EditDescription description => Some (with_Description s description)
  | EditMetadata metadata =>
      Some (with_Metadata s (metadata ∪ Metadata s))
  end.

(** The world in which the record file of the directory [name] holds the
    record [s]. *)
Definition with_record (w : World) (name : string) (s : Snapshot) : World :=
  set_root (insert name (Directory (Holds (Yaml s))) <$> root w) w.

End edits.

(** ** More snapshot roots *)

Module sample2.
Import GoStrings models filepath snapshot sample.

(** A record whose tag list repeats a tag. *)
Definition tagged_twice_entries : gmap string Node :=
  {[ "twice" := Directory (Holds (Yaml
                  (record "twice" 1705000000 ".dataclean/twice"
                     ["dev"; "qa"; "dev"]))) ]}.

Definition tagged_twice : World :=
  set_root (Some tagged_twice_entries) blank.

(** Three snapshots, of January, February and March 2024; the first and
    the last carry the tag [dev], the first of them twice. *)
Definition three_tagged_entries : gmap string Node :=
  {[ "january" := Directory (Holds (Yaml
                    (record "january" 1704100000 ".dataclean/january"
                       ["dev"; "qa"; "dev"])));
     "february" := Directory (Holds (Yaml
                     (record "february" 1706800000 ".dataclean/february"
                        ["qa"])));
     "march" := Directory (Holds (Yaml
                  (record "march" 1709300000 ".dataclean/march" ["dev"]))) ]}.

Definition three_tagged : World :=
  set_root (Some three_tagged_entries) blank.


(** A config with a hint for [pgdata] that names a datastore outside the
    six known ones. *)
Definition hinted : Config :=
  {| ComposeFile := ""; IncludeVolumes := []; ExcludeVolumes := [];
     DatastoreHints := {[ "pgdata" := "timescale" ]};
     SnapshotDir := ".dataclean"; BackupBeforeRestore := true;
     DefaultTags := []; RetentionDays := 0 |}.

Definition hinted_volume : Volume :=
  {| Name := "shop_pgdata"; DatastoreTypeOf := "timescale";
     ContainerName := "db"; MountPath := "/var/lib/postgresql/data";
     ImageName := "postgres:15"; SizeBytes := 0; SizeHuman := "" |}.

(** A config that names its compose file. *)
Definition elsewhere : Config :=
  {| ComposeFile := "deploy/compose.yaml"; IncludeVolumes := [];
     ExcludeVolumes := []; DatastoreHints := ∅;
     SnapshotDir := ".dataclean"; BackupBeforeRestore := true;
     DefaultTags := []; RetentionDays := 0 |}.


(** A config that excludes the only volume of the scenario. *)
Definition without_pgdata : Config :=
  {| ComposeFile := ""; IncludeVolumes := []; ExcludeVolumes := ["pgdata"];
     DatastoreHints := ∅; SnapshotDir := ".dataclean";
     BackupBeforeRestore := true; DefaultTags := []; RetentionDays := 0 |}.

End sample2.

(** ** [internal/models]: the known datastores *)

Module datastores.
Import GoStrings models.

(** [GetDatastoreInfo]: the display name and the icon of a datastore
    type; the [default] branch serves [generic] and every other string. *)
Definition GetDatastoreInfo (dt : DatastoreType) : string * string :=
  if String.eqb dt DatastorePostgres then ("PostgreSQL", "🐘")
  else if String.eqb dt DatastoreMySQL then ("MySQL/MariaDB", "🐬")
  else if String.eqb dt DatastoreRedis then ("Redis", "🔴")
  else if String.eqb dt DatastoreMongoDB then ("MongoDB", "🍃")
  else if String.eqb dt DatastoreNeo4j then ("Neo4j", "🔵")
  else ("Generic Volume", "📦").

(** [AvailableDatastores]. *)
Definition AvailableDatastores : list DatastoreType :=
  [DatastorePostgres; DatastoreMySQL; DatastoreRedis; DatastoreMongoDB;
   DatastoreNeo4j; DatastoreGeneric].

End datastores.

(** ** Reading the manifest *)

Module detect.
Import GoStrings models docker.

(** What reading and parsing the file [file] gives. *)
Definition read_manifest (h : Host) (file : string)
    : DetectError + ComposeConfig :=
  match files h !! file with
  | None | Some Unreadable => inl (ReadFailed file)
  | Some Malformed => inl (ParseFailed file)
  | Some (Manifest compose) => inr compose
  end.

End detect.

(** ** [internal/models]: [FormatSize] *)

Module size.
Import GoStrings models snapshot.

Definition unit : Z := 1024.

(** The loop [for n := bytes / unit; n >= unit; n /= unit { div *= unit;
    exp++ }], with [int64] division and multiplication; [None] when the
    fuel runs out before the loop ends. *)
Fixpoint unitLoop (fuel : nat) (n div : Z) (exp : nat) : option (Z * nat) :=
  match fuel with
  | O => None
  | S fuel =>
      if unit <=? n
      then unitLoop fuel (Z.quot n unit) (wrap64 (div * unit)) (S exp)
      else Some (div, exp)
  end.

(** What a call returns: the text, or the panic of an index outside
    ["KMGTPE"], or nothing within the fuel. *)
Inductive Outcome :=
| Text (s : string)
| IndexOutOfRange
| Unfinished.

(** [FormatSize]. The formatting of the quotient of two floats with one
    decimal, [fmt.Sprintf("%.1f", float64(bytes)/float64(div))], is the
    parameter [float1]. *)
Definition FormatSize (float1 : Z → Z → string) (bytes : Z) : Outcome :=
  if bytes <? unit then Text (pretty bytes +:+ " B")
  else
    match unitLoop 7 (Z.quot bytes unit) unit 0 with
    | None => Unfinished
    | Some (div, exp) =>
        match String.get exp "KMGTPE" with
        | None => IndexOutOfRange
        | Some c => Text (float1 bytes div +:+ " " +:+ String c "B")
        end
    end.

End size.

(** ** [internal/snapshot]: the size report *)

Module report.
Import GoStrings models filepath snapshot.

(** [models.DatastoreSizeInfo]. *)
Record DatastoreSizeInfo := mkInfo {
  InfoType : DatastoreType;
  InfoTotalSize : Z;
  InfoSizeHuman : string;
  InfoCount : Z
}.

(** The zero value a lookup of a missing key gives. *)
Definition zeroInfo : DatastoreSizeInfo :=
  {| InfoType := ""; InfoTotalSize := 0; InfoSizeHuman := "";
     InfoCount := 0 |}.

(** [models.SizeReport]. *)
Record SizeReport := mkReport {
  TotalSize : Z;
  TotalSizeHuman : string;
  ByDatastore : gmap string DatastoreSizeInfo;
  ByVolume : gmap string Z;
  SnapshotCount : Z;
  SnapshotSize : Z
}.

(** What [docker run ... du -sb /data] gives for a volume: the command
    fails, or it prints output from which [fmt.Sscanf] reads a number, or
    none. *)
Inductive Du :=
| DuFailed
| DuOutput (number : option Z).

(** What [GetVolumeSize] returns for what the command gives: [size]
    stays 0 when [Sscanf] reads no number, and that is no error; [None]
    is the error of the command. *)
Definition size_read (du : Volume → Du) (volume : Volume) : option Z :=
  match du volume with
  | DuFailed => None
  | DuOutput None => Some 0
  | DuOutput (Some size) => Some size
  end.

(** [Client.GetVolumeSize]: one [docker run] of [du -sb /data] in a
    container that mounts the volume read-only. *)
Definition GetVolumeSize (du : Volume → Du) (volume : Volume)
    : World → option Z * World :=
  fun w => (size_read du volume, emit (DiskUsage volume) w).

(** The body of the first loop of [GetSizeReport] after the size query
    has succeeded. [Count] is an [int] that counts elements of a slice and
    cannot wrap. *)
Definition account (rep : SizeReport) (vol : Volume) (size : Z)
    : SizeReport :=
  let dsType := DatastoreTypeOf vol in
  let info := default zeroInfo (ByDatastore rep !! dsType) in
  let info' :=
    {| InfoType := DatastoreTypeOf vol;
       InfoTotalSize := wrap64 (InfoTotalSize info + size);
       InfoSizeHuman := InfoSizeHuman info;
       InfoCount := InfoCount info + 1 |} in
  {| TotalSize := wrap64 (TotalSize rep + size);
     TotalSizeHuman := TotalSizeHuman rep;
     ByDatastore := <[ dsType := info' ]> (ByDatastore rep);
     ByVolume := <[ Name vol := size ]> (ByVolume rep);
     SnapshotCount := SnapshotCount rep;
     SnapshotSize := SnapshotSize rep |}.

(** The first loop of [GetSizeReport]: a volume whose size query fails
    is passed over. *)
Fixpoint sizeLoop (du : Volume → Du) (volumes : list Volume)
    (rep : SizeReport) (w : World) : SizeReport * World :=
  match volumes with
  | [] => (rep, w)
  | vol :: rest =>
      let (size, w') := GetVolumeSize du vol w in
      match size with
      | None => sizeLoop du rest rep w'
      | Some size => sizeLoop du rest (account rep vol size) w'
      end
  end.

(** What one round of the loop does to the report. *)
Definition measure (du : Volume → Du) (rep : SizeReport) (vol : Volume)
    : SizeReport :=
  match size_read du vol with
  | None => rep
  | Some size => account rep vol size
  end.

Definition emptyReport : SizeReport :=
  {| TotalSize := 0; TotalSizeHuman := ""; ByDatastore := ∅;
     ByVolume := ∅; SnapshotCount := 0; SnapshotSize := 0 |}.

(** The second loop: the readable size of every datastore. *)
Definition humanize (rt : Runtime) (info : DatastoreSizeInfo)
    : DatastoreSizeInfo :=
  {| InfoType := InfoType info; InfoTotalSize := InfoTotalSize info;
     InfoSizeHuman := FormatSize rt (InfoTotalSize info);
     InfoCount := InfoCount info |}.

(** The third loop: [report.SnapshotSize += s.SizeBytes]. *)
Definition snapshotSizes (snapshots : list Snapshot) : Z :=
  fold_left (fun total s => wrap64 (total + SSizeBytes s)) snapshots 0.

(** [Manager.GetSizeReport]; its error is always nil. *)
Definition GetSizeReport (rt : Runtime) (cfg : Config) (du : Volume → Du)
    (volumes : list Volume) : M SizeReport :=
  fun w =>
    let (measured, w1) := sizeLoop du volumes emptyReport w in
    let counted :=
      match fst (List rt cfg w1) with
      | inr snapshots =>
          (Z.of_nat (length snapshots), snapshotSizes snapshots)
      | inl _ => (0, 0)
      end in
    (inr {| TotalSize := TotalSize measured;
            TotalSizeHuman := FormatSize rt (TotalSize measured);
            ByDatastore := humanize rt <$> ByDatastore measured;
            ByVolume := ByVolume measured;
            SnapshotCount := fst counted;
            SnapshotSize := snd counted |}, w1).

(** The volumes whose size query succeeds, each with its size. *)
Definition measured (du : Volume → Du) (volumes : list Volume)
    : list (Volume * Z) :=
  omap (fun vol => pair vol <$> size_read du vol) volumes.

(** The size queries for [volumes]. *)
Definition queries (volumes : list Volume) : list Event :=
  map DiskUsage volumes.

(** The sum of a field over the datastores of a report. *)
Definition over_datastores (f : DatastoreSizeInfo → Z)
    (m : gmap string DatastoreSizeInfo) : Z :=
  map_fold (fun _ info total => f info + total) 0 m.

(** The sum of a list of integers. *)
Definition sum (l : list Z) : Z := fold_right Z.add 0 l.

End report.

(** ** [cmd]: the commands *)

Module cmd.
Import GoStrings models filepath docker snapshot.

(** The persistent flags [--dry-run], [--force] and [--quiet]. *)
Record Flags := mkFlags {
  dryRun : bool;
  force : bool;
  quiet : bool
}.

(** The flags of [snapshot]. *)
Record SnapshotFlags := mkSnapshotFlags {
  snapshotTags : list string;
  snapshotDescription : string;
  snapshotInclude : list string;
  snapshotExclude : list string
}.

(** What [tui.RunSnapshotSelector] returns: an error (the program failed
    or the user cancelled), a nil record with no error (the selection was
    confirmed while the list showed no item), or the record picked. *)
Inductive Selection :=
| SelectorFailed
| SelectedNone
| Selected (s : Snapshot).

(** What a command gets from outside the manager: the outcome of
    [config.Load(cfgFile)] ([None]: an error), whether [docker.NewClient]
    finds docker, the host and the order in which the services are
    visited, the answer typed at the prompt of [restore] and [reset] as
    [strings.TrimSpace(strings.ToLower(...))] hands it on, what
    [fmt.Scanln] reads at the prompt of [tui.ConfirmDestructive] ([None]:
    an error), what [tui.RunSnapshotSelector] returns, and
    [Time.Format("2006-01-02-150405")]. What the commands print is left
    out; [quiet] only selects what is printed. *)
Record Session := mkSession {
  config_Load : option Config;
  docker_found : bool;
  host : Host;
  visit : list (string * ComposeService);
  answer : string;
  scanned : option string;
  selection : Selection;
  name_stamp : Z → string
}.

Inductive CmdError :=
| LoadConfigFailed
| DockerClientFailed
| DetectFailed (e : DetectError)
| CreateFailed (e : Error)
| SnapshotNotFound (name : string)
| RestoreFailed (e : Error)
| ResetFailed (e : Error)
| ListFailed (e : Error)
| NoSnapshotsFound
| SelectorError
| ScanFailed
| DeleteFailed (e : Error)
| NilDereference.

Definition Cmd : Type := World → (CmdError + unit) * World.

Definition with_IncludeVolumes (cfg : Config) (l : list string) : Config :=
  {| ComposeFile := ComposeFile cfg; IncludeVolumes := l;
     ExcludeVolumes := ExcludeVolumes cfg;
     DatastoreHints := DatastoreHints cfg; SnapshotDir := SnapshotDir cfg;
     BackupBeforeRestore := BackupBeforeRestore cfg;
     DefaultTags := DefaultTags cfg; RetentionDays := RetentionDays cfg |}.

Definition with_ExcludeVolumes (cfg : Config) (l : list string) : Config :=
  {| ComposeFile := ComposeFile cfg; IncludeVolumes := IncludeVolumes cfg;
     ExcludeVolumes := l;
     DatastoreHints := DatastoreHints cfg; SnapshotDir := SnapshotDir cfg;
     BackupBeforeRestore := BackupBeforeRestore cfg;
     DefaultTags := DefaultTags cfg; RetentionDays := RetentionDays cfg |}.

(** The config [runSnapshot] works with: an [--include] list replaces the
    include list of the config, an [--exclude] list is appended to its
    exclude list. *)
Definition applyFlags (sf : SnapshotFlags) (cfg : Config) : Config :=
  let cfg1 :=
    if (0 <? Z.of_nat (length (snapshotInclude sf)))
    then with_IncludeVolumes cfg (snapshotInclude sf) else cfg in
  if (0 <? Z.of_nat (length (snapshotExclude sf)))
  then with_ExcludeVolumes cfg1 (ExcludeVolumes cfg1 ++ snapshotExclude sf)
  else cfg1.

(** [runSnapshot]. *)
Definition runSnapshot (rt : Runtime) (fl : Flags) (sf : SnapshotFlags)
    (t : Session) (args : list string) : Cmd :=
  fun w =>
    let name :=
      match args with
      | arg :: _ => arg
      | [] => "snapshot-" +:+ name_stamp t (now w)
      end in
    match config_Load t with
    | None => (inl LoadConfigFailed, w)
    | Some loaded =>
        let cfg := applyFlags sf loaded in
        if negb (docker_found t) then (inl DockerClientFailed, w)
        else
          match DetectComposeVolumesIn (host t) cfg (visit t) with
          | inl e => (inl (DetectFailed e), w)
          | inr volumes =>
              if (Z.of_nat (length volumes) =? 0) then (inr tt, w)
              else if dryRun fl then (inr tt, w)
              else
                let opts :=
                  {| OptTags := snapshotTags sf;
                     OptDescription := snapshotDescription sf;
                     OptMetadata := ∅; OptIncremental := false;
                     OptParentName := "" |} in
                match CreateWithOptions rt cfg name volumes opts w with
                | (inl e, w') => (inl (CreateFailed e), w')
                | (inr _, w') => (inr tt, w')
                end
          end
    end.

(** [runRestore], for its one argument. *)
Definition runRestore (rt : Runtime) (fl : Flags) (t : Session)
    (name : string) : Cmd :=
  fun w =>
    match config_Load t with
    | None => (inl LoadConfigFailed, w)
    | Some cfg =>
        if negb (docker_found t) then (inl DockerClientFailed, w)
        else
          match fst (Get cfg name w) with
          | inl _ => (inl (SnapshotNotFound name), w)
          | inr _ =>
              if negb (force fl) && negb (dryRun fl)
                 && negb (String.eqb (answer t) "yes")
              then (inr tt, w)
              else if dryRun fl then (inr tt, w)
              else
                match Restore rt cfg name w with
                | (inl e, w') => (inl (RestoreFailed e), w')
                | (inr _, w') => (inr tt, w')
                end
          end
    end.

(** [runReset]. *)
Definition runReset (rt : Runtime) (fl : Flags) (t : Session) : Cmd :=
  fun w =>
    match config_Load t with
    | None => (inl LoadConfigFailed, w)
    | Some cfg =>
        if negb (docker_found t) then (inl DockerClientFailed, w)
        else
          match DetectComposeVolumesIn (host t) cfg (visit t) with
          | inl e => (inl (DetectFailed e), w)
          | inr volumes =>
              if (Z.of_nat (length volumes) =? 0) then (inr tt, w)
              else if negb (force fl) && negb (dryRun fl)
                      && negb (String.eqb (answer t) "yes")
              then (inr tt, w)
              else if dryRun fl then (inr tt, w)
              else
                match Reset rt cfg volumes w with
                | (inl e, w') => (inl (ResetFailed e), w')
                | (inr _, w') => (inr tt, w')
                end
          end
    end.

(** [tui.ConfirmDestructive]: [None] is the error of [fmt.Scanln]. *)
Definition ConfirmDestructive (t : Session) : option bool :=
  match scanned t with
  | None => None
  | Some response => Some (String.eqb response "yes")
  end.

(** The name [runDelete] works on: its argument, or the name of the
    record picked in the selector. [selected.Name] on a nil record
    panics: the command ends there, [NilDereference]. *)
Definition deleteTarget (rt : Runtime) (cfg : Config) (t : Session)
    (args : list string) (w : World) : CmdError + string :=
  match args with
  | arg :: _ => inr arg
  | [] =>
      match fst (List rt cfg w) with
      | inl e => inl (ListFailed e)
      | inr snapshots =>
          if (Z.of_nat (length snapshots) =? 0) then inl NoSnapshotsFound
          else match selection t with
               | SelectorFailed => inl SelectorError
               | SelectedNone => inl NilDereference
               | Selected s => inr (SName s)
               end
      end
  end.

(** [runDelete]. *)
Definition runDelete (rt : Runtime) (fl : Flags) (t : Session)
    (args : list string) : Cmd :=
  fun w =>
    match config_Load t with
    | None => (inl LoadConfigFailed, w)
    | Some cfg =>
        if negb (docker_found t) then (inl DockerClientFailed, w)
        else
          match deleteTarget rt cfg t args w with
          | inl e => (inl e, w)
          | inr snapshotName =>
              match fst (Get cfg snapshotName w) with
              | inl _ => (inl (SnapshotNotFound snapshotName), w)
              | inr _ =>
                  if dryRun fl then (inr tt, w)
                  else
                    let proceed :=
                      if force fl then Some true else ConfirmDestructive t in
                    match proceed with
                    | None => (inl ScanFailed, w)
                    | Some false => (inr tt, w)
                    | Some true =>
                        match Delete rt cfg snapshotName w with
                        | (inl e, w') => (inl (DeleteFailed e), w')
                        | (inr _, w') => (inr tt, w')
                        end
                    end
              end
          end
    end.

(** [runList]; the table it prints is left out. *)
Definition runList (rt : Runtime) (t : Session) : Cmd :=
  fun w =>
    match config_Load t with
    | None => (inl LoadConfigFailed, w)
    | Some cfg =>
        if negb (docker_found t) then (inl DockerClientFailed, w)
        else
          match fst (List rt cfg w) with
          | inl e => (inl (ListFailed e), w)
          | inr _ => (inr tt, w)
          end
    end.

(** The four commands that can change data. *)
Inductive Command :=
| DoSnapshot (sf : SnapshotFlags) (args : list string)
| DoRestore (name : string)
| DoReset
| DoDelete (args : list string).

Definition run (rt : Runtime) (fl : Flags) (t : Session) (c : Command)
    : Cmd :=
  match c with
  | DoSnapshot sf args => runSnapshot rt fl sf t args
  | DoRestore name => runRestore rt fl t name
  | DoReset => runReset rt fl t
  | DoDelete args => runDelete rt fl t args
  end.

(** The name [runSnapshot] creates the snapshot under: its argument, or
    [snapshot-] and the time of the call. *)
Definition snapshot_name (t : Session) (args : list string) (w : World)
    : string :=
  match args with
  | arg :: _ => arg
  | [] => "snapshot-" +:+ name_stamp t (now w)
  end.

End cmd.

(** ** Sessions at the command line *)

Module sample3.
Import GoStrings models filepath docker snapshot sample.

(** [--dry-run]. *)
Definition preview : cmd.Flags :=
  {| cmd.dryRun := true; cmd.force := true; cmd.quiet := false |}.

(** No flag. *)
Definition careful : cmd.Flags :=
  {| cmd.dryRun := false; cmd.force := false; cmd.quiet := false |}.

(** [--force]. *)
Definition forced : cmd.Flags :=
  {| cmd.dryRun := false; cmd.force := true; cmd.quiet := true |}.

(** A session in the project of the end-to-end scenario, in which the
    user answers [no]. *)
Definition session : cmd.Session :=
  {| cmd.config_Load := Some DefaultConfig;
     cmd.docker_found := true;
     cmd.host := host_of declared_section;
     cmd.visit := [("db", db)];
     cmd.answer := "no";
     cmd.scanned := Some "no";
     cmd.selection := cmd.SelectorFailed;
     cmd.name_stamp := fun _ => "2024-01-15-143052" |}.


(** The same session with a config that excludes the only volume. *)
Definition excluding : cmd.Session :=
  {| cmd.config_Load := Some sample2.without_pgdata;
     cmd.docker_found := true;
     cmd.host := host_of declared_section;
     cmd.visit := [("db", db)];
     cmd.answer := "yes";
     cmd.scanned := Some "yes";
     cmd.selection := cmd.SelectorFailed;
     cmd.name_stamp := fun _ => "2024-01-15-143052" |}.


(** [snapshot --tag before --exclude cachedata]. *)
Definition tag_and_exclude : cmd.SnapshotFlags :=
  {| cmd.snapshotTags := ["before"]; cmd.snapshotDescription := "";
     cmd.snapshotInclude := []; cmd.snapshotExclude := ["cachedata"] |}.

End sample3.

(** ** A disk that fills up *)

Module sample4.
Import GoStrings models filepath snapshot sample.

(** [models.Snapshot{}], which [yaml.Unmarshal] gives for an empty
    document: no name, the zero [time.Time] (1 January of the year 1, UTC,
    in seconds from 1970), nothing else. *)
Definition zero : Snapshot :=
  {| SName := ""; Timestamp := -62135596800; Volumes := [];
     SSizeBytes := 0; SSizeHuman := ""; Path := ""; Checksum := "";
     Tags := []; Description := ""; Metadata := ∅; ParentName := "";
     Incremental := false |}.

(** A runtime in which every write of a record file fails after the
    file was truncated, and leaves it empty. *)
Definition full_disk : Runtime :=
  {| mkdir_fails := fun _ => false;
     mkdir_leaves := fun _ => false;
     export_fails := fun _ _ => false;
     import_fails := fun _ _ => false;
     clear_fails := fun _ => false;
     stat_size := fun _ => Some 2048;
     write_fails := fun _ => true;
     write_leaves := fun _ => Some (Yaml zero);
     remove_fails := fun _ => false;
     remove_takes_record := fun _ => false;
     readdir_fails := false;
     FormatSize := fun _ => "2.0 KB";
     format_stamp := fun _ => "20240115-143052";
     AddDate := fun t days => t + 86400 * days;
     sorter := merge_sorter |}.

End sample4.

(** * Properties *)

Import GoStrings models filepath docker.

(** ** The classifier *)

Lemma eqb_empty_decide (s : string) :
  String.eqb s "" = bool_decide (s = "").
Proof.
  destruct (String.eqb_spec s ""); symmetry.
  - by apply bool_decide_eq_true.
  - by apply bool_decide_eq_false.
Qed.

Lemma hint_wins image mountPath hint :
  hint ≠ "" → inferDatastoreType image mountPath hint = hint.
Proof.
  intros Hne. unfold inferDatastoreType.
  rewrite eqb_empty_decide, bool_decide_eq_false_2; done.
Qed.

Lemma image_outranks_path image mountPath kind :
  stated.first_match stated.image_groups (ToLower image) = Some kind →
  inferDatastoreType image mountPath "" = kind.
Proof.
  unfold inferDatastoreType. simpl.
  rewrite !orb_false_r.
  repeat (destruct (Contains (ToLower image) _); simpl;
          [intros [= <-]; reflexivity |]).
  discriminate.
Qed.

Lemma nothing_matches_generic image mountPath :
  stated.first_match stated.image_groups (ToLower image) = None →
  stated.first_match stated.path_groups mountPath = None →
  inferDatastoreType image mountPath "" = DatastoreGeneric.
Proof.
  unfold inferDatastoreType. simpl.
  rewrite !orb_false_r.
  repeat (destruct (Contains (ToLower image) _); simpl; [discriminate |]).
  intros _.
  repeat (destruct (Contains mountPath _); simpl; [discriminate |]).
  reflexivity.
Qed.

(** C5, as stated, fails: with no hint and no image match, a mount path
    that contains the image keyword [postgres] (but neither [postgresql]
    nor [pgdata]) is classified generic, where matching the mount path
    against the same ordered keyword groups as the image gives postgres. *)
Lemma C5_same_groups_counterexample :
  inferDatastoreType "alpine:3" "/srv/postgres" "" = DatastoreGeneric ∧
  stated.classify_same_groups "alpine:3" "/srv/postgres" ""
    = DatastorePostgres ∧
  inferDatastoreType "alpine:3" "/srv/postgres" ""
    ≠ stated.classify_same_groups "alpine:3" "/srv/postgres" "".
Proof. split; [reflexivity |]. split; [reflexivity | discriminate]. Qed.

(** C5, amended: the classifier is total; it returns the hint whenever the
    hint is non-empty; otherwise the kind of the first group, in the order
    postgres, mysql/mariadb, redis, mongo, neo4j, one of whose keywords
    occurs in the lower-cased image; otherwise the kind of the first
    group, in the order postgresql/pgdata, mysql, redis, mongo, neo4j, one
    of whose keywords occurs in the mount path as it is written;
    otherwise generic. *)
Theorem C5_classifier_precedence image mountPath hint :
  inferDatastoreType image mountPath hint
  = stated.classify stated.image_groups stated.path_groups
      image mountPath hint.
Proof.
  unfold stated.classify. destruct (decide (hint = "")) as [-> | Hne].
  - destruct (stated.first_match stated.image_groups (ToLower image))
      as [kind |] eqn:Himg.
    + by apply image_outranks_path.
    + unfold inferDatastoreType. simpl in *.
      rewrite !orb_false_r in *.
      repeat (destruct (Contains (ToLower image) _); simpl in *;
              [discriminate |]).
      repeat (destruct (Contains mountPath _); simpl; [reflexivity |]).
      reflexivity.
  - by apply hint_wins.
Qed.

(** ** Compose volume detection *)

Lemma contains_decide (slice : list string) (item : string) :
  contains slice item = bool_decide (item ∈ slice).
Proof.
  induction slice as [| s rest IH]; [done |].
  cbn [contains]. destruct (String.eqb_spec s item) as [-> | Hne].
  - rewrite bool_decide_eq_true_2; [done | by left].
  - rewrite IH. apply bool_decide_ext. rewrite elem_of_cons.
    split; [by right | by intros [-> | ?]].
Qed.

Lemma include_filter (cfg : Config) (ref : string) :
  (0 <? Z.of_nat (length (IncludeVolumes cfg)))
  && negb (contains (IncludeVolumes cfg) ref)
  = negb (stated.included cfg ref).
Proof.
  unfold stated.included. rewrite contains_decide.
  destruct (IncludeVolumes cfg); reflexivity.
Qed.

(** The loop body, against the filters of the specification: an entry is
    appended exactly when it survives them, and the volume appended is
    named after the project and the reference. *)
Lemma mountVolume_survives project cfg compose service mount :
  match mountVolume project cfg compose service mount with
  | Some v =>
      stated.survives cfg compose mount = true ∧
      Name v = project +:+ "_" +:+ stated.reference mount ∧
      ContainerName v = SvcContainerName service ∧
      ImageName v = Image service
  | None => stated.survives cfg compose mount = false
  end.
Proof.
  unfold mountVolume, stated.survives, stated.has_mount_path,
    stated.reference, stated.bind_mount, stated.declared, stated.excluded.
  destruct (Split mount colon) as [| ref [| path more]]; simpl; try done.
  rewrite include_filter, contains_decide.
  destruct (HasPrefix ref "." || HasPrefix ref "/"); simpl; [done |].
  destruct (CVolumes compose) as [names |]; simpl.
  - destruct (bool_decide (ref ∈ names)); simpl; [| done].
    destruct (stated.included cfg ref); simpl; [| done].
    destruct (bool_decide (ref ∈ ExcludeVolumes cfg)); simpl; done.
  - destruct (stated.included cfg ref); simpl; [| done].
    destruct (bool_decide (ref ∈ ExcludeVolumes cfg)); simpl; done.
Qed.

Lemma serviceLoop_block project cfg compose service volumes :
  serviceLoop project cfg compose service volumes
  = volumes ++ stated.service_block project cfg compose service.
Proof.
  unfold serviceLoop, stated.service_block.
  revert volumes. induction (SvcVolumes service) as [| m ms IH];
    intros volumes; simpl.
  - by rewrite app_nil_r.
  - rewrite IH.
    destruct (mountVolume project cfg compose service m); [| done].
    by rewrite <- app_assoc.
Qed.

Lemma extractVolumes_from project cfg compose visit acc :
  fold_left
    (fun acc (entry : string * ComposeService) =>
       serviceLoop project cfg compose (snd entry) acc)
    visit acc
  = acc ++ flat_map
             (fun entry : string * ComposeService =>
                stated.service_block project cfg compose (snd entry))
             visit.
Proof.
  revert acc. induction visit as [| e es IH]; intros acc; simpl.
  - by rewrite app_nil_r.
  - by rewrite IH, serviceLoop_block, <- app_assoc.
Qed.

(** The two loops emit the blocks of the services one after the other,
    in the order in which the services are visited. *)
Lemma extractVolumes_blocks project cfg compose visit :
  extractVolumes project cfg compose visit
  = flat_map
      (fun entry : string * ComposeService =>
         stated.service_block project cfg compose (snd entry))
      visit.
Proof. unfold extractVolumes. by rewrite extractVolumes_from. Qed.

Lemma extractVolumes_mounts project cfg compose visit :
  extractVolumes project cfg compose visit
  = omap (fun sm => mountVolume project cfg compose (fst sm) (snd sm))
      (stated.service_mounts visit).
Proof.
  rewrite extractVolumes_blocks. unfold stated.service_mounts.
  induction visit as [| e es IH]; simpl; [done |].
  rewrite omap_app, IH. f_equal.
  unfold stated.service_block.
  induction (SvcVolumes (snd e)) as [| m ms IHm]; [done |].
  cbn [map omap list_omap fst snd]. by rewrite IHm.
Qed.

Lemma omap_mounts_survivors project cfg compose mounts :
  Forall2 (stated.emitted_for project)
    (omap (fun sm => mountVolume project cfg compose (fst sm) (snd sm)) mounts)
    (filter (fun sm => stated.survives cfg compose (snd sm) = true) mounts).
Proof.
  induction mounts as [| [service mount] rest IH]; simpl; [constructor |].
  pose proof (mountVolume_survives project cfg compose service mount) as Hm.
  rewrite filter_cons. simpl.
  destruct (mountVolume project cfg compose service mount) as [v |].
  - destruct Hm as (Hs & Hn & Hc & Hi).
    rewrite decide_True by done. constructor; [| done].
    by repeat split.
  - rewrite decide_False by (rewrite Hm; done). done.
Qed.

(** The bytes of an appended string. *)
Lemma list_ascii_of_append (a b : string) :
  list_ascii_of_string (a +:+ b)
  = list_ascii_of_string a ++ list_ascii_of_string b.
Proof.
  induction a as [| c a IH]; [done |].
  change (String c a +:+ b) with (String c (a +:+ b)). cbn. by f_equal.
Qed.

Lemma take_element_to_slash (l r : list ascii) :
  forallb filepath.not_slash l = true →
  filepath.take_element (l ++ filepath.slash :: r) = l.
Proof.
  induction l as [| c l IH]; cbn.
  - by intros _.
  - intros [Hc Hl]%andb_prop. rewrite Hc. by rewrite IH.
Qed.

(** [filepath.Base] of a directory path: the text after its last
    separator. *)
Lemma Base_last_element (parent base : string) :
  base ≠ "" →
  forallb filepath.not_slash (list_ascii_of_string base) = true →
  filepath.Base (parent +:+ "/" +:+ base) = base.
Proof.
  intros Hbase Hfree. unfold filepath.Base.
  destruct (parent +:+ "/" +:+ base) as [| c0 path0] eqn:Hpath.
  { apply (f_equal list_ascii_of_string) in Hpath.
    rewrite !list_ascii_of_append in Hpath. cbn in Hpath.
    by destruct (list_ascii_of_string parent). }
  rewrite <- Hpath. clear Hpath.
  rewrite !list_ascii_of_append. cbn [list_ascii_of_string app].
  rewrite rev_app_distr. cbn [rev]. rewrite <- app_assoc. cbn [app].
  assert (forallb filepath.not_slash (rev (list_ascii_of_string base)) = true)
    as Hrev.
  { apply forallb_forall. intros c Hc%in_rev.
    by eapply forallb_forall in Hfree. }
  destruct (rev (list_ascii_of_string base)) as [| c rest] eqn:Hlast.
  { destruct base; [done |]. cbn in Hlast.
    by apply app_eq_nil in Hlast as [_ [=]]. }
  cbn [app filepath.drop_slashes].
  pose proof Hrev as [Hc _]%andb_prop. unfold filepath.not_slash in Hc.
  apply negb_true_iff in Hc. rewrite Hc.
  rewrite (take_element_to_slash (c :: rest)
             (rev (list_ascii_of_string parent)) Hrev
           : filepath.take_element
               (c :: rest ++ "/"%char :: rev (list_ascii_of_string parent))
             = c :: rest).
  rewrite <- Hlast, rev_involutive.
  apply string_of_list_ascii_of_string.
Qed.

(** C3: whatever order the services are visited in, the volumes a
    detection returns correspond one to one, in order, to the service
    mount entries that survive the bind-mount skip, the declared-volumes
    check and the include/exclude filters (an entry shared by two services
    counts once for each), and each volume's full name is the project
    name, an underscore and the unprefixed reference of its entry. The
    project name is the base name of the working directory: the text
    after the last separator of its path. *)
Theorem C3_one_volume_per_surviving_mount
    (h : Host) (cfg : Config) (compose : ComposeConfig)
    (visit : list (string * ComposeService)) (vols : list Volume) :
  loadCompose h cfg = inr compose →
  range_order (Services compose) visit →
  DetectComposeVolumesIn h cfg visit = inr vols →
  Forall2 (stated.emitted_for (getProjectName (cwd h))) vols
    (filter (fun sm => stated.survives cfg compose (snd sm) = true)
       (stated.service_mounts visit)) ∧
  ∀ parent base,
    cwd h = Some (parent +:+ "/" +:+ base) →
    base ≠ "" →
    forallb filepath.not_slash (list_ascii_of_string base) = true →
    getProjectName (cwd h) = base ∧
    Forall
      (fun v => ∃ reference, Name v = base +:+ "_" +:+ reference)
      vols.
Proof.
  intros Hload _ Hrun. unfold DetectComposeVolumesIn in Hrun.
  rewrite Hload in Hrun. injection Hrun as <-.
  rewrite extractVolumes_mounts.
  pose proof (omap_mounts_survivors (getProjectName (cwd h)) cfg compose
                (stated.service_mounts visit)) as Hemitted.
  split; [exact Hemitted |].
  intros parent base Hcwd Hbase Hfree.
  assert (getProjectName (cwd h) = base) as Hproject.
  { rewrite Hcwd. cbn. by apply Base_last_element. }
  split; [done |]. rewrite <- Hproject.
  induction Hemitted as [| v sm vs sms (Hname & _) _ IH]; constructor; eauto.
Qed.

Lemma visited_services (m : gmap string ComposeService) visit name service :
  range_order m visit → (name, service) ∈ visit ↔ m !! name = Some service.
Proof.
  unfold range_order. intros ->. apply elem_of_map_to_list.
Qed.

Lemma extracted_volume project cfg compose visit v :
  v ∈ extractVolumes project cfg compose visit ↔
  ∃ entry mount, entry ∈ visit ∧ mount ∈ SvcVolumes (snd entry) ∧
                 mountVolume project cfg compose (snd entry) mount = Some v.
Proof.
  rewrite extractVolumes_blocks, list_elem_of_In, in_flat_map.
  unfold stated.service_block. split.
  - intros (entry & Hin & Hv). apply list_elem_of_In in Hin, Hv.
    apply list_elem_of_omap in Hv as (mount & Hm & Hv). eauto.
  - intros (entry & mount & Hin & Hm & Hv). exists entry.
    rewrite <- !list_elem_of_In. split; [done |].
    apply list_elem_of_omap. eauto.
Qed.

(** C4, as stated, fails for a volumes section that is present and empty:
    the decoded map is then not nil, no reference is found in it, and
    every named mount is skipped. *)
Lemma C4_empty_section_counterexample :
  ¬ (∀ h cfg compose visit vols,
       loadCompose h cfg = inr compose →
       range_order (Services compose) visit →
       DetectComposeVolumesIn h cfg visit = inr vols →
       stated.absent_or_empty compose →
       stated.accepts_all_named (getProjectName (cwd h)) cfg compose vols).
Proof.
  intros Hclaim.
  destruct (Hclaim sample.shop_host DefaultConfig sample.empty_section [("db", sample.db)] [])
    with (name := "db") (service := sample.db)
         (mount := "pgdata:/var/lib/postgresql/data")
    as (v & Hv & _); try reflexivity.
  - unfold range_order. by vm_compute.
  - by left.
  - by apply elem_of_nil in Hv.
Qed.

(** C4, amended: when the top-level volumes section is absent (the decoded
    map is nil), every named (non-bind) reference of a service mount that
    passes the include/exclude filters is accepted; when the section is
    present, with or without entries, a mount whose reference is not
    declared there is skipped, and every volume returned carries a
    declared reference. *)
Theorem C4_declared_volumes_check
    (h : Host) (cfg : Config) (compose : ComposeConfig)
    (visit : list (string * ComposeService)) (vols : list Volume) :
  loadCompose h cfg = inr compose →
  range_order (Services compose) visit →
  DetectComposeVolumesIn h cfg visit = inr vols →
  (CVolumes compose = None →
     stated.accepts_all_named (getProjectName (cwd h)) cfg compose vols) ∧
  (∀ names, CVolumes compose = Some names →
     (∀ service mount, stated.reference mount ∉ names →
        mountVolume (getProjectName (cwd h)) cfg compose service mount
        = None) ∧
     (∀ v, v ∈ vols →
        ∃ ref, ref ∈ names ∧
               Name v = getProjectName (cwd h) +:+ "_" +:+ ref)).
Proof.
  intros Hload Hvisit Hrun. unfold DetectComposeVolumesIn in Hrun.
  rewrite Hload in Hrun. injection Hrun as <-.
  set (project := getProjectName (cwd h)). split.
  - intros Hnil name service mount Hsvc Hmount Hparts Hbind Hinc Hexc.
    pose proof (mountVolume_survives project cfg compose service mount) as Hm.
    assert (stated.survives cfg compose mount = true) as Hs.
    { unfold stated.survives, stated.declared.
      by rewrite Hparts, Hbind, Hnil, Hinc, Hexc. }
    destruct (mountVolume project cfg compose service mount) as [v |] eqn:Hv;
      [| congruence].
    exists v. split; [| by destruct Hm as (_ & ? & _)].
    apply extracted_volume. exists (name, service), mount.
    split; [by apply (visited_services (Services compose)) |]. done.
  - intros names Hsome. split.
    + intros service mount Hnot.
      pose proof (mountVolume_survives project cfg compose service mount)
        as Hm.
      destruct (mountVolume project cfg compose service mount); [| done].
      destruct Hm as (Hs & _). unfold stated.survives, stated.declared in Hs.
      rewrite Hsome, bool_decide_eq_false_2 in Hs by done.
      by rewrite !andb_false_r in Hs.
    + intros v (entry & mount & _ & _ & Hv)%extracted_volume.
      pose proof (mountVolume_survives project cfg compose (snd entry) mount)
        as Hm.
      rewrite Hv in Hm. destruct Hm as (Hs & Hn & _).
      exists (stated.reference mount). split; [| done].
      unfold stated.survives, stated.declared in Hs. rewrite Hsome in Hs.
      repeat (apply andb_prop in Hs as [Hs ?]).
      by eapply bool_decide_eq_true_1.
Qed.

(** A run of the detection in the working directory [/home/dev/shop]:
    the project is [shop], its volume [shop_pgdata]. *)
Lemma C3_witness :
  DetectComposeVolumesIn (sample.host_of sample.declared_section)
    DefaultConfig [("db", sample.db)]
  = inr [sample.pgdata_volume] ∧
  Name sample.pgdata_volume = "shop_pgdata" ∧
  getProjectName (cwd (sample.host_of sample.declared_section)) = "shop" ∧
  Forall2 (stated.emitted_for "shop") [sample.pgdata_volume]
    (filter
       (fun sm => stated.survives DefaultConfig sample.declared_section
                    (snd sm) = true)
       (stated.service_mounts [("db", sample.db)])).
Proof.
  split; [reflexivity |]. split; [reflexivity |].
  destruct (C3_one_volume_per_surviving_mount
              (sample.host_of sample.declared_section) DefaultConfig
              sample.declared_section [("db", sample.db)]
              [sample.pgdata_volume]) as [Hemitted Hbase].
  - reflexivity.
  - unfold range_order. vm_compute. reflexivity.
  - reflexivity.
  - destruct (Hbase "/home/dev" "shop" eq_refl) as [Hproject _];
      [discriminate | reflexivity |].
    split; [exact Hproject |]. exact Hemitted.
Defined.

Lemma C4_witness :
  stated.accepts_all_named "shop" DefaultConfig sample.two_services
    [sample.cachedata_volume; sample.pgdata_volume].
Proof.
  apply (C4_declared_volumes_check
           (sample.host_of sample.two_services) DefaultConfig
           sample.two_services [("cache", sample.cache); ("db", sample.db)]
           [sample.cachedata_volume; sample.pgdata_volume]).
  - reflexivity.
  - unfold range_order. vm_compute. reflexivity.
  - reflexivity.
  - reflexivity.
Defined.

(** A reference mounted by two services gives two volumes of the same
    name, one for each mount; the bind mount of the second service gives
    none. *)
Lemma shared_reference_twice :
  map Name
    (extractVolumes "shop" DefaultConfig sample.shared_volume
       [("db", sample.db); ("worker", sample.worker)])
  = ["shop_pgdata"; "shop_pgdata"].
Proof. reflexivity. Qed.

Lemma detect_outcome h cfg compose visit :
  loadCompose h cfg = inr compose →
  range_order (Services compose) visit →
  DetectComposeVolumes h cfg (DetectComposeVolumesIn h cfg visit).
Proof.
  intros Hload Hvisit. unfold DetectComposeVolumes. rewrite Hload. eauto.
Qed.

(** C9, as stated, fails: the services are the entries of a map, a range
    over a map has no fixed order, and two detections over the same
    manifest, config and working directory can return the volumes of two
    services in either order. *)
Lemma C9_two_orders_counterexample :
  ¬ (∀ h cfg r1 r2,
       DetectComposeVolumes h cfg r1 → DetectComposeVolumes h cfg r2 →
       r1 = r2).
Proof.
  intros Hclaim.
  pose (h := sample.host_of sample.two_services).
  assert (loadCompose h DefaultConfig = inr sample.two_services) as Hload
    by reflexivity.
  assert (range_order (Services sample.two_services)
            [("cache", sample.cache); ("db", sample.db)]) as H1.
  { unfold range_order. vm_compute. reflexivity. }
  assert (range_order (Services sample.two_services)
            [("db", sample.db); ("cache", sample.cache)]) as H2.
  { unfold range_order. vm_compute. apply perm_swap. }
  pose proof (Hclaim h DefaultConfig _ _
                (detect_outcome h DefaultConfig _ _ Hload H1)
                (detect_outcome h DefaultConfig _ _ Hload H2)) as Heq.
  vm_compute in Heq. discriminate Heq.
Qed.

(** C9, amended: a detection returns, for each service in turn, the
    volumes of that service in the order of its mount entries; the order
    of the services is the order in which the range over the service map
    yields them, which is not fixed, so two detections over the same
    manifest, config and working directory fail alike or return lists
    that are rearrangements of each other. *)
Theorem C9_order_within_services (h : Host) (cfg : Config)
    (r1 r2 : DetectError + list Volume) :
  DetectComposeVolumes h cfg r1 →
  DetectComposeVolumes h cfg r2 →
  (∀ vols, r1 = inr vols →
     ∃ compose visit,
       loadCompose h cfg = inr compose ∧
       range_order (Services compose) visit ∧
       vols = flat_map
                (fun entry : string * ComposeService =>
                   stated.service_block (getProjectName (cwd h)) cfg compose
                     (snd entry))
                visit) ∧
  match r1, r2 with
  | inl e1, inl e2 => e1 = e2
  | inr vols1, inr vols2 => vols1 ≡ₚ vols2
  | _, _ => False
  end.
Proof.
  unfold DetectComposeVolumes, DetectComposeVolumesIn.
  destruct (loadCompose h cfg) as [e | compose].
  - intros -> ->. split; [intros vols [=] | done].
  - intros (visit1 & Hv1 & ->) (visit2 & Hv2 & ->). split.
    + intros vols [= <-]. exists compose, visit1.
      by rewrite extractVolumes_blocks.
    + rewrite !extractVolumes_blocks. apply Permutation_flat_map.
      unfold range_order in *. by rewrite Hv1, Hv2.
Qed.

Lemma C9_witness :
  [sample.cachedata_volume; sample.pgdata_volume]
  ≡ₚ [sample.pgdata_volume; sample.cachedata_volume].
Proof.
  assert (loadCompose (sample.host_of sample.two_services) DefaultConfig
          = inr sample.two_services) as Hload by reflexivity.
  assert (range_order (Services sample.two_services)
            [("cache", sample.cache); ("db", sample.db)]) as H1.
  { unfold range_order. vm_compute. reflexivity. }
  assert (range_order (Services sample.two_services)
            [("db", sample.db); ("cache", sample.cache)]) as H2.
  { unfold range_order. vm_compute. apply perm_swap. }
  exact (proj2 (C9_order_within_services
                  (sample.host_of sample.two_services) DefaultConfig _ _
                  (detect_outcome _ DefaultConfig _ _ Hload H1)
                  (detect_outcome _ DefaultConfig _ _ Hload H2))).
Defined.

(** ** The snapshot manager *)

Import snapshot.

(** *** Paths *)

Lemma append_cons (a : ascii) (s t : string) :
  String a s +:+ t = String a (s +:+ t).
Proof. reflexivity. Qed.

Lemma strip_prefix_append (pre s : string) :
  strip_prefix pre (pre +:+ s) = Some s.
Proof.
  induction pre as [| a pre IH]; [done |].
  rewrite append_cons. simpl. by rewrite Ascii.eqb_refl.
Qed.

Lemma append_assoc (a b c : string) : (a +:+ b) +:+ c = a +:+ (b +:+ c).
Proof.
  induction a as [| x a IH]; [done |].
  rewrite !append_cons. by f_equal.
Qed.

(** A directory of the snapshot root is found again under its name. *)
Lemma element_under_Join (dir name : string) :
  element_under dir (Join dir name) = Some name.
Proof.
  unfold element_under, Join. apply strip_prefix_append.
Qed.

Lemma ReadMetadataFile_record (cfg : Config) (name : string) (w : World) :
  ReadMetadataFile cfg (Join (SnapshotDir cfg) name) w
  = match stated.record_file w name with
    | Holds d => Some d
    | _ => None
    end.
Proof.
  unfold ReadMetadataFile, stated.record_file. rewrite element_under_Join.
  destruct (root w) as [es |]; [| done].
  destruct (es !! name) as [[| [| | d]] |]; done.
Qed.

(** *** Docker commands *)

Lemma extended_nil (w : World) : stated.extended w [] = w.
Proof. destruct w. unfold stated.extended. simpl. by rewrite app_nil_r. Qed.

Lemma extended_app (w : World) (a b : list Event) :
  stated.extended (stated.extended w a) b = stated.extended w (a ++ b).
Proof. unfold stated.extended. simpl. by rewrite app_assoc. Qed.

Lemma emit_extended (e : Event) (w : World) :
  emit e w = stated.extended w [e].
Proof. reflexivity. Qed.

Lemma StopContainers_events (volumes : list Volume) (w : World) :
  StopContainers volumes w = stated.extended w (stated.docker_stops volumes).
Proof.
  revert w. induction volumes as [| v rest IH]; intros w.
  - by rewrite extended_nil.
  - cbn [StopContainers]. rewrite IH. unfold stated.docker_stops.
    cbn [map]. rewrite filter_cons.
    destruct (String.eqb_spec (ContainerName v) "") as [Heq | Hne].
    + by rewrite decide_False by (by intros []).
    + rewrite decide_True by done.
      by rewrite emit_extended, extended_app.
Qed.

Lemma StartContainers_events (volumes : list Volume) (w : World) :
  StartContainers volumes w
  = stated.extended w (stated.docker_starts volumes).
Proof.
  revert w. induction volumes as [| v rest IH]; intros w.
  - by rewrite extended_nil.
  - cbn [StartContainers]. rewrite IH. unfold stated.docker_starts.
    cbn [map]. rewrite filter_cons.
    destruct (String.eqb_spec (ContainerName v) "") as [Heq | Hne].
    + by rewrite decide_False by (by intros []).
    + rewrite decide_True by done.
      by rewrite emit_extended, extended_app.
Qed.

(** The export loop runs the exports up to and including the first that
    fails, touches no file, and returns that failure. *)
Lemma exportLoop_run rt dir volumes total acc w :
  ∃ r,
    exportLoop rt dir volumes total acc w
    = (r, stated.extended w
            (stated.exports dir
               (stated.through_first (stated.export_failing rt dir) volumes)))
    ∧ match stated.first_failing (stated.export_failing rt dir) volumes with
      | Some v => r = inl (ErrExport (Name v))
      | None => ∃ result, r = inr result
      end.
Proof.
  revert total acc w. induction volumes as [| v rest IH]; intros total acc w.
  - exists (inr (total, acc)). cbn. rewrite extended_nil. eauto.
  - cbn [exportLoop stated.through_first stated.first_failing].
    unfold bind, call, ExportVolume.
    unfold stated.export_failing at 1 3.
    destruct (export_fails rt v (archivePath dir v)); cbn [negb].
    + exists (inl (ErrExport (Name v))). by rewrite emit_extended.
    + destruct (stat_size rt (archivePath dir v)) as [size |].
      * destruct (IH (wrap64 (total + size))
                    (acc ++ [with_size v size (FormatSize rt size)])
                    (emit (ExportTar v (archivePath dir v)) w))
          as (r & Hrun & Hr).
        exists r. rewrite Hrun, emit_extended, extended_app. done.
      * destruct (IH total (acc ++ [v])
                    (emit (ExportTar v (archivePath dir v)) w))
          as (r & Hrun & Hr).
        exists r. rewrite Hrun, emit_extended, extended_app. done.
Qed.

(** The import loop clears and imports up to and including the first
    import that fails, and returns that failure. *)
Lemma importLoop_run rt dir volumes w :
  importLoop rt dir volumes w
  = (match stated.first_failing (stated.import_failing rt dir) volumes with
     | Some v => inl (ErrImport (Name v))
     | None => inr tt
     end,
     stated.extended w
       (stated.imports dir
          (stated.through_first (stated.import_failing rt dir) volumes))).
Proof.
  revert w. induction volumes as [| v rest IH]; intros w.
  - cbn. by rewrite extended_nil.
  - cbn [importLoop stated.through_first stated.first_failing].
    unfold bind, call, ImportVolume.
    unfold stated.import_failing at 1 3.
    destruct (import_fails rt (archivePath dir v) v); cbn [negb].
    + by rewrite !emit_extended, extended_app.
    + rewrite IH, !emit_extended, !extended_app. done.
Qed.

(** *** Files *)

Lemma MkdirAll_frame rt cfg dir w w1 :
  MkdirAll rt cfg dir w = Some w1 →
  trace w1 = trace w ∧ now w1 = now w ∧
  ∀ name, stated.record_file w1 name = stated.record_file w name.
Proof.
  unfold MkdirAll. destruct (mkdir_fails rt dir); [done |].
  destruct (element_under (SnapshotDir cfg) dir) as [e |]; [| done].
  unfold stated.record_file.
  destruct (root w) as [es |] eqn:Hroot.
  - destruct (es !! e) as [[| meta] |] eqn:He; intros [= <-];
      rewrite ?Hroot; try done.
    repeat split. intros name. cbn.
    destruct (decide (e = name)) as [<- | Hne].
    + by rewrite lookup_insert_eq, He.
    + by rewrite lookup_insert_ne.
  - intros [= <-]. repeat split. intros name. cbn.
    destruct (decide (e = name)) as [<- | Hne].
    + by rewrite lookup_singleton_eq.
    + by rewrite lookup_singleton_ne.
Qed.

Lemma record_file_extended w events name :
  stated.record_file (stated.extended w events) name
  = stated.record_file w name.
Proof. reflexivity. Qed.

Lemma MkdirAll_directory rt cfg name w w1 :
  MkdirAll rt cfg (Join (SnapshotDir cfg) name) w = Some w1 →
  ∃ es meta, root w1 = Some es ∧ es !! name = Some (Directory meta).
Proof.
  unfold MkdirAll. destruct (mkdir_fails rt _); [done |].
  rewrite element_under_Join.
  destruct (root w) as [es |] eqn:Hroot.
  - destruct (es !! name) as [[| meta] |] eqn:He; intros [= <-].
    + eauto.
    + eexists _, _. split; [done |]. apply lookup_insert_eq.
  - intros [= <-]. eexists _, _. split; [done |].
    apply lookup_singleton_eq.
Qed.

(** What a failed write leaves, in terms of the record files: the record
    file written to holds what the call left of it, every other one is
    as it was; no docker command is run. *)
Lemma WriteMetadataFile_left_run rt cfg name w es meta :
  root w = Some es → es !! name = Some (Directory meta) →
  trace (WriteMetadataFile_left rt cfg (Join (SnapshotDir cfg) name) w)
  = trace w ∧
  now (WriteMetadataFile_left rt cfg (Join (SnapshotDir cfg) name) w)
  = now w ∧
  stated.record_file
    (WriteMetadataFile_left rt cfg (Join (SnapshotDir cfg) name) w) name
  = match write_leaves rt (Join (SnapshotDir cfg) name) with
    | Some remains => Holds remains
    | None => meta
    end ∧
  ∀ other, other ≠ name →
    stated.record_file
      (WriteMetadataFile_left rt cfg (Join (SnapshotDir cfg) name) w) other
    = stated.record_file w other.
Proof.
  intros Hroot He. unfold WriteMetadataFile_left, stated.record_file.
  rewrite element_under_Join, Hroot, He.
  destruct (write_leaves rt _) as [remains |]; cbn.
  - rewrite lookup_insert_eq. repeat split.
    intros other Hne. by rewrite lookup_insert_ne.
  - by rewrite Hroot, He.
Qed.

Lemma WriteMetadataFile_left_extended rt cfg dir w events :
  WriteMetadataFile_left rt cfg dir (stated.extended w events)
  = stated.extended (WriteMetadataFile_left rt cfg dir w) events.
Proof.
  unfold WriteMetadataFile_left. cbn [root stated.extended].
  destruct (element_under _ _) as [e |]; [| done].
  destruct (root w) as [es |]; [| done].
  destruct (es !! e) as [[| meta] |]; try done.
  by destruct (write_leaves rt dir).
Qed.

Lemma WriteMetadataFile_run rt cfg name d w es meta :
  root w = Some es → es !! name = Some (Directory meta) →
  WriteMetadataFile rt cfg (Join (SnapshotDir cfg) name) d w
  = if write_fails rt (Join (SnapshotDir cfg) name) then None
    else Some (set_root (Some (<[ name := Directory (Holds d) ]> es)) w).
Proof.
  intros Hroot He. unfold WriteMetadataFile.
  by rewrite element_under_Join, Hroot, He.
Qed.

(** A run of [CreateWithOptions], exit by exit. *)
Lemma CreateWithOptions_run rt cfg name volumes opts w :
  match MkdirAll rt cfg (Join (SnapshotDir cfg) name) w with
  | None =>
      CreateWithOptions rt cfg name volumes opts w
      = (inl ErrCreateDir,
         MkdirAll_left rt (Join (SnapshotDir cfg) name) w)
  | Some w1 =>
      ∃ r w',
        CreateWithOptions rt cfg name volumes opts w = (r, w') ∧
        trace w' =
          trace w ++ stated.docker_stops volumes
          ++ stated.exports (Join (SnapshotDir cfg) name)
               (stated.through_first
                  (stated.export_failing rt (Join (SnapshotDir cfg) name))
                  volumes)
          ++ stated.docker_starts volumes ∧
        now w' = now w ∧
        match stated.first_failing
                (stated.export_failing rt (Join (SnapshotDir cfg) name))
                volumes with
        | Some v => r = inl (ErrExport (Name v)) ∧ root w' = root w1
        | None =>
            (r = inl ErrWriteMetadata ∧
             write_fails rt (Join (SnapshotDir cfg) name) = true ∧
             root w'
             = root (WriteMetadataFile_left rt cfg
                       (Join (SnapshotDir cfg) name) w1)) ∨
            (∃ s, r = inr s ∧ SName s = name ∧ Timestamp s = now w ∧
                  Tags s = DefaultTags cfg ++ OptTags opts ∧
                  Path s = Join (SnapshotDir cfg) name ∧
                  stated.record_file w' name = Holds (Yaml s) ∧
                  ∀ other, other ≠ name →
                    stated.record_file w' other = stated.record_file w other)
        end
  end.
Proof.
  destruct (MkdirAll rt cfg (Join (SnapshotDir cfg) name) w) as [w1 |] eqn:Hmk.
  - destruct (MkdirAll_frame _ _ _ _ _ Hmk) as (Htr & Hnow & Hrec).
    destruct (MkdirAll_directory _ _ _ _ _ Hmk) as (es & meta & Hroot & He).
    unfold CreateWithOptions, bind, try_os, run, defer.
    rewrite Hmk, StopContainers_events.
    destruct (exportLoop_run rt (Join (SnapshotDir cfg) name) volumes 0 []
                (stated.extended w1 (stated.docker_stops volumes)))
      as (r & Hrun & Hr).
    rewrite Hrun, extended_app.
    destruct (stated.first_failing (stated.export_failing rt (Join (SnapshotDir cfg) name)) volumes)
      as [v |].
    + subst r. rewrite StartContainers_events, extended_app.
      eexists _, _. split; [done |]. cbn. rewrite Htr, <- !app_assoc.
      done.
    + destruct Hr as (result & ->). unfold time_Now. cbn [fst snd].
      erewrite WriteMetadataFile_run by (cbn; done).
      destruct (write_fails rt (Join (SnapshotDir cfg) name)).
      * rewrite StartContainers_events, WriteMetadataFile_left_extended.
        rewrite extended_app.
        destruct (WriteMetadataFile_left_run rt cfg name w1 es meta Hroot He)
          as (Htr' & Hnow' & _).
        eexists _, _. split; [done |]. cbn [trace now stated.extended].
        rewrite Htr', Hnow', Htr, <- !app_assoc.
        split; [done |]. split; [done |]. by left.
      * unfold ret. rewrite StartContainers_events.
        eexists _, _. split; [done |]. cbn. rewrite Htr, <- !app_assoc.
        split; [done |]. split; [done |]. right.
        eexists. split; [done |]. cbn. rewrite Hnow.
        repeat split; try done.
        -- unfold stated.record_file. cbn. by rewrite lookup_insert_eq.
        -- intros other Hne. rewrite <- Hrec.
           unfold stated.record_file. cbn.
           by rewrite Hroot, lookup_insert_ne.
  - unfold CreateWithOptions, bind, try_os. by rewrite Hmk.
Qed.

(** *** Create *)


Lemma Get_record cfg name w :
  Get cfg name w
  = (match stated.record_file w name with
     | Holds (Yaml s) => inr (with_Path s (Join (SnapshotDir cfg) name))
     | Holds Garbled => inl ErrInvalidMetadata
     | _ => inl ErrMetadataNotFound
     end, w).
Proof.
  unfold Get, loadMetadata. rewrite ReadMetadataFile_record.
  destruct (stated.record_file w name) as [| | [s |]]; done.
Qed.

Lemma MkdirAll_left_frame rt dir w :
  trace (MkdirAll_left rt dir w) = trace w ∧
  now (MkdirAll_left rt dir w) = now w ∧
  ∀ name, stated.record_file (MkdirAll_left rt dir w) name
          = stated.record_file w name.
Proof.
  unfold MkdirAll_left, stated.record_file.
  destruct (root w) eqn:Hroot; [by rewrite Hroot |].
  destruct (mkdir_leaves rt dir); [| by rewrite Hroot].
  repeat split.
Qed.

(** The pause and the resume are paired on every exit of
    [CreateWithOptions]. When the snapshot directory cannot be made, it
    returns that error and no docker command is run. Otherwise, whatever
    it returns, the commands it runs are the stop requests for the
    containers of the volumes, then exports only (those up to and
    including the first that fails), then the start requests for the same
    containers. *)
Lemma CreateWithOptions_paired rt cfg name volumes opts w :
  match MkdirAll rt cfg (Join (SnapshotDir cfg) name) w with
  | None =>
      fst (CreateWithOptions rt cfg name volumes opts w) = inl ErrCreateDir ∧
      trace (snd (CreateWithOptions rt cfg name volumes opts w)) = trace w
  | Some _ =>
      trace (snd (CreateWithOptions rt cfg name volumes opts w))
      = trace w ++ stated.docker_stops volumes
        ++ stated.exports (Join (SnapshotDir cfg) name)
             (stated.through_first
                (stated.export_failing rt (Join (SnapshotDir cfg) name))
                volumes)
        ++ stated.docker_starts volumes
  end.
Proof.
  pose proof (CreateWithOptions_run rt cfg name volumes opts w) as Hrun.
  destruct (MkdirAll rt cfg (Join (SnapshotDir cfg) name) w).
  - by destruct Hrun as (r & w' & -> & Htr & _).
  - rewrite Hrun. split; [done |]. apply MkdirAll_left_frame.
Qed.



(** *** Restore *)

(** A run of [Restore], exit by exit. The world in which the imports
    start is the one the auto-backup leaves, whatever [Create] returned. *)
Lemma Restore_run rt cfg name w :
  Restore rt cfg name w
  = match stated.record_file w name with
    | Holds (Yaml s) =>
        (match stated.first_failing
                 (stated.import_failing rt (Join (SnapshotDir cfg) name))
                 (Volumes s) with
         | Some v => inl (ErrImport (Name v))
         | None => inr tt
         end,
         stated.extended
           (if BackupBeforeRestore cfg
            then snd (Create rt cfg (stated.pre_restore_name rt w)
                        (Volumes s) w)
            else w)
           (stated.docker_stops (Volumes s)
            ++ stated.imports (Join (SnapshotDir cfg) name)
                 (stated.through_first
                    (stated.import_failing rt (Join (SnapshotDir cfg) name))
                    (Volumes s))
            ++ stated.docker_starts (Volumes s)))
    | Holds Garbled => (inl ErrInvalidMetadata, w)
    | _ => (inl ErrMetadataNotFound, w)
    end.
Proof.
  unfold Restore, bind at 1. fold (Get cfg name). rewrite Get_record.
  destruct (stated.record_file w name) as [| | [s |]]; try done.
  cbn [Volumes with_Path].
  unfold bind at 1.
  assert ((if BackupBeforeRestore cfg
           then timestamp <- time_Now;;
                ignore (Create rt cfg
                          ("_pre-restore-" +:+ format_stamp rt timestamp)
                          (Volumes s))
           else ret tt) w
          = (inr tt,
             if BackupBeforeRestore cfg
             then snd (Create rt cfg (stated.pre_restore_name rt w)
                         (Volumes s) w)
             else w)) as ->.
  { destruct (BackupBeforeRestore cfg); reflexivity. }
  unfold bind, run, defer.
  rewrite StopContainers_events, importLoop_run, StartContainers_events.
  by rewrite !extended_app.
Qed.


(** A restore whose auto-backup fails (its directory cannot be made)
    still imports every volume and succeeds. *)
Lemma Restore_after_failed_backup :
  fst (Create sample.stormy DefaultConfig
         (stated.pre_restore_name sample.stormy sample.one_snapshot)
         [sample.pgdata_volume] sample.one_snapshot)
  = inl ErrCreateDir ∧
  fst (Restore sample.stormy DefaultConfig "good" sample.one_snapshot)
  = inr tt ∧
  trace (snd (Restore sample.stormy DefaultConfig "good"
                sample.one_snapshot))
  = [Stop "db"; ClearData sample.pgdata_volume;
     ImportTar ".dataclean/good/shop_pgdata.tar.gz" sample.pgdata_volume;
     Start "db"].
Proof. vm_compute. done. Qed.

(** *** List and Get *)

Lemma loadMetadata_entry cfg w es entry meta :
  root w = Some es → es !! entry = Some (Directory meta) →
  fst (loadMetadata cfg (Join (SnapshotDir cfg) entry) w)
  = match stated.record_of cfg (entry, Directory meta) with
    | Some s => inr s
    | None => inl (match meta with
                   | Holds Garbled => ErrInvalidMetadata
                   | _ => ErrMetadataNotFound
                   end)
    end.
Proof.
  intros Hroot He. fold (Get cfg entry). rewrite Get_record.
  unfold stated.record_file, stated.record_of. rewrite Hroot, He. cbn.
  destruct meta as [| | [s |]]; done.
Qed.

(** The loop of [List] collects the records of the entries, in their
    order, and passes over every entry that does not stand for one. *)
Lemma listLoop_records cfg w es entries snapshots :
  root w = Some es →
  (∀ e, e ∈ entries → es !! fst e = Some (snd e)) →
  listLoop cfg entries snapshots w
  = snapshots ++ omap (stated.record_of cfg) entries.
Proof.
  intros Hroot. revert snapshots.
  induction entries as [| [entry node] rest IH]; intros snapshots Hes.
  - cbn. by rewrite app_nil_r.
  - assert (∀ e, e ∈ rest → es !! fst e = Some (snd e)) as Hrest.
    { intros e He. apply Hes. by right. }
    assert (es !! entry = Some node) as Hentry.
    { apply (Hes (entry, node)). by left. }
    destruct node as [| meta].
    + cbn [listLoop]. rewrite IH by done. done.
    + cbn [listLoop]. rewrite (loadMetadata_entry cfg w es entry meta) by done.
      cbn [omap list_omap].
      destruct (stated.record_of cfg (entry, Directory meta)) as [s |].
      * rewrite IH by done. by rewrite <- app_assoc.
      * by rewrite IH.
Qed.

(** [newer] is an ordering, so the contract of [sort.Slice] applies: the
    slice [List] sorts comes back newest first. *)
Lemma newer_ordering : ordering newer.
Proof.
  unfold ordering, newer, After. repeat split.
  - intros a. apply Z.ltb_irrefl.
  - intros a b c Hab%Z.ltb_lt Hbc%Z.ltb_lt. apply Z.ltb_lt. lia.
  - intros a b c Hab%Z.ltb_ge Hbc%Z.ltb_ge. apply Z.ltb_ge. lia.
Qed.

Lemma sorted_newest_first (srt : Sorter) (l : list Snapshot) :
  StronglySorted not_older (sort_slice srt newer l).
Proof.
  pose proof (sort_slice_sorted srt newer l newer_ordering) as Hsorted.
  induction Hsorted as [| a rest _ IH Hall]; constructor; [done |].
  eapply Forall_impl; [exact Hall |].
  intros b Hb. unfold newer, After in Hb. unfold not_older.
  by apply Z.ltb_ge in Hb.
Qed.

Lemma List_run rt cfg w es :
  root w = Some es → readdir_fails rt = false →
  List rt cfg w
  = (inr (sort_slice (sorter rt) newer
            (omap (stated.record_of cfg) (map_to_list es))), w).
Proof.
  intros Hroot Hread. unfold List, ReadDir. rewrite Hroot, Hread.
  rewrite (listLoop_records cfg w es) by
    (try done; intros [entry node] He; by apply elem_of_map_to_list).
  done.
Qed.

(** The records of the catalog: those of the directories whose record
    file is readable and well-formed, each reported at its directory. *)
Lemma catalog_record cfg (es : gmap string Node) r :
  r ∈ omap (stated.record_of cfg) (map_to_list es) ↔
  ∃ entry s, es !! entry = Some (Directory (Holds (Yaml s))) ∧
             r = with_Path s (Join (SnapshotDir cfg) entry).
Proof.
  rewrite list_elem_of_omap. split.
  - intros ([entry node] & He%elem_of_map_to_list & Hr).
    unfold stated.record_of in Hr. cbn in Hr.
    destruct node as [| [| | [s |]]]; try done.
    injection Hr as <-. eauto.
  - intros (entry & s & He & ->).
    exists (entry, Directory (Holds (Yaml s))).
    split; [by apply elem_of_map_to_list | done].
Qed.

Lemma List_catalog rt cfg w es :
  root w = Some es → readdir_fails rt = false →
  ∃ l, List rt cfg w = (inr l, w) ∧
       ∀ r, r ∈ l ↔
         ∃ entry s, es !! entry = Some (Directory (Holds (Yaml s))) ∧
                    r = with_Path s (Join (SnapshotDir cfg) entry).
Proof.
  intros Hroot Hread. eexists. split; [by apply List_run |].
  intros r. rewrite sort_slice_perm. apply catalog_record.
Qed.









(** *** Retention *)

Lemma Delete_run rt cfg name w es :
  root w = Some es →
  Delete rt cfg name w
  = if remove_fails rt (Join (SnapshotDir cfg) name)
    then (inl ErrRemove,
          RemoveAll_left rt cfg (Join (SnapshotDir cfg) name) w)
    else (inr tt, set_root (Some (delete name es)) w).
Proof.
  intros Hroot. unfold Delete, try_os, RemoveAll.
  rewrite element_under_Join, Hroot.
  by destruct (remove_fails rt _).
Qed.

Lemma RemoveAll_left_whole rt cfg dir w :
  remove_takes_record rt dir = false → RemoveAll_left rt cfg dir w = w.
Proof.
  intros Hkeeps. unfold RemoveAll_left. rewrite Hkeeps.
  destruct (element_under _ _) as [e |]; [| done].
  destruct (root w) as [es |]; [| done].
  by destruct (es !! e) as [[| meta] |].
Qed.

Lemma set_root_same w es : root w = Some es → set_root (Some es) w = w.
Proof. destruct w. cbn. by intros ->. Qed.

(** The loop of the sweep removes the directories named by the removable
    records, passes over the others (also after a removal that failed),
    and returns the names it removed, in the order of the list. *)
Lemma cleanupLoop_run rt cfg cutoff snapshots deleted w es :
  (∀ dir, remove_fails rt dir = true → remove_takes_record rt dir = false) →
  root w = Some es →
  ∃ es',
    cleanupLoop rt cfg cutoff snapshots deleted w
    = (deleted
       ++ map SName
            (filter (fun s => stated.removable rt cfg cutoff s = true)
               snapshots),
       set_root (Some es') w) ∧
    ∀ name,
      es' !! name
      = if bool_decide
             (name ∈ map SName
                (filter (fun s => stated.removable rt cfg cutoff s = true)
                   snapshots))
        then None else es !! name.
Proof.
  intros Hwhole. revert deleted w es.
  induction snapshots as [| s rest IH]; intros deleted w es Hroot.
  - exists es. cbn. by rewrite app_nil_r, set_root_same.
  - cbn [cleanupLoop]. rewrite filter_cons.
    destruct (stated.removable rt cfg cutoff s) eqn:Hrem.
    + rewrite decide_True by done. unfold stated.removable in Hrem.
      apply andb_prop in Hrem as [[Hp Ht]%andb_prop Hf].
      apply negb_true_iff in Hp, Hf. unfold Before.
      rewrite Hp, Ht, (Delete_run rt cfg (SName s) w es Hroot), Hf.
      destruct (IH (deleted ++ [SName s])
                  (set_root (Some (delete (SName s) es)) w)
                  (delete (SName s) es) eq_refl) as (es' & Hrun & Hes').
      exists es'. rewrite Hrun. split.
      * cbn [map]. by rewrite <- app_assoc.
      * intros name. rewrite Hes'. cbn [map].
        destruct (decide (name = SName s)) as [-> | Hne].
        -- rewrite (bool_decide_eq_true_2 (SName s ∈ SName s :: _))
             by (by left).
           rewrite lookup_delete_eq. by case_bool_decide.
        -- rewrite lookup_delete_ne by done.
           apply (f_equal (fun b : bool => if b then None else es !! name)).
           apply bool_decide_ext. rewrite elem_of_cons.
           split; [by right | by intros [? | ?]].
    + rewrite decide_False by done. unfold stated.removable in Hrem.
      unfold Before.
      destruct (HasPrefix (SName s) "_"); [by apply IH |].
      destruct (Timestamp s <? cutoff); [| by apply IH].
      rewrite (Delete_run rt cfg (SName s) w es Hroot).
      destruct (remove_fails rt (Join (SnapshotDir cfg) (SName s))) eqn:Hf;
        [| done].
      rewrite RemoveAll_left_whole by auto. by apply IH.
Qed.

Lemma removable_expired rt cfg w s dir :
  stated.removable rt cfg (now w - 86400 * RetentionDays cfg)
    (with_Path s dir)
  = stated.expired cfg w s
    && negb (remove_fails rt (Join (SnapshotDir cfg) (SName s))).
Proof. reflexivity. Qed.

(** Where the sweep does what is stated of it. With a retention of at
    most 0 days it changes nothing and returns the empty list. With a
    positive retention, where the cutoff [AddDate] gives is now minus the
    retention in days of 86400 seconds and a removal that fails has
    removed nothing, over a readable catalog whose
    records carry the names of their directories, it returns the names of
    exactly the snapshots that are not auto-backups, are older than the
    cutoff, and whose removal succeeded, and afterwards exactly these
    directories are gone: a removal that fails does not stop the sweep,
    and every other entry, the auto-backups of any age among them, is as
    it was. *)
Lemma sweep_of_named_catalog (rt : Runtime) (cfg : Config) (w : World) :
  (RetentionDays cfg ≤ 0 → CleanupOldSnapshots rt cfg w = (inr [], w)) ∧
  (0 < RetentionDays cfg →
   AddDate rt (now w) (wrap64 (- RetentionDays cfg))
   = now w - 86400 * RetentionDays cfg →
   (∀ dir, remove_fails rt dir = true → remove_takes_record rt dir = false) →
   ∀ es, root w = Some es → readdir_fails rt = false →
         stated.named_after_directory es →
     ∃ deleted es',
       CleanupOldSnapshots rt cfg w = (inr deleted, set_root (Some es') w) ∧
       (∀ name,
          name ∈ deleted ↔
          ∃ s, es !! name = Some (Directory (Holds (Yaml s))) ∧
               stated.expired cfg w s = true ∧
               remove_fails rt (Join (SnapshotDir cfg) name) = false) ∧
       (∀ name,
          es' !! name
          = if bool_decide (name ∈ deleted) then None else es !! name)).
Proof.
  unfold CleanupOldSnapshots. split.
  - intros Hoff. by rewrite (proj2 (Z.leb_le _ _) Hoff).
  - intros Hon Hcutoff Hwhole es Hroot Hread Hnamed.
    rewrite (proj2 (Z.leb_gt _ _) Hon).
    unfold bind, time_Now. rewrite (List_run rt cfg w es Hroot Hread).
    rewrite Hcutoff.
    destruct (cleanupLoop_run rt cfg (now w - 86400 * RetentionDays cfg)
                (sort_slice (sorter rt) newer
                   (omap (stated.record_of cfg) (map_to_list es)))
                [] w es Hwhole Hroot) as (es' & Hrun & Hes').
    rewrite Hrun. cbn [app]. eexists _, es'. split; [done |].
    split; [| done].
    intros name. rewrite list_elem_of_fmap. split.
    + intros (r & -> & [Hrem Hr]%list_elem_of_filter).
      rewrite sort_slice_perm in Hr.
      apply catalog_record in Hr as (entry & s & He & ->).
      rewrite removable_expired in Hrem.
      apply andb_prop in Hrem as [Hexp Hok%negb_true_iff].
      cbn [SName with_Path] in *.
      rewrite (Hnamed entry s He) in *. eauto.
    + intros (s & He & Hexp & Hok).
      exists (with_Path s (Join (SnapshotDir cfg) name)).
      split; [by rewrite <- (Hnamed name s He) |].
      apply list_elem_of_filter. split.
      * rewrite removable_expired, Hexp, (Hnamed name s He), Hok. done.
      * rewrite sort_slice_perm. apply catalog_record. eauto.
Qed.

Lemma aged_named_after_directory :
  stated.named_after_directory sample.aged_entries.
Proof.
  intros name s He. apply elem_of_map_to_list in He.
  vm_compute in He.
  repeat (inversion He as [| ? ? ? He']; subst; [reflexivity |];
          clear He; rename He' into He).
  inversion He.
Defined.

Lemma sweep_of_named_catalog_witness :
  ∃ deleted es',
    CleanupOldSnapshots sample.calm sample.week sample.aged
    = (inr deleted, set_root (Some es') sample.aged) ∧
    (∀ name,
       name ∈ deleted ↔
       ∃ s, sample.aged_entries !! name = Some (Directory (Holds (Yaml s))) ∧
            stated.expired sample.week sample.aged s = true ∧
            remove_fails sample.calm (Join ".dataclean" name) = false) ∧
    (∀ name,
       es' !! name
       = if bool_decide (name ∈ deleted) then None
         else sample.aged_entries !! name).
Proof.
  apply (proj2 (sweep_of_named_catalog sample.calm sample.week sample.aged)).
  - reflexivity.
  - reflexivity.
  - done.
  - reflexivity.
  - reflexivity.
  - exact aged_named_after_directory.
Defined.

(** The retention scenario of the specification, run: the snapshot of ten
    days ago is removed and reported; the snapshot of three days ago and
    the auto-backup of thirty days ago stay. *)
Lemma retention_scenario :
  fst (CleanupOldSnapshots sample.calm sample.week sample.aged)
  = inr ["old"] ∧
  stated.record_file
    (snd (CleanupOldSnapshots sample.calm sample.week sample.aged)) "old"
  = Missing ∧
  stated.record_file
    (snd (CleanupOldSnapshots sample.calm sample.week sample.aged)) "recent"
  = stated.record_file sample.aged "recent" ∧
  stated.record_file
    (snd (CleanupOldSnapshots sample.calm sample.week sample.aged))
    "_pre-reset-20231216-143052"
  = stated.record_file sample.aged "_pre-reset-20231216-143052".
Proof. vm_compute. done. Qed.

(** The catalogs the manager builds satisfy the assumption of the sweep:
    [CreateWithOptions] writes a record under the name of the directory it
    made, and writes no other. *)
Lemma catalog_named_entries w es :
  root w = Some es →
  stated.catalog_named w ↔ stated.named_after_directory es.
Proof.
  intros Hroot. unfold stated.catalog_named, stated.named_after_directory,
    stated.record_file. rewrite Hroot. split.
  - intros Hw name s He. apply Hw. by rewrite He.
  - intros Hes name s Hrec. apply Hes.
    destruct (es !! name) as [[| meta] |]; try done. by subst.
Qed.

(** [CreateWithOptions] under a name that is a single path element keeps
    the catalog named: when every readable record carries the name of its
    directory, so it is after the call, whether it succeeds, cannot make
    the directory or fails at an export; the record it writes carries the
    name it was given. A write of the record that fails is another
    matter: what it leaves of the file need not be a record of that
    name. *)
Lemma CreateWithOptions_catalog_named rt cfg name volumes opts w :
  element name = true →
  stated.catalog_named w →
  fst (CreateWithOptions rt cfg name volumes opts w) ≠ inl ErrWriteMetadata →
  stated.catalog_named (snd (CreateWithOptions rt cfg name volumes opts w)).
Proof.
  intros _ Hw Hwritten.
  pose proof (CreateWithOptions_run rt cfg name volumes opts w) as Hrun.
  destruct (MkdirAll rt cfg (Join (SnapshotDir cfg) name) w) as [w1 |] eqn:Hmk.
  2: { rewrite Hrun. cbn [snd]. intros other s.
       rewrite (proj2 (proj2 (MkdirAll_left_frame rt _ w))). apply Hw. }
  destruct (MkdirAll_frame _ _ _ _ _ Hmk) as (_ & _ & Hrec).
  destruct Hrun as (r & w' & Hrun & _ & _ & Hr).
  rewrite Hrun in *. cbn [fst snd] in *.
  assert (root w' = root w1 → stated.catalog_named w') as Hsame.
  { intros Hroot other s. unfold stated.record_file. rewrite Hroot.
    fold (stated.record_file w1 other). rewrite Hrec. apply Hw. }
  destruct (stated.first_failing _ volumes); [by destruct Hr as [_ ?]; auto |].
  destruct Hr as [[-> _] | (s & _ & Hname & _ & _ & _ & Hnew & Hothers)];
    [done |].
  intros other s'. destruct (decide (other = name)) as [-> | Hne].
  - rewrite Hnew. by intros [= <-].
  - rewrite Hothers by done. apply Hw.
Qed.

(** Outside that assumption the sweep goes by the name a record persists:
    for a directory renamed by hand it removes the directory of the
    persisted name (here none) and reports that name, and the renamed
    directory stays. *)
Lemma sweep_of_renamed_directory :
  CleanupOldSnapshots sample.calm sample.week sample.renamed
  = (inr ["old"], sample.renamed).
Proof. vm_compute. reflexivity. Qed.

(** C6 fails in the code where a record does not carry the name of its
    directory: the sweep finds the expired records by reading the
    directories, but removes [filepath.Join(root, s.Name)], the directory
    of the persisted name. With a retention of seven days, the directory
    [archive] holding the record of the snapshot [old] of ten days ago (it
    was renamed by hand) and a directory [old] with a snapshot of one day
    ago: the sweep removes the snapshot of one day ago, reports [old] as
    deleted, and leaves the expired snapshot where it is. *)
Theorem C6_sweep_goes_by_persisted_name :
  let expired :=
    sample.record "old" (1705329052 - 10 * 86400) ".dataclean/old" [] in
  let fresh :=
    sample.record "old" (1705329052 - 1 * 86400) ".dataclean/old" [] in
  now sample.reused = 1705329052 ∧
  RetentionDays sample.week = 7 ∧
  stated.record_file sample.reused "archive" = Holds (Yaml expired) ∧
  stated.record_file sample.reused "old" = Holds (Yaml fresh) ∧
  Before (Timestamp expired) (1705329052 - 7 * 86400) = true ∧
  Before (Timestamp fresh) (1705329052 - 7 * 86400) = false ∧
  CleanupOldSnapshots sample.calm sample.week sample.reused
  = (inr ["old"], sample.renamed) ∧
  stated.record_file sample.renamed "archive" = Holds (Yaml expired) ∧
  stated.record_file sample.renamed "old" = Missing ∧
  fst (Get sample.week "old" sample.renamed) = inl ErrMetadataNotFound.
Proof.
  cbv zeta. repeat (split; [vm_compute; reflexivity |]). vm_compute.
  reflexivity.
Qed.

(** *** Tags *)

Lemma hasTag_decide (tags : list string) (tag : string) :
  hasTag tags tag = bool_decide (tag ∈ tags).
Proof.
  induction tags as [| t rest IH]; [done |].
  cbn [hasTag]. destruct (String.eqb_spec t tag) as [-> | Hne].
  - rewrite bool_decide_eq_true_2; [done | by left].
  - rewrite IH. apply bool_decide_ext. rewrite elem_of_cons.
    split; [by right | by intros [-> | ?]].
Qed.

(** The tags of a created record are the default tags followed by the
    tags of the options, as they come. *)
Lemma CreateWithOptions_tags rt cfg name volumes opts w s w' :
  CreateWithOptions rt cfg name volumes opts w = (inr s, w') →
  Tags s = DefaultTags cfg ++ OptTags opts.
Proof.
  intros Hcreate.
  pose proof (CreateWithOptions_run rt cfg name volumes opts w) as Hrun.
  rewrite Hcreate in Hrun.
  destruct (MkdirAll rt cfg (Join (SnapshotDir cfg) name) w); [| done].
  destruct Hrun as (r & w'' & [= <- <-] & _ & _ & Hr).
  destruct (stated.first_failing _ volumes); [by destruct Hr |].
  destruct Hr as [[[=] _] | (s' & [= <-] & _ & _ & Htags & _)]. done.
Qed.

Lemma AddTag_run rt cfg name tag w es s :
  root w = Some es → es !! name = Some (Directory (Holds (Yaml s))) →
  AddTag rt cfg name tag w
  = if bool_decide (tag ∈ Tags s) then (inr tt, w)
    else if write_fails rt (Join (SnapshotDir cfg) name)
    then (inl ErrSave,
          WriteMetadataFile_left rt cfg (Join (SnapshotDir cfg) name) w)
    else (inr tt,
          set_root
            (Some (<[ name := Directory (Holds (Yaml
                      (with_Tags (with_Path s (Join (SnapshotDir cfg) name))
                         (Tags s ++ [tag])))) ]> es)) w).
Proof.
  intros Hroot He. unfold AddTag, bind. rewrite Get_record.
  unfold stated.record_file. rewrite Hroot, He.
  cbn [Tags with_Path]. rewrite hasTag_decide.
  case_bool_decide; [done |].
  unfold saveMetadata, try_os. cbn [Path with_Tags with_Path].
  erewrite WriteMetadataFile_run by done.
  by destruct (write_fails rt _).
Qed.

(** On a record without repeated tags, [AddTag] keeps the tags free of
    repetitions, and calling it a second time with the same tag changes
    nothing: the tag occurs once. *)
Lemma AddTag_twice rt cfg name tag w es s :
  root w = Some es → es !! name = Some (Directory (Holds (Yaml s))) →
  write_fails rt (Join (SnapshotDir cfg) name) = false →
  NoDup (Tags s) →
  ∃ w1 s1,
    AddTag rt cfg name tag w = (inr tt, w1) ∧
    AddTag rt cfg name tag w1 = (inr tt, w1) ∧
    stated.record_file w1 name = Holds (Yaml s1) ∧
    NoDup (Tags s1) ∧ tag ∈ Tags s1.
Proof.
  intros Hroot He Hwrite Hnodup.
  rewrite (AddTag_run rt cfg name tag w es s Hroot He), Hwrite.
  case_bool_decide as Hin.
  - exists w, s. split; [done |].
    rewrite (AddTag_run rt cfg name tag w es s Hroot He).
    rewrite bool_decide_eq_true_2 by done.
    unfold stated.record_file. by rewrite Hroot, He.
  - eexists _, _. split; [done |]. split.
    + erewrite AddTag_run; [| done | apply lookup_insert_eq].
      cbn [Tags with_Tags].
      rewrite bool_decide_eq_true_2;
        [done | apply elem_of_app; right; by left].
    + unfold stated.record_file. cbn [root set_root].
      rewrite lookup_insert_eq. split; [done |]. cbn [Tags with_Tags].
      split; [| apply elem_of_app; right; by left].
      apply NoDup_app. split; [done |]. split; [| apply NoDup_singleton].
      intros t Ht ->%list_elem_of_singleton. done.
Qed.

(** C8 fails in the code: [CreateWithOptions] appends the tags of the
    options to the default tags of the config without looking for
    repetitions, so a tag that is both a default tag and an option tag is
    recorded twice; [AddTag] with that tag then finds it and leaves both
    occurrences. *)
Theorem C8_create_repeats_tag :
  ∃ s w',
    CreateWithOptions sample.calm sample.tagged "release"
      [sample.pgdata_volume] sample.dev_options sample.blank = (inr s, w') ∧
    Tags s = ["dev"; "dev"] ∧
    ¬ NoDup (Tags s) ∧
    ∃ s2,
      fst (Get sample.tagged "release"
             (snd (AddTag sample.calm sample.tagged "release" "dev"
                (snd (AddTag sample.calm sample.tagged "release" "dev" w')))))
      = inr s2 ∧
      Tags s2 = ["dev"; "dev"].
Proof.
  eexists _, _. split; [vm_compute; reflexivity |].
  split; [reflexivity |]. split.
  - cbn [Tags]. intros Hnodup. apply NoDup_cons in Hnodup as [Hnot _].
    apply Hnot. by left.
  - eexists. split; [vm_compute; reflexivity | reflexivity].
Qed.

(** *** Further checks of the specification's scenarios *)

Lemma sanitizeName_examples :
  sanitizeName "with/slash" = "with_slash" ∧
  sanitizeName "with:colon*star" = "with_colon_star" ∧
  sanitizeName "shop_pg-data.v1" = "shop_pg-data.v1".
Proof. repeat split; reflexivity. Qed.

(** [Delete] of a name that is not there succeeds and changes nothing;
    so does a second [Delete] of the same name. *)
Lemma Delete_idempotent rt cfg name w es :
  root w = Some es →
  remove_fails rt (Join (SnapshotDir cfg) name) = false →
  ∃ w1, Delete rt cfg name w = (inr tt, w1) ∧
        Delete rt cfg name w1 = (inr tt, w1).
Proof.
  intros Hroot Hok. eexists. split.
  - by rewrite (Delete_run rt cfg name w es Hroot), Hok.
  - erewrite Delete_run by (cbn; done). rewrite Hok. cbn.
    by rewrite delete_delete_eq.
Qed.

(** Without a snapshot root there is nothing to list and nothing to
    sweep. *)
Lemma List_without_root rt cfg w :
  root w = None → List rt cfg w = (inr [], w).
Proof. intros Hroot. unfold List. by rewrite Hroot. Qed.

Lemma CleanupOldSnapshots_without_root rt cfg w :
  root w = None → CleanupOldSnapshots rt cfg w = (inr [], w).
Proof.
  intros Hroot. unfold CleanupOldSnapshots.
  destruct (RetentionDays cfg <=? 0); [done |].
  unfold bind, time_Now. by rewrite List_without_root.
Qed.

(** * Further properties of the code *)

(** ** Creating a snapshot *)

Lemma exportLoop_result rt dir volumes total acc w :
  exportLoop rt dir volumes total acc w
  = (match stated.first_failing (stated.export_failing rt dir) volumes with
     | Some v => inl (ErrExport (Name v))
     | None =>
         inr (runs.running_total rt dir volumes total,
              acc ++ map (runs.sized rt dir) volumes)
     end,
     stated.extended w
       (stated.exports dir
          (stated.through_first (stated.export_failing rt dir) volumes))).
Proof.
  revert total acc w. induction volumes as [| v rest IH]; intros total acc w.
  - cbn. by rewrite extended_nil, app_nil_r.
  - cbn [exportLoop stated.through_first stated.first_failing].
    unfold bind, call, ExportVolume.
    unfold stated.export_failing at 1 3.
    destruct (export_fails rt v (archivePath dir v)); cbn [negb].
    + by rewrite emit_extended.
    + unfold runs.running_total, runs.sized. cbn [fold_left map].
      destruct (stat_size rt (archivePath dir v)) as [size |];
        rewrite IH, emit_extended, extended_app, <- app_assoc; done.
Qed.

(** The record a successful [CreateWithOptions] returns, field by field. *)
Lemma CreateWithOptions_record rt cfg name volumes opts w s w' :
  CreateWithOptions rt cfg name volumes opts w = (inr s, w') →
  s = {| SName := name;
         Timestamp := now w;
         Volumes := map (runs.sized rt (Join (SnapshotDir cfg) name)) volumes;
         SSizeBytes :=
           runs.running_total rt (Join (SnapshotDir cfg) name) volumes 0;
         SSizeHuman :=
           FormatSize rt
             (runs.running_total rt (Join (SnapshotDir cfg) name) volumes 0);
         Path := Join (SnapshotDir cfg) name;
         Checksum := "";
         Tags := DefaultTags cfg ++ OptTags opts;
         Description := OptDescription opts;
         Metadata := OptMetadata opts;
         ParentName := OptParentName opts;
         Incremental := OptIncremental opts |}.
Proof.
  unfold CreateWithOptions, bind, try_os, run, defer.
  destruct (MkdirAll rt cfg (Join (SnapshotDir cfg) name) w) as [w1 |] eqn:Hmk;
    [| done].
  destruct (MkdirAll_frame _ _ _ _ _ Hmk) as (_ & Hnow & _).
  rewrite StopContainers_events, exportLoop_result.
  destruct (stated.first_failing _ volumes); [done |].
  unfold time_Now. cbn [fst snd app].
  destruct (WriteMetadataFile rt cfg _ _ _); [| done].
  unfold ret. intros [= <- _]. cbn [now stated.extended]. by rewrite Hnow.
Qed.

Lemma with_Path_same (s : Snapshot) : with_Path s (Path s) = s.
Proof. by destruct s. Qed.

(** Round trip: the record a successful [CreateWithOptions] returns is the
    record [Get] returns for that name afterwards. *)
Theorem Create_then_Get rt cfg name volumes opts w s w' :
  CreateWithOptions rt cfg name volumes opts w = (inr s, w') →
  Get cfg name w' = (inr s, w').
Proof.
  intros Hcreate.
  pose proof (CreateWithOptions_run rt cfg name volumes opts w) as Hrun.
  rewrite Hcreate in Hrun.
  destruct (MkdirAll rt cfg (Join (SnapshotDir cfg) name) w); [| done].
  destruct Hrun as (r & w'' & [= <- <-] & _ & _ & Hr).
  destruct (stated.first_failing _ volumes); [by destruct Hr |].
  destruct Hr as [[[=] _] | (s' & [= <-] & _ & _ & _ & Hpath & Hrec & _)].
  by rewrite Get_record, Hrec, <- Hpath, with_Path_same.
Qed.

Lemma Create_then_Get_witness :
  ∃ s w',
    CreateWithOptions sample.calm DefaultConfig "nightly"
      [sample.pgdata_volume; sample.logs_volume] noOptions sample.blank
    = (inr s, w') ∧
    Get DefaultConfig "nightly" w' = (inr s, w').
Proof.
  eexists _, _. split; [vm_compute; reflexivity |].
  apply (Create_then_Get sample.calm DefaultConfig "nightly"
           [sample.pgdata_volume; sample.logs_volume] noOptions sample.blank).
  vm_compute. reflexivity.
Defined.

(** A created record lists every volume it was given, in the same order
    and under the same name, container, mount path and image; the size
    of each is the size of its archive, and the size of the snapshot is
    their [int64] sum. *)
Theorem Create_records_every_volume rt cfg name volumes opts w s w' :
  CreateWithOptions rt cfg name volumes opts w = (inr s, w') →
  map Name (Volumes s) = map Name volumes ∧
  map ContainerName (Volumes s) = map ContainerName volumes ∧
  map MountPath (Volumes s) = map MountPath volumes ∧
  map ImageName (Volumes s) = map ImageName volumes ∧
  Forall2
    (fun recorded vol =>
       ∀ size, stat_size rt (archivePath (Join (SnapshotDir cfg) name) vol)
               = Some size → SizeBytes recorded = size)
    (Volumes s) volumes ∧
  SSizeBytes s
  = runs.running_total rt (Join (SnapshotDir cfg) name) volumes 0.
Proof.
  intros ->%CreateWithOptions_record. cbn [Volumes SSizeBytes].
  rewrite !map_map.
  repeat split;
    try (apply map_ext; intros v; unfold runs.sized;
         by destruct (stat_size rt _)).
  induction volumes as [| v rest IH]; cbn [map]; constructor; [| done].
  intros size Hsize. unfold runs.sized. by rewrite Hsize.
Qed.

Lemma Create_records_every_volume_witness :
  ∃ s w',
    CreateWithOptions sample.calm DefaultConfig "nightly"
      [sample.pgdata_volume; sample.logs_volume] noOptions sample.blank
    = (inr s, w') ∧
    map Name (Volumes s) = ["shop_pgdata"; "shop_logs"] ∧
    SSizeBytes s = 4096.
Proof.
  eexists _, _. split; [vm_compute; reflexivity |].
  pose proof (Create_records_every_volume sample.calm DefaultConfig "nightly"
                [sample.pgdata_volume; sample.logs_volume] noOptions
                sample.blank _ _ eq_refl) as (Hnames & _ & _ & _ & _ & Hsize).
  split; [exact Hnames | exact Hsize].
Defined.

Lemma record_file_root w w' name :
  root w' = root w → stated.record_file w' name = stated.record_file w name.
Proof. unfold stated.record_file. by intros ->. Qed.

(** What a run of [CreateWithOptions] does to the record files, for
    every exit: the records of the other names are as they were; the
    record of its own name is as it was when the directory cannot be made
    or an export fails, is the new record when the call succeeds, and is
    what the failed write left of the file when the write of the record
    fails. *)
Lemma CreateWithOptions_records rt cfg name volumes opts w :
  (∀ other, other ≠ name →
     stated.record_file (snd (CreateWithOptions rt cfg name volumes opts w))
       other
     = stated.record_file w other) ∧
  stated.record_file (snd (CreateWithOptions rt cfg name volumes opts w)) name
  = match fst (CreateWithOptions rt cfg name volumes opts w) with
    | inr s => Holds (Yaml s)
    | inl ErrWriteMetadata =>
        match write_leaves rt (Join (SnapshotDir cfg) name) with
        | Some remains => Holds remains
        | None => stated.record_file w name
        end
    | inl _ => stated.record_file w name
    end.
Proof.
  pose proof (CreateWithOptions_run rt cfg name volumes opts w) as Hrun.
  destruct (MkdirAll rt cfg (Join (SnapshotDir cfg) name) w) as [w1 |] eqn:Hmk.
  2: { rewrite Hrun. cbn [fst snd].
       destruct (MkdirAll_left_frame rt (Join (SnapshotDir cfg) name) w)
         as (_ & _ & Hrec). split; [intros; apply Hrec | apply Hrec]. }
  destruct (MkdirAll_frame _ _ _ _ _ Hmk) as (_ & _ & Hrec).
  destruct (MkdirAll_directory _ _ _ _ _ Hmk) as (es & meta & Hroot1 & Hes).
  destruct Hrun as (r & w' & Hcreate & _ & _ & Hr).
  rewrite Hcreate. cbn [fst snd].
  destruct (stated.first_failing _ volumes).
  { destruct Hr as [-> Hroot].
    split; intros; rewrite <- Hrec; by apply record_file_root. }
  destruct Hr as [(-> & _ & Hroot) | (s & -> & _ & _ & _ & _ & Hnew & Hothers)];
    [| done].
  destruct (WriteMetadataFile_left_run rt cfg name w1 es meta Hroot1 Hes)
    as (_ & _ & Hown & Hrest).
  split.
  - intros other Hne. rewrite (record_file_root _ _ _ Hroot), <- Hrec.
    by apply Hrest.
  - rewrite (record_file_root _ _ _ Hroot), Hown, <- Hrec.
    unfold stated.record_file. by rewrite Hroot1, Hes.
Qed.

(** [CreateWithOptions] under a name that is a single path element
    leaves the record of every other snapshot directory as it was, whatever
    it returns. The record under its own name is as it was when the
    directory cannot be made or an export fails; when the write of the
    record fails, it is what the failed write left of the file, which
    need not be what was there. *)
Theorem Create_touches_own_record_only rt cfg name volumes opts w other :
  element name = true → element other = true →
  (other ≠ name →
     stated.record_file (snd (CreateWithOptions rt cfg name volumes opts w))
       other
     = stated.record_file w other) ∧
  (fst (CreateWithOptions rt cfg name volumes opts w) = inl ErrCreateDir ∨
   (∃ v, fst (CreateWithOptions rt cfg name volumes opts w)
         = inl (ErrExport v)) →
     stated.record_file (snd (CreateWithOptions rt cfg name volumes opts w))
       name
     = stated.record_file w name) ∧
  (fst (CreateWithOptions rt cfg name volumes opts w) = inl ErrWriteMetadata →
     stated.record_file (snd (CreateWithOptions rt cfg name volumes opts w))
       name
     = match write_leaves rt (Join (SnapshotDir cfg) name) with
       | Some remains => Holds remains
       | None => stated.record_file w name
       end).
Proof.
  intros _ _.
  destruct (CreateWithOptions_records rt cfg name volumes opts w)
    as [Hothers Hown].
  split; [by apply Hothers |]. rewrite Hown. split.
  - by intros [-> | [v ->]].
  - by intros ->.
Qed.

Lemma Create_touches_own_record_only_witness :
  (("good" : string) ≠ "nightly" →
     stated.record_file
       (snd (CreateWithOptions sample4.full_disk DefaultConfig "nightly"
               [sample.pgdata_volume] noOptions sample.one_snapshot)) "good"
     = stated.record_file sample.one_snapshot "good") ∧
  stated.record_file
    (snd (CreateWithOptions sample4.full_disk DefaultConfig "nightly"
            [sample.pgdata_volume] noOptions sample.one_snapshot)) "nightly"
  = Holds (Yaml sample4.zero).
Proof.
  pose proof (Create_touches_own_record_only sample4.full_disk DefaultConfig
                "nightly" [sample.pgdata_volume] noOptions
                sample.one_snapshot "good" eq_refl eq_refl)
    as (Hother & _ & Hown).
  split; [exact Hother | exact (Hown eq_refl)].
Defined.

Lemma record_file_entry w es entry s :
  root w = Some es →
  stated.record_file w entry = Holds (Yaml s) ↔
  es !! entry = Some (Directory (Holds (Yaml s))).
Proof.
  intros Hroot. unfold stated.record_file. rewrite Hroot.
  destruct (es !! entry) as [[| meta] |]; split; try done.
  - by intros ->.
  - by intros [= ->].
Qed.

(** What [List] returns, read off the record files. *)
Lemma List_by_record_file rt cfg w :
  readdir_fails rt = false →
  ∃ l, List rt cfg w = (inr l, w) ∧
       ∀ r, r ∈ l ↔
         ∃ entry s, stated.record_file w entry = Holds (Yaml s) ∧
                    r = with_Path s (Join (SnapshotDir cfg) entry).
Proof.
  intros Hread. destruct (root w) as [es |] eqn:Hroot.
  - destruct (List_catalog rt cfg w es Hroot Hread) as (l & Hrun & Hmem).
    exists l. split; [done |]. intros r. rewrite Hmem.
    split; intros (entry & s & He & ->); exists entry, s;
      (split; [by apply (record_file_entry w es) | done]).
  - exists []. split; [by apply List_without_root |].
    intros r. split; [by intros ?%elem_of_nil |].
    intros (entry & s & He & _). unfold stated.record_file in He.
    by rewrite Hroot in He.
Qed.



(** ** Reset *)

Lemma clearLoop_run rt volumes w :
  clearLoop rt volumes w
  = (match stated.first_failing (clear_fails rt) volumes with
     | Some v => inl (ErrClear (Name v))
     | None => inr tt
     end,
     stated.extended w
       (runs.clears (stated.through_first (clear_fails rt) volumes))).
Proof.
  revert w. induction volumes as [| v rest IH]; intros w.
  - cbn. by rewrite extended_nil.
  - cbn [clearLoop stated.through_first stated.first_failing].
    unfold bind, call, ClearVolume.
    destruct (clear_fails rt v); cbn [negb].
    + by rewrite emit_extended.
    + by rewrite IH, emit_extended, extended_app.
Qed.

(** A run of [Reset]: after the auto-backup (when configured, and whatever
    it returned) the containers of the volumes are stopped, the volumes
    are cleared in order up to and including the first whose clear fails,
    and the containers are started again; the result is that first
    failure, or success. Apart from the auto-backup no file changes. *)
Theorem Reset_run rt cfg volumes w :
  Reset rt cfg volumes w
  = (match stated.first_failing (clear_fails rt) volumes with
     | Some v => inl (ErrClear (Name v))
     | None => inr tt
     end,
     stated.extended
       (if BackupBeforeRestore cfg
        then snd (Create rt cfg (runs.pre_reset_name rt w) volumes w)
        else w)
       (stated.docker_stops volumes
        ++ runs.clears (stated.through_first (clear_fails rt) volumes)
        ++ stated.docker_starts volumes)).
Proof.
  unfold Reset. unfold bind at 1.
  assert ((if BackupBeforeRestore cfg
           then timestamp <- time_Now;;
                ignore (Create rt cfg
                          ("_pre-reset-" +:+ format_stamp rt timestamp)
                          volumes)
           else ret tt) w
          = (inr tt,
             if BackupBeforeRestore cfg
             then snd (Create rt cfg (runs.pre_reset_name rt w) volumes w)
             else w)) as ->.
  { destruct (BackupBeforeRestore cfg); reflexivity. }
  unfold bind, run, defer.
  rewrite StopContainers_events, clearLoop_run, StartContainers_events.
  by rewrite !extended_app.
Qed.

(** ** Delete *)

(** A [Delete] of a name that is a single path element, whose removal
    succeeds, leaves no record under the name, so that [Get] no longer
    finds it; it leaves the record of every other directory as it was and
    runs no docker command. It succeeds just as well when there was
    nothing to delete, so a second [Delete] changes nothing. (A name that
    is no single path element is joined to another path: the empty name
    to the snapshot root itself.) *)
Theorem Delete_removes_one rt cfg name w :
  element name = true →
  remove_fails rt (Join (SnapshotDir cfg) name) = false →
  ∃ w1,
    Delete rt cfg name w = (inr tt, w1) ∧
    stated.record_file w1 name = Missing ∧
    fst (Get cfg name w1) = inl ErrMetadataNotFound ∧
    (∀ other, element other = true → other ≠ name →
       stated.record_file w1 other = stated.record_file w other) ∧
    trace w1 = trace w ∧
    Delete rt cfg name w1 = (inr tt, w1).
Proof.
  intros _ Hok. destruct (root w) as [es |] eqn:Hroot.
  - exists (set_root (Some (delete name es)) w).
    rewrite (Delete_run rt cfg name w es Hroot), Hok.
    assert (stated.record_file (set_root (Some (delete name es)) w) name
            = Missing) as Hgone.
    { unfold stated.record_file. cbn. by rewrite lookup_delete_eq. }
    split; [done |]. split; [done |].
    split; [by rewrite Get_record, Hgone |]. split.
    + intros other _ Hne. unfold stated.record_file. cbn.
      by rewrite Hroot, lookup_delete_ne.
    + split; [done |].
      erewrite Delete_run by (cbn; done). rewrite Hok. cbn.
      by rewrite delete_delete_eq.
  - assert (Delete rt cfg name w = (inr tt, w)) as Hrun.
    { unfold Delete, try_os, RemoveAll.
      by rewrite Hok, element_under_Join, Hroot. }
    assert (stated.record_file w name = Missing) as Hgone.
    { unfold stated.record_file. by rewrite Hroot. }
    exists w. rewrite Get_record, Hgone. done.
Qed.

Lemma Delete_removes_one_witness :
  ∃ w1,
    Delete sample.calm DefaultConfig "good" sample.one_snapshot
    = (inr tt, w1) ∧
    stated.record_file w1 "good" = Missing ∧
    fst (Get DefaultConfig "good" w1) = inl ErrMetadataNotFound ∧
    (∀ other, element other = true → other ≠ "good" →
       stated.record_file w1 other
       = stated.record_file sample.one_snapshot other) ∧
    trace w1 = trace sample.one_snapshot ∧
    Delete sample.calm DefaultConfig "good" w1 = (inr tt, w1).
Proof.
  apply (Delete_removes_one sample.calm DefaultConfig "good"
           sample.one_snapshot).
  - reflexivity.
  - reflexivity.
Defined.

(** ** Editing a record *)

Lemma saveMetadata_run rt cfg name s w :
  Path s = Join (SnapshotDir cfg) name →
  (∃ s0, stated.record_file w name = Holds (Yaml s0)) →
  saveMetadata rt cfg s w
  = if write_fails rt (Join (SnapshotDir cfg) name)
    then (inl ErrSave,
          WriteMetadataFile_left rt cfg (Join (SnapshotDir cfg) name) w)
    else (inr tt, edits.with_record w name s).
Proof.
  intros Hpath (s0 & Hrec). unfold saveMetadata, try_os. rewrite Hpath.
  unfold stated.record_file in Hrec.
  destruct (root w) as [es |] eqn:Hroot; [| done].
  destruct (es !! name) as [[| meta] |] eqn:He; try done.
  erewrite WriteMetadataFile_run by done.
  destruct (write_fails rt _); [done |].
  unfold edits.with_record. by rewrite Hroot.
Qed.

(** A run of any of the four edits: the record is read, and when it is
    there and well-formed the edited record is written back with its path
    set to the directory it was read from. *)
Lemma edit_run rt cfg name e w :
  runs.edit rt cfg name e w
  = match stated.record_file w name with
    | Holds (Yaml s) =>
        match edits.edited e (with_Path s (Join (SnapshotDir cfg) name)) with
        | None => (inr tt, w)
        | Some s' =>
            if write_fails rt (Join (SnapshotDir cfg) name)
            then (inl ErrSave,
                  WriteMetadataFile_left rt cfg
                    (Join (SnapshotDir cfg) name) w)
            else (inr tt, edits.with_record w name s')
        end
    | Holds Garbled => (inl ErrInvalidMetadata, w)
    | _ => (inl ErrMetadataNotFound, w)
    end.
Proof.
  destruct e as [tag | tag | description | metadata]; cbn [runs.edit];
    [unfold AddTag | unfold RemoveTag | unfold UpdateDescription
     | unfold UpdateMetadata];
    unfold bind; rewrite Get_record;
    destruct (stated.record_file w name) as [| | [s |]] eqn:Hrec; try done;
    cbn [edits.edited].
  - rewrite hasTag_decide. cbn [Tags with_Path].
    case_bool_decide; [done |]. by apply saveMetadata_run; eauto.
  - by apply saveMetadata_run; eauto.
  - by apply saveMetadata_run; eauto.
  - by apply saveMetadata_run; eauto.
Qed.

(** An edit of the snapshot of a name that is a single path element,
    that returns an error. When the error is not that of the write, the
    record could not be read as a snapshot and nothing has changed. When
    the write of the edited record fails, no docker command has run and
    the record of every other directory is as it was, but the record
    itself is what the failed write left of the file: the record as it
    was when the file could not be opened, and otherwise what the
    truncated file holds, so the snapshot can be lost to a failed edit. *)
Theorem failed_edit_leaves rt cfg name e w err :
  element name = true →
  fst (runs.edit rt cfg name e w) = inl err →
  (err ≠ ErrSave →
     snd (runs.edit rt cfg name e w) = w ∧
     ∀ s, stated.record_file w name ≠ Holds (Yaml s)) ∧
  (err = ErrSave →
     trace (snd (runs.edit rt cfg name e w)) = trace w ∧
     (∀ other, element other = true → other ≠ name →
        stated.record_file (snd (runs.edit rt cfg name e w)) other
        = stated.record_file w other) ∧
     stated.record_file (snd (runs.edit rt cfg name e w)) name
     = match write_leaves rt (Join (SnapshotDir cfg) name) with
       | Some remains => Holds remains
       | None => stated.record_file w name
       end).
Proof.
  intros _. rewrite edit_run.
  destruct (stated.record_file w name) as [| | [s |]] eqn:Hrec; cbn [fst snd];
    try (intros [= <-]; split; [by intros _; split | done]).
  destruct (edits.edited e _); [| done].
  destruct (write_fails rt _); [| done].
  cbn [fst snd]. intros [= <-]. split; [done |]. intros _.
  unfold stated.record_file in Hrec.
  destruct (root w) as [es |] eqn:Hroot; [| done].
  destruct (es !! name) as [[| meta] |] eqn:He; try done. subst meta.
  destruct (WriteMetadataFile_left_run rt cfg name w es _ Hroot He)
    as (Htr & _ & Hown & Hrest).
  split; [done |]. split; [by intros other _; apply Hrest |].
  by rewrite Hown.
Qed.

Lemma failed_edit_leaves_witness :
  fst (runs.edit sample4.full_disk DefaultConfig "good"
         (runs.EditDescription "before the migration") sample.one_snapshot)
  = inl ErrSave ∧
  stated.record_file
    (snd (runs.edit sample4.full_disk DefaultConfig "good"
            (runs.EditDescription "before the migration")
            sample.one_snapshot)) "good"
  = Holds (Yaml sample4.zero).
Proof.
  split; [reflexivity |].
  exact (proj2 (proj2 (proj2
           (failed_edit_leaves sample4.full_disk DefaultConfig "good"
              (runs.EditDescription "before the migration")
              sample.one_snapshot ErrSave eq_refl eq_refl) eq_refl))).
Defined.

Lemma with_record_file w name s other :
  (∃ s0, stated.record_file w name = Holds (Yaml s0)) →
  stated.record_file (edits.with_record w name s) other
  = if decide (other = name) then Holds (Yaml s)
    else stated.record_file w other.
Proof.
  intros (s0 & Hrec). unfold stated.record_file in *.
  unfold edits.with_record. cbn.
  destruct (root w) as [es |]; [| done]. cbn.
  destruct (decide (other = name)) as [-> | Hne].
  - by rewrite lookup_insert_eq.
  - by rewrite lookup_insert_ne.
Qed.

Lemma edit_reads_back rt cfg name e w w' s :
  stated.record_file w name = Holds (Yaml s) →
  runs.edit rt cfg name e w = (inr tt, w') →
  Get cfg name w'
  = (inr (default (with_Path s (Join (SnapshotDir cfg) name))
            (edits.edited e (with_Path s (Join (SnapshotDir cfg) name)))),
     w').
Proof.
  intros Hrec. rewrite edit_run, Hrec, Get_record.
  destruct (edits.edited e _) as [s' |] eqn:Hed.
  - destruct (write_fails rt _); [done |]. intros [= <-].
    rewrite with_record_file by eauto. rewrite decide_True by done. cbn.
    f_equal. f_equal.
    destruct e; cbn in Hed; try case_bool_decide; simplify_eq; done.
  - intros [= <-]. by rewrite Hrec.
Qed.

(** A successful edit, read back: [Get] returns the edited record, at the
    path of the directory (for [AddTag] of a tag that is already there,
    the record as it was). *)
Theorem edit_then_Get rt cfg name e w w' s :
  stated.record_file w name = Holds (Yaml s) →
  runs.edit rt cfg name e w = (inr tt, w') →
  Get cfg name w'
  = (inr (default (with_Path s (Join (SnapshotDir cfg) name))
            (edits.edited e (with_Path s (Join (SnapshotDir cfg) name)))),
     w').
Proof. apply edit_reads_back. Qed.

Lemma edit_then_Get_witness :
  ∃ w',
    runs.edit sample.calm DefaultConfig "good"
      (runs.EditDescription "before the migration") sample.one_snapshot
    = (inr tt, w') ∧
    Get DefaultConfig "good" w'
    = (inr (with_Description
              (sample.record "good" 1705000000 ".dataclean/good" [])
              "before the migration"), w').
Proof.
  eexists. split; [vm_compute; reflexivity |].
  apply (edit_then_Get sample.calm DefaultConfig "good"
           (runs.EditDescription "before the migration")
           sample.one_snapshot _
           (sample.record "good" 1705000000 "/old/place/good" [])).
  - reflexivity.
  - vm_compute. reflexivity.
Defined.

Lemma edited_keeps e s s' :
  edits.edited e s = Some s' →
  SName s' = SName s ∧ Timestamp s' = Timestamp s ∧
  Volumes s' = Volumes s ∧ SSizeBytes s' = SSizeBytes s ∧
  SSizeHuman s' = SSizeHuman s ∧ Path s' = Path s ∧
  ParentName s' = ParentName s ∧ Incremental s' = Incremental s.
Proof.
  destruct e; cbn; try case_bool_decide; intros [= <-]; done.
Qed.

(** What an edit never touches: after a successful edit the snapshot has
    the name, the timestamp, the volumes, the sizes and the parent it had;
    no docker command has run; and the record of every other snapshot is
    as it was. *)
Theorem edit_keeps_capture rt cfg name e w w' s :
  stated.record_file w name = Holds (Yaml s) →
  runs.edit rt cfg name e w = (inr tt, w') →
  (∃ s',
     stated.record_file w' name = Holds (Yaml s') ∧
     SName s' = SName s ∧ Timestamp s' = Timestamp s ∧
     Volumes s' = Volumes s ∧ SSizeBytes s' = SSizeBytes s ∧
     SSizeHuman s' = SSizeHuman s ∧
     ParentName s' = ParentName s ∧ Incremental s' = Incremental s) ∧
  trace w' = trace w ∧
  ∀ other, other ≠ name →
    stated.record_file w' other = stated.record_file w other.
Proof.
  intros Hrec. rewrite edit_run, Hrec.
  destruct (edits.edited e _) as [s' |] eqn:Hed.
  - destruct (write_fails rt _); [done |]. intros [= <-].
    apply edited_keeps in Hed as (? & ? & ? & ? & ? & _ & ? & ?).
    split; [| split; [done |]].
    + exists s'. rewrite with_record_file by eauto.
      rewrite decide_True by done. done.
    + intros other Hne. rewrite with_record_file by eauto.
      by rewrite decide_False.
  - intros [= <-]. split; [| done]. exists s. done.
Qed.

Lemma edit_keeps_capture_witness :
  ∃ w',
    runs.edit sample.calm DefaultConfig "good" (runs.EditAddTag "v1")
      sample.one_snapshot = (inr tt, w') ∧
    (∃ s',
       stated.record_file w' "good" = Holds (Yaml s') ∧
       SName s' = "good" ∧ Timestamp s' = 1705000000 ∧
       Volumes s' = [sample.pgdata_volume] ∧ SSizeBytes s' = 2048 ∧
       SSizeHuman s' = "2.0 KB" ∧ ParentName s' = "" ∧
       Incremental s' = false) ∧
    trace w' = [] ∧
    ∀ other, other ≠ "good" →
      stated.record_file w' other
      = stated.record_file sample.one_snapshot other.
Proof.
  eexists. split; [vm_compute; reflexivity |].
  apply (edit_keeps_capture sample.calm DefaultConfig "good"
           (runs.EditAddTag "v1") sample.one_snapshot _
           (sample.record "good" 1705000000 "/old/place/good" [])).
  - reflexivity.
  - vm_compute. reflexivity.
Defined.

(** ** Tags *)

(** [RemoveTag] removes every occurrence of the tag and keeps the other
    tags in their order. *)
Theorem RemoveTag_removes_every_occurrence rt cfg name tag w w' s :
  stated.record_file w name = Holds (Yaml s) →
  RemoveTag rt cfg name tag w = (inr tt, w') →
  ∃ s',
    stated.record_file w' name = Holds (Yaml s') ∧
    Tags s' = filter (fun t => t ≠ tag) (Tags s) ∧
    (tag ∉ Tags s') ∧
    ∀ t, t ≠ tag → (t ∈ Tags s' ↔ t ∈ Tags s).
Proof.
  intros Hrec Hrun.
  pose proof (edit_reads_back rt cfg name (runs.EditRemoveTag tag) w w' s
                Hrec Hrun) as Hget.
  rewrite Get_record in Hget. cbn in Hget.
  destruct (stated.record_file w' name) as [| | [s' |]]; try done.
  assert (Tags s' = filter (fun t => t ≠ tag) (Tags s)) as Hs'.
  { injection Hget. by intros. }
  exists s'. split; [done |].
  rewrite Hs'. split; [done |]. split.
  - by intros [? _]%list_elem_of_filter.
  - intros t Hne. rewrite list_elem_of_filter. tauto.
Qed.

Lemma RemoveTag_removes_every_occurrence_witness :
  ∃ w' s',
    RemoveTag sample.calm DefaultConfig "twice" "dev" sample2.tagged_twice
    = (inr tt, w') ∧
    stated.record_file w' "twice" = Holds (Yaml s') ∧
    Tags s' = ["qa"].
Proof.
  eexists.
  destruct (RemoveTag_removes_every_occurrence sample.calm DefaultConfig
              "twice" "dev" sample2.tagged_twice _
              (sample.record "twice" 1705000000 ".dataclean/twice"
                 ["dev"; "qa"; "dev"]) eq_refl eq_refl)
    as (s' & Hrec & Htags & _).
  exists s'. split; [vm_compute; reflexivity |]. split; [exact Hrec |].
  exact Htags.
Defined.

Lemma filter_other_tags (tags : list string) (tag : string) :
  tag ∉ tags → filter (fun t => t ≠ tag) tags = tags.
Proof.
  induction tags as [| t rest IH]; [done |].
  intros Hnot. apply not_elem_of_cons in Hnot as [Hne Hrest].
  rewrite filter_cons, decide_True by done. by rewrite IH.
Qed.

(** Round trip: adding a tag that the record does not have and removing
    it again gives back the tags the record had. *)
Theorem AddTag_then_RemoveTag rt cfg name tag w s :
  stated.record_file w name = Holds (Yaml s) →
  write_fails rt (Join (SnapshotDir cfg) name) = false →
  tag ∉ Tags s →
  ∃ w1 w2 s2,
    AddTag rt cfg name tag w = (inr tt, w1) ∧
    RemoveTag rt cfg name tag w1 = (inr tt, w2) ∧
    stated.record_file w2 name = Holds (Yaml s2) ∧
    Tags s2 = Tags s.
Proof.
  intros Hrec Hwrite Hnot.
  pose proof (edit_run rt cfg name (runs.EditAddTag tag) w) as Hadd.
  rewrite Hrec, Hwrite in Hadd. cbn in Hadd.
  rewrite bool_decide_eq_false_2 in Hadd by done.
  eexists. rewrite Hadd.
  pose proof (edit_run rt cfg name (runs.EditRemoveTag tag)
                (edits.with_record w name
                   (with_Tags (with_Path s (Join (SnapshotDir cfg) name))
                      (Tags s ++ [tag])))) as Hrem.
  rewrite with_record_file, decide_True, Hwrite in Hrem by eauto.
  cbn in Hrem. eexists _, _. rewrite Hrem. split; [done |].
  split; [done |]. split.
  - rewrite with_record_file; [by rewrite decide_True |].
    rewrite with_record_file by eauto. rewrite decide_True by done. eauto.
  - cbn. rewrite filter_app, filter_cons, filter_nil.
    rewrite decide_False by (by intros []). rewrite app_nil_r.
    by apply filter_other_tags.
Qed.

Lemma AddTag_then_RemoveTag_witness :
  ∃ w1 w2 s2,
    AddTag sample.calm DefaultConfig "good" "v1" sample.one_snapshot
    = (inr tt, w1) ∧
    RemoveTag sample.calm DefaultConfig "good" "v1" w1 = (inr tt, w2) ∧
    stated.record_file w2 "good" = Holds (Yaml s2) ∧
    Tags s2 = [].
Proof.
  apply (AddTag_then_RemoveTag sample.calm DefaultConfig "good" "v1"
           sample.one_snapshot
           (sample.record "good" 1705000000 "/old/place/good" [])).
  - reflexivity.
  - reflexivity.
  - apply not_elem_of_nil.
Defined.

Lemma StronglySorted_filter_keeps {A} (R : A → A → Prop) (P : A → Prop)
    `{∀ x, Decision (P x)} (l : list A) :
  StronglySorted R l → StronglySorted R (filter P l).
Proof.
  induction 1 as [| x l Hl IH Hx]; [constructor |].
  rewrite filter_cons. destruct (decide (P x)); [| done].
  constructor; [done |]. apply Forall_forall. intros y [_ Hy]%list_elem_of_filter.
  by eapply Forall_forall in Hx.
Qed.

Lemma ListByTag_filter rt cfg tag w all :
  List rt cfg w = (inr all, w) →
  ∃ l,
    ListByTag rt cfg tag w = (inr l, w) ∧
    l = filter (fun r => tag ∈ Tags r) all ∧
    (∀ r, r ∈ l ↔ r ∈ all ∧ tag ∈ Tags r) ∧
    StronglySorted not_older l.
Proof.
  intros Hlist. unfold ListByTag, bind, ret. rewrite Hlist.
  assert (filter (fun r => hasTag (Tags r) tag = true) all
          = filter (fun r => tag ∈ Tags r) all) as ->.
  { apply list_filter_iff. intros r. rewrite hasTag_decide.
    apply bool_decide_eq_true. }
  eexists. split; [done |]. split; [done |]. split.
  - intros r. rewrite list_elem_of_filter. tauto.
  - apply StronglySorted_filter_keeps.
    assert (all = sort_slice (sorter rt) newer (listLoop cfg
              (default [] (ReadDir rt w)) [] w) ∨ all = []) as [-> | ->].
    { unfold List in Hlist. destruct (root w); [| right; congruence].
      destruct (ReadDir rt w); [| done]. left. cbn. congruence. }
    + apply sorted_newest_first.
    + constructor.
Qed.

(** [ListByTag] returns the records of [List] that carry the tag: each of
    them once, however often its tag list repeats the tag, and still
    newest first. *)
Theorem ListByTag_selects rt cfg tag w all :
  List rt cfg w = (inr all, w) →
  ∃ l,
    ListByTag rt cfg tag w = (inr l, w) ∧
    l = filter (fun r => tag ∈ Tags r) all ∧
    (∀ r, r ∈ l ↔ r ∈ all ∧ tag ∈ Tags r) ∧
    StronglySorted not_older l.
Proof. apply ListByTag_filter. Qed.

Lemma ListByTag_selects_witness :
  ListByTag sample.calm DefaultConfig "dev" sample2.three_tagged
  = (inr [sample.record "march" 1709300000 ".dataclean/march" ["dev"];
          sample.record "january" 1704100000 ".dataclean/january"
            ["dev"; "qa"; "dev"]],
     sample2.three_tagged) ∧
  ∃ l,
    ListByTag sample.calm DefaultConfig "dev" sample2.three_tagged
    = (inr l, sample2.three_tagged) ∧
    l = filter (fun r => "dev" ∈ Tags r)
          [sample.record "march" 1709300000 ".dataclean/march" ["dev"];
           sample.record "february" 1706800000 ".dataclean/february" ["qa"];
           sample.record "january" 1704100000 ".dataclean/january"
             ["dev"; "qa"; "dev"]] ∧
    (∀ r, r ∈ l ↔
       r ∈ [sample.record "march" 1709300000 ".dataclean/march" ["dev"];
            sample.record "february" 1706800000 ".dataclean/february" ["qa"];
            sample.record "january" 1704100000 ".dataclean/january"
              ["dev"; "qa"; "dev"]] ∧ "dev" ∈ Tags r) ∧
    StronglySorted not_older l.
Proof.
  split; [vm_compute; reflexivity |].
  apply (ListByTag_selects sample.calm DefaultConfig "dev"
           sample2.three_tagged).
  vm_compute. reflexivity.
Defined.



Lemma AddTag_twice_witness :
  ∃ w1 s1,
    AddTag sample.calm DefaultConfig "good" "v1" sample.one_snapshot
    = (inr tt, w1) ∧
    AddTag sample.calm DefaultConfig "good" "v1" w1 = (inr tt, w1) ∧
    stated.record_file w1 "good" = Holds (Yaml s1) ∧
    NoDup (Tags s1) ∧ "v1" ∈ Tags s1.
Proof.
  apply (AddTag_twice sample.calm DefaultConfig "good" "v1"
           sample.one_snapshot sample.one_snapshot_entries
           (sample.record "good" 1705000000 "/old/place/good" [])).
  - reflexivity.
  - reflexivity.
  - reflexivity.
  - apply NoDup_nil_2.
Defined.

Lemma CreateWithOptions_catalog_named_witness :
  stated.catalog_named
    (snd (CreateWithOptions sample.calm DefaultConfig "nightly"
            [sample.pgdata_volume] noOptions sample.blank)).
Proof.
  apply (CreateWithOptions_catalog_named sample.calm DefaultConfig "nightly"
           [sample.pgdata_volume] noOptions sample.blank).
  - reflexivity.
  - intros name s Hrec. discriminate Hrec.
  - vm_compute. discriminate.
Defined.

(** ** Metadata *)

(** [UpdateMetadata] merges: afterwards a key of the update has the value
    the update gives it, and every other key has the value it had. *)
Theorem UpdateMetadata_merges rt cfg name metadata w w' s :
  stated.record_file w name = Holds (Yaml s) →
  UpdateMetadata rt cfg name metadata w = (inr tt, w') →
  ∃ s',
    stated.record_file w' name = Holds (Yaml s') ∧
    ∀ key,
      Metadata s' !! key
      = match metadata !! key with
        | Some value => Some value
        | None => Metadata s !! key
        end.
Proof.
  intros Hrec Hrun.
  pose proof (edit_reads_back rt cfg name (runs.EditMetadata metadata) w w' s
                Hrec Hrun) as Hget.
  rewrite Get_record in Hget. cbn in Hget.
  destruct (stated.record_file w' name) as [| | [s' |]]; try done.
  assert (Metadata s' = metadata ∪ Metadata s) as Hs'.
  { injection Hget. by intros. }
  exists s'. split; [done |]. intros key. rewrite Hs'.
  destruct (metadata !! key) as [value |] eqn:Hkey.
  - by apply lookup_union_Some_l.
  - by apply lookup_union_r.
Qed.

Lemma UpdateMetadata_merges_witness :
  ∃ w' s',
    UpdateMetadata sample.calm DefaultConfig "good"
      {[ "ticket" := "SHOP-12" ]} sample.one_snapshot = (inr tt, w') ∧
    stated.record_file w' "good" = Holds (Yaml s') ∧
    ∀ key,
      Metadata s' !! key
      = match ({[ "ticket" := "SHOP-12" ]} : gmap string string) !! key with
        | Some value => Some value
        | None => (∅ : gmap string string) !! key
        end.
Proof.
  eexists.
  destruct (UpdateMetadata_merges sample.calm DefaultConfig "good"
              {[ "ticket" := "SHOP-12" ]} sample.one_snapshot _
              (sample.record "good" 1705000000 "/old/place/good" [])
              eq_refl eq_refl) as (s' & Hrec & Hmeta).
  exists s'. split; [vm_compute; reflexivity |].
  split; [exact Hrec | exact Hmeta].
Defined.

(** ** Pause and resume *)

(** A resume request starts exactly the containers a pause request for
    the same volumes stops, in the same order: one command for each volume
    that names its container (a container shared by two volumes is
    addressed twice), none for a volume that names none. Neither touches a
    file. *)
Theorem resume_starts_what_pause_stopped volumes w w' :
  StopContainers volumes w
  = stated.extended w (map Stop (runs.containers volumes)) ∧
  StartContainers volumes w'
  = stated.extended w' (map Start (runs.containers volumes)).
Proof.
  split; [apply StopContainers_events | apply StartContainers_events].
Qed.

(** ** Archive names *)

Lemma ReplaceAll_bytes (s : string) (old new : ascii) :
  runs.bytes (ReplaceAll s old new)
  = map (fun c => if Ascii.eqb c old then new else c) (runs.bytes s).
Proof. induction s as [| c s IH]; cbn; [done | by f_equal]. Qed.

Lemma replace_chars (l : list ascii) (new c : ascii) :
  new ∉ l →
  fold_left (fun x ch => if Ascii.eqb x ch then new else x) l c
  = if bool_decide (c ∈ l) then new else c.
Proof.
  revert c. induction l as [| ch l IH]; intros c Hnew; [done |].
  apply not_elem_of_cons in Hnew as [Hne Hnew]. cbn [fold_left].
  destruct (Ascii.eqb_spec c ch) as [-> | Hc].
  - rewrite IH by done. rewrite bool_decide_eq_false_2 by done.
    rewrite bool_decide_eq_true_2; [done | by left].
  - rewrite IH by done. apply (f_equal (fun b : bool => if b then new else c)).
    apply bool_decide_ext. rewrite elem_of_cons.
    split; [by right | by intros [? | ?]].
Qed.

Lemma fold_ReplaceAll_bytes (l : list ascii) (new : ascii) (s : string) :
  runs.bytes (fold_left (fun r ch => ReplaceAll r ch new) l s)
  = map (fun c => fold_left (fun x ch => if Ascii.eqb x ch then new else x) l c)
      (runs.bytes s).
Proof.
  revert s. induction l as [| ch l IH]; intros s; cbn [fold_left].
  - by rewrite map_id.
  - by rewrite IH, ReplaceAll_bytes, map_map.
Qed.

Lemma underscore_is_safe : "_"%char ∉ unsafe_chars.
Proof.
  unfold unsafe_chars, double_quote.
  repeat (apply not_elem_of_cons; split; [discriminate |]).
  apply not_elem_of_nil.
Qed.

Lemma sanitizeName_bytes (name : string) :
  runs.bytes (sanitizeName name) = map runs.sanitize_char (runs.bytes name).
Proof.
  unfold sanitizeName. rewrite fold_ReplaceAll_bytes.
  apply map_ext. intros c. apply replace_chars, underscore_is_safe.
Qed.

Lemma bytes_inj (s t : string) : runs.bytes s = runs.bytes t → s = t.
Proof.
  unfold runs.bytes. intros H.
  by rewrite <- (string_of_list_ascii_of_string s), H,
    string_of_list_ascii_of_string.
Qed.

Lemma bytes_length (s : string) : length (runs.bytes s) = String.length s.
Proof. induction s as [| c s IH]; cbn; [done | by f_equal]. Qed.

(** [sanitizeName] replaces each of the nine unsafe bytes by an underscore
    and leaves every other byte as it is: the result has none of the
    unsafe bytes and the length of the name, sanitizing it again changes
    nothing, and a name without unsafe bytes is its own archive name. *)
Theorem sanitizeName_safe (name : string) :
  runs.bytes (sanitizeName name) = map runs.sanitize_char (runs.bytes name) ∧
  (∀ c, c ∈ unsafe_chars → c ∉ runs.bytes (sanitizeName name)) ∧
  String.length (sanitizeName name) = String.length name ∧
  sanitizeName (sanitizeName name) = sanitizeName name ∧
  ((∀ c, c ∈ runs.bytes name → c ∉ unsafe_chars) →
     sanitizeName name = name).
Proof.
  split; [apply sanitizeName_bytes |]. split; [| split; [| split]].
  - intros c Hc. rewrite sanitizeName_bytes, list_elem_of_fmap.
    intros (b & Hb & _). unfold runs.sanitize_char in Hb.
    case_bool_decide; subst; [by apply underscore_is_safe | done].
  - by rewrite <- !bytes_length, sanitizeName_bytes, length_map.
  - apply bytes_inj. rewrite !sanitizeName_bytes, map_map.
    apply map_ext. intros c. unfold runs.sanitize_char.
    destruct (bool_decide (c ∈ unsafe_chars)) eqn:Hc.
    + by destruct (bool_decide _).
    + by rewrite Hc.
  - intros Hsafe. apply bytes_inj. rewrite sanitizeName_bytes.
    rewrite <- (map_id (runs.bytes name)) at 2.
    apply map_ext_in. intros c Hc%list_elem_of_In.
    unfold runs.sanitize_char. by rewrite bool_decide_eq_false_2 by auto.
Qed.

Lemma sanitizeName_safe_witness : sanitizeName "shop_pgdata" = "shop_pgdata".
Proof.
  apply (sanitizeName_safe "shop_pgdata").
  intros c Hc Hunsafe. vm_compute in Hc.
  repeat (inversion Hc as [| ? ? ? Hc']; subst;
          [vm_compute in Hunsafe;
           repeat (inversion Hunsafe as [| ? ? ? Hu]; subst; clear Hunsafe;
                   rename Hu into Hunsafe) |];
          clear Hc; rename Hc' into Hc).
  inversion Hc.
Defined.

(** ** Detection: datastore types and the manifest file *)

(** Without a hint the classifier answers with one of the six available
    datastores, whatever the image and the mount path. A hint is returned
    as it is, known or not, and a type that is not among the six is
    displayed like [generic]. *)
Theorem classifier_answers_are_available image mountPath hint :
  (hint = "" →
     inferDatastoreType image mountPath hint
     ∈ datastores.AvailableDatastores) ∧
  (hint ≠ "" → inferDatastoreType image mountPath hint = hint) ∧
  NoDup datastores.AvailableDatastores ∧
  (∀ dt, dt ∉ datastores.AvailableDatastores →
     datastores.GetDatastoreInfo dt
     = datastores.GetDatastoreInfo DatastoreGeneric).
Proof.
  split; [| split; [by apply hint_wins | split]].
  - intros ->. unfold inferDatastoreType. cbn.
    repeat (destruct (Contains (ToLower image) _); cbn;
            [unfold datastores.AvailableDatastores;
             rewrite !elem_of_cons; tauto |]).
    repeat (destruct (Contains mountPath _); cbn;
            [unfold datastores.AvailableDatastores;
             rewrite !elem_of_cons; tauto |]).
    unfold datastores.AvailableDatastores. rewrite !elem_of_cons. tauto.
  - apply (bool_decide_unpack _). vm_compute. exact I.
  - intros dt Hdt. unfold datastores.AvailableDatastores in Hdt.
    rewrite !not_elem_of_cons in Hdt.
    destruct Hdt as (H1 & H2 & H3 & H4 & H5 & _).
    unfold datastores.GetDatastoreInfo.
    apply String.eqb_neq in H1, H2, H3, H4, H5.
    by rewrite H1, H2, H3, H4, H5.
Qed.

Lemma classifier_answers_are_available_witness :
  inferDatastoreType "bitnami/MariaDB:11" "/bitnami" ""
  ∈ datastores.AvailableDatastores.
Proof.
  apply (proj1 (classifier_answers_are_available
                  "bitnami/MariaDB:11" "/bitnami" "")).
  reflexivity.
Defined.

Lemma mountVolume_fields project cfg compose service mount v :
  mountVolume project cfg compose service mount = Some v →
  ∃ more,
    Split mount colon = stated.reference mount :: MountPath v :: more ∧
    DatastoreTypeOf v
    = inferDatastoreType (Image service) (MountPath v)
        (default "" (DatastoreHints cfg !! stated.reference mount)) ∧
    SizeBytes v = 0 ∧ SizeHuman v = "".
Proof.
  unfold mountVolume, stated.reference.
  destruct (Split mount colon) as [| ref [| path more]]; try done.
  repeat (match goal with
          | |- context [if ?b then None else _] => destruct b; [done |]
          end).
  intros [= <-]. by exists more.
Qed.

(** Every volume a detection returns comes from a mount entry of a
    service: its mount path is the text between the first and the second
    colon of the entry (a mode after it is ignored), its image and
    container are those of the service, and its datastore type is the
    classifier's answer for that image, that mount path and the hint
    configured under the unprefixed reference: the hint itself whenever
    one is configured. *)
Theorem detected_volume_fields
    (h : Host) (cfg : Config) (compose : ComposeConfig)
    (visit : list (string * ComposeService)) (vols : list Volume)
    (v : Volume) :
  loadCompose h cfg = inr compose →
  DetectComposeVolumesIn h cfg visit = inr vols →
  v ∈ vols →
  ∃ entry mount more,
    entry ∈ visit ∧ mount ∈ SvcVolumes (snd entry) ∧
    Split mount colon = stated.reference mount :: MountPath v :: more ∧
    Name v = getProjectName (cwd h) +:+ "_" +:+ stated.reference mount ∧
    ImageName v = Image (snd entry) ∧
    ContainerName v = SvcContainerName (snd entry) ∧
    DatastoreTypeOf v
    = inferDatastoreType (ImageName v) (MountPath v)
        (default "" (DatastoreHints cfg !! stated.reference mount)) ∧
    (∀ hint, DatastoreHints cfg !! stated.reference mount = Some hint →
             hint ≠ "" → DatastoreTypeOf v = hint).
Proof.
  intros Hload Hrun Hv. unfold DetectComposeVolumesIn in Hrun.
  rewrite Hload in Hrun. injection Hrun as <-.
  apply extracted_volume in Hv as (entry & mount & Hentry & Hmount & Hv).
  pose proof (mountVolume_survives (getProjectName (cwd h)) cfg compose
                (snd entry) mount) as Hs.
  rewrite Hv in Hs. destruct Hs as (_ & Hname & Hcont & Himg).
  destruct (mountVolume_fields _ _ _ _ _ _ Hv) as (more & Hsplit & Htype & _).
  exists entry, mount, more. rewrite Himg. repeat split; try done.
  intros hint Hhint Hne. rewrite Htype, Hhint. by apply hint_wins.
Qed.

Lemma detected_volume_fields_witness :
  ∃ entry mount more,
    entry ∈ [("db", sample.db)] ∧ mount ∈ SvcVolumes (snd entry) ∧
    Split mount colon
    = stated.reference mount :: MountPath sample2.hinted_volume :: more ∧
    Name sample2.hinted_volume = "shop" +:+ "_" +:+ stated.reference mount ∧
    ImageName sample2.hinted_volume = Image (snd entry) ∧
    ContainerName sample2.hinted_volume = SvcContainerName (snd entry) ∧
    DatastoreTypeOf sample2.hinted_volume
    = inferDatastoreType (ImageName sample2.hinted_volume)
        (MountPath sample2.hinted_volume)
        (default "" (DatastoreHints sample2.hinted !! stated.reference mount)) ∧
    (∀ hint,
       DatastoreHints sample2.hinted !! stated.reference mount = Some hint →
       hint ≠ "" → DatastoreTypeOf sample2.hinted_volume = hint).
Proof.
  apply (detected_volume_fields (sample.host_of sample.declared_section)
           sample2.hinted sample.declared_section [("db", sample.db)]
           [sample2.hinted_volume] sample2.hinted_volume).
  - reflexivity.
  - reflexivity.
  - by left.
Defined.

Lemma probe_first (h : Host) (names : list string) :
  "" ∉ names →
  (probe h names = "" ∧ ∀ name, name ∈ names → files h !! name = None) ∨
  (∃ before found after,
     names = before ++ found :: after ∧ probe h names = found ∧
     found ≠ "" ∧ is_Some (files h !! found) ∧
     ∀ name, name ∈ before → files h !! name = None).
Proof.
  induction names as [| name rest IH]; cbn [probe]; intros Hnames.
  - left. split; [done |]. by intros name ?%elem_of_nil.
  - apply not_elem_of_cons in Hnames as [Hname Hrest].
    destruct (files h !! name) as [f |] eqn:Hfile.
    + right. exists [], name, rest. split; [done |]. split; [done |].
      split; [done |]. split; [by rewrite Hfile |].
      by intros ? ?%elem_of_nil.
    + destruct (IH Hrest) as [[Hnone Hall]
                             | (before & found & after & -> & Hp & Hne & Hs & Hb)].
      * left. split; [done |].
        intros name' [-> | Hin]%elem_of_cons; [done | by apply Hall].
      * right. exists (name :: before), found, after.
        split; [done |]. split; [done |]. split; [done |]. split; [done |].
        intros name' [-> | Hin]%elem_of_cons; [done | by apply Hb].
Qed.

(** Where the manifest is taken from. A compose file named in the config
    is the only file read: when it is missing the detection fails with a
    read error and does not fall back to the conventional names. With no
    file named, the conventional names are probed in their fixed order and
    the first that exists is read, also when it is unreadable or
    malformed and a later one would be fine; the detection reports that no
    compose file was found exactly when none of them exists. *)
Theorem manifest_located (h : Host) (cfg : Config) :
  (ComposeFile cfg ≠ "" →
     loadCompose h cfg = detect.read_manifest h (ComposeFile cfg)) ∧
  (ComposeFile cfg = "" →
     ((∀ name, name ∈ candidates → files h !! name = None) ∧
      loadCompose h cfg = inl NoComposeFile) ∨
     (∃ before found after,
        candidates = before ++ found :: after ∧
        is_Some (files h !! found) ∧
        (∀ name, name ∈ before → files h !! name = None) ∧
        loadCompose h cfg = detect.read_manifest h found)).
Proof.
  unfold loadCompose, locate, detect.read_manifest. split.
  - intros Hne. apply String.eqb_neq in Hne. rewrite Hne.
    by rewrite Hne.
  - intros ->. cbn [String.eqb].
    destruct (probe_first h candidates)
      as [[-> Hall] | (before & found & after & Hc & -> & Hne & Hs & Hb)].
    + unfold candidates. rewrite !not_elem_of_cons.
      repeat (split; [discriminate |]). apply not_elem_of_nil.
    + left. done.
    + right. exists before, found, after.
      apply String.eqb_neq in Hne. by rewrite Hne.
Qed.

Lemma manifest_located_witness :
  loadCompose (sample.host_of sample.declared_section) sample2.elsewhere
  = detect.read_manifest (sample.host_of sample.declared_section)
      "deploy/compose.yaml".
Proof.
  apply (proj1 (manifest_located (sample.host_of sample.declared_section)
                  sample2.elsewhere)).
  discriminate.
Defined.

(** A config that names a compose file that is not there: the manifest in
    the working directory is not used instead. *)
Lemma named_compose_file_missing :
  loadCompose (sample.host_of sample.declared_section) sample2.elsewhere
  = inl (ReadFailed "deploy/compose.yaml").
Proof. reflexivity. Qed.

(** ** Sizes *)

Lemma wrap64_in_range (z : Z) :
  - 2 ^ 63 ≤ z < 2 ^ 63 → wrap64 z = z.
Proof.
  intros Hz. unfold wrap64.
  rewrite Z.mod_small by lia. lia.
Qed.

Lemma unitLoop_run (fuel : nat) (n div : Z) (exp : nat) (bound : Z) :
  0 < div → 1 ≤ n → div * n ≤ bound → bound < 2 ^ 63 →
  n < 1024 ^ Z.of_nat fuel →
  ∃ k : nat,
    size.unitLoop fuel n div exp
    = Some (div * 1024 ^ Z.of_nat k, (exp + k)%nat) ∧
    1024 ^ Z.of_nat k ≤ n < 1024 ^ (Z.of_nat k + 1).
Proof.
  revert n div exp.
  induction fuel as [| fuel IH]; intros n div exp Hdiv Hn Hbound Hmax Hfuel.
  - cbn in Hfuel. lia.
  - cbn [size.unitLoop]. unfold size.unit.
    destruct (Z.leb_spec 1024 n) as [Hge | Hlt].
    + rewrite Z.quot_div_nonneg by lia.
      assert (1024 * (n / 1024) ≤ n) as Hfloor
        by (apply Z.mul_div_le; lia).
      assert (n < 1024 * (n / 1024 + 1)) as Hceil.
      { pose proof (Z.mod_pos_bound n 1024 ltac:(lia)).
        pose proof (Z.div_mod n 1024 ltac:(lia)). lia. }
      rewrite wrap64_in_range by nia.
      destruct (IH (n / 1024) (div * 1024) (S exp)) as (k & Hrun & Hlo & Hhi).
      * lia.
      * apply Z.div_le_lower_bound; lia.
      * nia.
      * done.
      * rewrite Nat2Z.inj_succ, Z.pow_succ_r in Hfuel by lia.
        apply Z.div_lt_upper_bound; lia.
      * exists (S k). rewrite Hrun.
        rewrite Nat2Z.inj_succ, !Z.pow_succ_r by lia.
        rewrite Z.pow_add_r, Z.pow_1_r in Hhi by lia.
        replace (Z.succ (Z.of_nat k) + 1) with (Z.succ (Z.of_nat k + 1))
          by lia.
        rewrite Z.pow_succ_r, Z.pow_add_r, Z.pow_1_r by lia.
        split; [f_equal; f_equal; lia |]. nia.
    + exists 0%nat. cbn. split; [f_equal; f_equal; lia |]. lia.
Qed.

(** [FormatSize] never indexes outside ["KMGTPE"] and its loop ends, for
    every [int64]: below 1024 (negative numbers too) the bytes are printed
    as they are; from 1024 on the divisor is the largest power of 1024
    that is at most the number of bytes, it does not overflow, and the
    letter is the one of that power. *)
Theorem FormatSize_unit (float1 : Z → Z → string) (bytes : Z) :
  - 2 ^ 63 ≤ bytes < 2 ^ 63 →
  (bytes < 1024 →
     size.FormatSize float1 bytes = size.Text (pretty bytes +:+ " B")) ∧
  (1024 ≤ bytes →
     ∃ (exp : nat) (letter : ascii),
       (exp ≤ 5)%nat ∧
       String.get exp "KMGTPE" = Some letter ∧
       1024 ^ (Z.of_nat exp + 1) ≤ bytes < 1024 ^ (Z.of_nat exp + 2) ∧
       size.FormatSize float1 bytes
       = size.Text (float1 bytes (1024 ^ (Z.of_nat exp + 1))
                    +:+ " " +:+ String letter "B")).
Proof.
  intros Hrange. unfold size.FormatSize, size.unit. split.
  - intros Hsmall. by rewrite (proj2 (Z.ltb_lt _ _) Hsmall).
  - intros Hbig. rewrite (proj2 (Z.ltb_ge _ _) Hbig).
    rewrite Z.quot_div_nonneg by lia.
    assert (1024 * (bytes / 1024) ≤ bytes) as Hfloor
      by (apply Z.mul_div_le; lia).
    assert (bytes < 1024 * (bytes / 1024 + 1)) as Hceil.
    { pose proof (Z.mod_pos_bound bytes 1024 ltac:(lia)).
      pose proof (Z.div_mod bytes 1024 ltac:(lia)). lia. }
    destruct (unitLoop_run 7 (bytes / 1024) 1024 0 bytes)
      as (k & Hrun & Hlo & Hhi); try lia.
    assert (k ≤ 5)%nat as Hk.
    { destruct (decide (k ≤ 5)%nat) as [| Hmore]; [done |].
      assert (1024 ^ 6 ≤ 1024 ^ Z.of_nat k) as Hpow
        by (apply Z.pow_le_mono_r; lia).
      change (1024 ^ 6) with 1152921504606846976 in Hpow. lia. }
    rewrite Hrun. cbn [Nat.add].
    assert (1024 * 1024 ^ Z.of_nat k = 1024 ^ (Z.of_nat k + 1)) as ->.
    { rewrite Z.pow_add_r, Z.pow_1_r by lia. lia. }
    assert (∃ letter, String.get k "KMGTPE" = Some letter) as [letter Hletter].
    { do 6 (destruct k as [| k]; [by eexists |]). lia. }
    exists k, letter. rewrite Hletter. split; [done |]. split; [done |].
    split; [| done].
    rewrite Z.pow_add_r, Z.pow_1_r in Hhi by lia.
    replace (Z.of_nat k + 2) with (Z.of_nat k + 1 + 1) by lia.
    rewrite (Z.pow_add_r 1024 (Z.of_nat k + 1) 1), Z.pow_1_r by lia.
    rewrite (Z.pow_add_r 1024 (Z.of_nat k) 1), Z.pow_1_r by lia.
    nia.
Qed.

Lemma FormatSize_unit_witness :
  ∃ (exp : nat) (letter : ascii),
    (exp ≤ 5)%nat ∧
    String.get exp "KMGTPE" = Some letter ∧
    1024 ^ (Z.of_nat exp + 1) ≤ 1572864 < 1024 ^ (Z.of_nat exp + 2) ∧
    size.FormatSize (fun _ _ => "1.5") 1572864
    = size.Text ("1.5" +:+ " " +:+ String letter "B").
Proof.
  apply (proj2 (FormatSize_unit (fun _ _ => "1.5") 1572864 ltac:(lia))).
  lia.
Defined.

(** ** The size report *)

Lemma wrap64_add_l (a b : Z) : wrap64 (wrap64 a + b) = wrap64 (a + b).
Proof.
  unfold wrap64. f_equal.
  replace ((a + 2 ^ 63) `mod` 2 ^ 64 - 2 ^ 63 + b + 2 ^ 63)
    with ((a + 2 ^ 63) `mod` 2 ^ 64 + b) by lia.
  rewrite Zplus_mod_idemp_l. f_equal. lia.
Qed.

Lemma wrap64_range (z : Z) : - 2 ^ 63 ≤ wrap64 z < 2 ^ 63.
Proof.
  unfold wrap64. pose proof (Z.mod_pos_bound (z + 2 ^ 63) (2 ^ 64)). lia.
Qed.

Lemma over_datastores_insert f (m : gmap string report.DatastoreSizeInfo)
    ds info :
  report.over_datastores f (<[ ds := info ]> m)
  = f info + report.over_datastores f m - from_option f 0 (m !! ds).
Proof.
  unfold report.over_datastores.
  destruct (m !! ds) as [old |] eqn:Hds; cbn.
  - rewrite <- insert_delete_eq.
    rewrite map_fold_insert_L;
      [| intros; lia | apply lookup_delete_eq].
    rewrite (map_fold_delete_L _ _ ds old m); [lia | intros; lia | done].
  - rewrite map_fold_insert_L; [lia | intros; lia | done].
Qed.

Lemma over_datastores_humanize rt f (m : gmap string report.DatastoreSizeInfo) :
  (∀ info, f (report.humanize rt info) = f info) →
  report.over_datastores f (report.humanize rt <$> m)
  = report.over_datastores f m.
Proof.
  intros Hf. unfold report.over_datastores. rewrite map_fold_fmap.
  induction m as [| ds info m Hds Hfirst IH] using map_first_key_ind.
  - by rewrite !map_fold_empty.
  - rewrite !map_fold_insert_first_key by done.
    cbn. by rewrite Hf, IH.
Qed.

Lemma measured_cons du vol rest :
  report.measured du (vol :: rest)
  = match report.size_read du vol with
    | Some size => (vol, size) :: report.measured du rest
    | None => report.measured du rest
    end.
Proof.
  unfold report.measured. cbn.
  by destruct (report.size_read du vol).
Qed.

(** What the first loop keeps true. *)
Lemma measure_loop du volumes rep :
  wrap64 (report.TotalSize (fold_left (report.measure du) volumes rep))
  = wrap64 (report.TotalSize rep
            + report.sum (snd <$> report.measured du volumes)) ∧
  (- 2 ^ 63 ≤ report.TotalSize rep < 2 ^ 63 →
   - 2 ^ 63 ≤ report.TotalSize (fold_left (report.measure du) volumes rep)
   < 2 ^ 63) ∧
  report.over_datastores report.InfoCount
    (report.ByDatastore (fold_left (report.measure du) volumes rep))
  = report.over_datastores report.InfoCount (report.ByDatastore rep)
    + Z.of_nat (length (report.measured du volumes)) ∧
  wrap64 (report.over_datastores report.InfoTotalSize
            (report.ByDatastore (fold_left (report.measure du) volumes rep)))
  = wrap64 (report.over_datastores report.InfoTotalSize
              (report.ByDatastore rep)
            + report.sum (snd <$> report.measured du volumes)) ∧
  ((∀ ds info, report.ByDatastore rep !! ds = Some info →
               report.InfoType info = ds ∧ 0 < report.InfoCount info) →
   ∀ ds info,
     report.ByDatastore (fold_left (report.measure du) volumes rep) !! ds
     = Some info →
     report.InfoType info = ds ∧ 0 < report.InfoCount info) ∧
  (∀ name,
     is_Some (report.ByVolume (fold_left (report.measure du) volumes rep)
              !! name) ↔
     is_Some (report.ByVolume rep !! name) ∨
     ∃ vol size, (vol, size) ∈ report.measured du volumes ∧ Name vol = name).
Proof.
  revert rep. induction volumes as [| vol rest IH]; intros rep.
  - cbn. rewrite !Z.add_0_r.
    split; [done |]. split; [done |]. split; [done |]. split; [done |].
    split; [done |]. intros name. split; [by left |].
    intros [? | (vol & size & Hin & _)]; [done |].
    by apply elem_of_nil in Hin.
  - cbn [fold_left]. rewrite measured_cons.
    destruct (IH (report.measure du rep vol))
      as (Htotal & Hrange & Hcount & Hsizes & Htypes & Hnames).
    destruct (report.size_read du vol) as [size |] eqn:Hsize;
      [| unfold report.measure in *; by rewrite Hsize in *].
    assert (report.measure du rep vol
            = {| report.TotalSize := wrap64 (report.TotalSize rep + size);
                 report.TotalSizeHuman := report.TotalSizeHuman rep;
                 report.ByDatastore :=
                   <[ DatastoreTypeOf vol :=
                        {| report.InfoType := DatastoreTypeOf vol;
                           report.InfoTotalSize :=
                             wrap64 (report.InfoTotalSize
                                       (default report.zeroInfo
                                          (report.ByDatastore rep
                                           !! DatastoreTypeOf vol)) + size);
                           report.InfoSizeHuman :=
                             report.InfoSizeHuman
                               (default report.zeroInfo
                                  (report.ByDatastore rep
                                   !! DatastoreTypeOf vol));
                           report.InfoCount :=
                             report.InfoCount
                               (default report.zeroInfo
                                  (report.ByDatastore rep
                                   !! DatastoreTypeOf vol)) + 1 |} ]>
                     (report.ByDatastore rep);
                 report.ByVolume := <[ Name vol := size ]> (report.ByVolume rep);
                 report.SnapshotCount := report.SnapshotCount rep;
                 report.SnapshotSize := report.SnapshotSize rep |}) as Hm.
    { unfold report.measure. by rewrite Hsize. }
    pose proof (f_equal report.TotalSize Hm) as Hm1.
    pose proof (f_equal report.ByDatastore Hm) as Hm2.
    pose proof (f_equal report.ByVolume Hm) as Hm3.
    cbn [report.TotalSize report.ByDatastore report.ByVolume] in Hm1, Hm2, Hm3.
    clear Hm. generalize dependent (report.measure du rep vol).
    intros rep1 Htotal Hrange Hcount Hsizes Htypes Hnames Hm1 Hm2 Hm3.
    rewrite Hm1 in Htotal, Hrange. rewrite Hm2 in Hcount, Hsizes, Htypes.
    rewrite Hm3 in Hnames. clear Hm1 Hm2 Hm3.
    cbn [fmap list_fmap length snd report.sum fold_right].
    fold (report.sum (snd <$> report.measured du rest)).
    set (old := report.ByDatastore rep !! DatastoreTypeOf vol) in *.
    assert (report.InfoCount (default report.zeroInfo old)
            = from_option report.InfoCount 0 old) as Hc
      by (by destruct old).
    assert (report.InfoTotalSize (default report.zeroInfo old)
            = from_option report.InfoTotalSize 0 old) as Ht
      by (by destruct old).
    rewrite over_datastores_insert in Hcount, Hsizes.
    cbn [report.InfoCount report.InfoTotalSize] in Hcount, Hsizes.
    change (report.ByDatastore rep !! DatastoreTypeOf vol) with old
      in Hcount, Hsizes.
    split; [| split; [| split; [| split; [| split]]]].
    + by rewrite Htotal, wrap64_add_l, Z.add_assoc.
    + intros _. apply Hrange, wrap64_range.
    + rewrite Hcount, Hc. lia.
    + rewrite Hsizes, Ht.
      replace (wrap64 (from_option report.InfoTotalSize 0 old + size)
               + report.over_datastores report.InfoTotalSize
                   (report.ByDatastore rep)
               - from_option report.InfoTotalSize 0 old
               + report.sum (snd <$> report.measured du rest))
        with (wrap64 (from_option report.InfoTotalSize 0 old + size)
              + (report.over_datastores report.InfoTotalSize
                   (report.ByDatastore rep)
                 - from_option report.InfoTotalSize 0 old
                 + report.sum (snd <$> report.measured du rest))) by lia.
      rewrite wrap64_add_l. f_equal. lia.
    + intros Hrep. apply Htypes. intros ds info.
      destruct (decide (DatastoreTypeOf vol = ds)) as [<- | Hne].
      * rewrite lookup_insert_eq. intros [= <-]. cbn. split; [done |].
        fold old. rewrite Hc. destruct old as [info0 |] eqn:Hold; cbn; [| lia].
        destruct (Hrep _ _ Hold). lia.
      * rewrite lookup_insert_ne by done. apply Hrep.
    + intros name. rewrite Hnames.
      destruct (decide (Name vol = name)) as [<- | Hne].
      * rewrite lookup_insert_eq. split; [| by eauto].
        intros _. right. exists vol, size. split; [by left | done].
      * rewrite lookup_insert_ne by done. split.
        -- intros [? | (v & s & Hin & Hn)]; [by left |].
           right. exists v, s. split; [by right | done].
        -- intros [? | (v & s & Hin & Hn)]; [by left |].
           apply elem_of_cons in Hin as [[= -> ->] | Hin]; [done |].
           right. eauto.
Qed.



(** The first loop of the report runs one size query for every volume,
    in their order, whether or not it succeeds, and folds the sizes it got
    into the report. *)
Lemma sizeLoop_run du volumes rep w :
  report.sizeLoop du volumes rep w
  = (fold_left (report.measure du) volumes rep,
     stated.extended w (report.queries volumes)).
Proof.
  revert rep w. induction volumes as [| vol rest IH]; intros rep w.
  - cbn. by rewrite extended_nil.
  - cbn [report.sizeLoop report.GetVolumeSize fold_left].
    unfold report.measure at 2.
    destruct (report.size_read du vol); rewrite IH, emit_extended, extended_app;
      done.
Qed.

(** What the files hold does not depend on the docker commands run. *)
Lemma listLoop_extended cfg entries snapshots w events :
  listLoop cfg entries snapshots (stated.extended w events)
  = listLoop cfg entries snapshots w.
Proof.
  revert snapshots.
  induction entries as [| [entry node] rest IH]; intros snapshots; [done |].
  destruct node as [| meta]; cbn [listLoop]; [done |].
  assert (fst (loadMetadata cfg (Join (SnapshotDir cfg) entry)
                 (stated.extended w events))
          = fst (loadMetadata cfg (Join (SnapshotDir cfg) entry) w)) as ->.
  { unfold loadMetadata, ReadMetadataFile. cbn [root stated.extended].
    destruct (element_under _ _) as [e |]; [| done].
    destruct (root w) as [es |]; [| done].
    by destruct (es !! e) as [[| [| | [s |]]] |]. }
  destruct (fst (loadMetadata _ _ w)); apply IH.
Qed.

Lemma List_extended rt cfg w events :
  fst (List rt cfg (stated.extended w events)) = fst (List rt cfg w).
Proof.
  unfold List, ReadDir. cbn [root stated.extended].
  destruct (root w) as [es |]; [| done].
  destruct (readdir_fails rt); [done |].
  cbn [fst]. by rewrite listLoop_extended.
Qed.

Lemma GetSizeReport_run rt cfg du volumes w :
  report.GetSizeReport rt cfg du volumes w
  = (inr {| report.TotalSize :=
              report.TotalSize
                (fold_left (report.measure du) volumes report.emptyReport);
            report.TotalSizeHuman :=
              FormatSize rt
                (report.TotalSize
                   (fold_left (report.measure du) volumes
                      report.emptyReport));
            report.ByDatastore :=
              report.humanize rt <$>
                report.ByDatastore
                  (fold_left (report.measure du) volumes report.emptyReport);
            report.ByVolume :=
              report.ByVolume
                (fold_left (report.measure du) volumes report.emptyReport);
            report.SnapshotCount :=
              fst match fst (List rt cfg w) with
                  | inr snapshots =>
                      (Z.of_nat (length snapshots),
                       report.snapshotSizes snapshots)
                  | inl _ => (0, 0)
                  end;
            report.SnapshotSize :=
              snd match fst (List rt cfg w) with
                  | inr snapshots =>
                      (Z.of_nat (length snapshots),
                       report.snapshotSizes snapshots)
                  | inl _ => (0, 0)
                  end |},
     stated.extended w (report.queries volumes)).
Proof.
  unfold report.GetSizeReport. by rewrite sizeLoop_run, List_extended.
Qed.

(** The size report adds up. [GetSizeReport] never fails; the docker
    commands it runs are the size queries, one for every volume in their
    order, and it changes no file. The total is the [int64] sum of the
    sizes of the volumes
    whose size query succeeded (a query that fails is passed over); the
    counts of the datastores add up to the number of those volumes and
    their sizes, summed as [int64], to the total; every datastore listed
    has at least one volume, carries its own type and the readable form of
    its own size; and the per-volume sizes are keyed by the names of those
    volumes. *)
Theorem GetSizeReport_adds_up rt cfg du volumes w :
  ∃ rep,
    report.GetSizeReport rt cfg du volumes w
    = (inr rep, stated.extended w (report.queries volumes)) ∧
    report.TotalSize rep
    = wrap64 (report.sum (snd <$> report.measured du volumes)) ∧
    report.TotalSizeHuman rep = FormatSize rt (report.TotalSize rep) ∧
    report.over_datastores report.InfoCount (report.ByDatastore rep)
    = Z.of_nat (length (report.measured du volumes)) ∧
    wrap64 (report.over_datastores report.InfoTotalSize
              (report.ByDatastore rep))
    = report.TotalSize rep ∧
    (∀ ds info, report.ByDatastore rep !! ds = Some info →
       report.InfoType info = ds ∧ 0 < report.InfoCount info ∧
       report.InfoSizeHuman info = FormatSize rt (report.InfoTotalSize info))
    ∧
    (∀ name, is_Some (report.ByVolume rep !! name) ↔
       ∃ vol size, (vol, size) ∈ report.measured du volumes ∧
                   Name vol = name).
Proof.
  eexists. split; [apply GetSizeReport_run |].
  cbn [report.TotalSize report.TotalSizeHuman report.ByDatastore
       report.ByVolume].
  destruct (measure_loop du volumes report.emptyReport)
    as (Htotal & Hrange & Hcount & Hsizes & Htypes & Hnames).
  cbn [report.TotalSize report.ByDatastore report.ByVolume
       report.emptyReport] in *.
  assert (report.TotalSize
            (fold_left (report.measure du) volumes report.emptyReport)
          = wrap64 (report.sum (snd <$> report.measured du volumes)))
    as Htot.
  { rewrite <- (wrap64_in_range (report.TotalSize _)) by (apply Hrange; lia).
    by rewrite Htotal. }
  split; [done |]. split; [done |].
  rewrite !over_datastores_humanize by done.
  split; [| split; [| split]].
  - rewrite Hcount. unfold report.over_datastores.
    rewrite map_fold_empty. lia.
  - rewrite Hsizes, Htot. unfold report.over_datastores.
    by rewrite map_fold_empty.
  - intros ds info. rewrite lookup_fmap.
    destruct (report.ByDatastore _ !! ds) as [info0 |] eqn:Hds; [| done].
    intros [= <-]. cbn.
    destruct (Htypes ltac:(by intros ? ? ?%lookup_empty_Some) ds info0 Hds).
    done.
  - intros name. rewrite Hnames, lookup_empty. split.
    + by intros [[? [=]] | ?].
    + by right.
Qed.



Lemma GetSizeReport_adds_up_witness :
  ∃ rep,
    report.GetSizeReport sample.calm DefaultConfig
      (fun v => if String.eqb (Name v) "shop_logs" then report.DuFailed
                else report.DuOutput (Some 4096))
      [sample.pgdata_volume; sample.logs_volume; sample.cachedata_volume]
      sample.blank
    = (inr rep,
       stated.extended sample.blank
         [DiskUsage sample.pgdata_volume; DiskUsage sample.logs_volume;
          DiskUsage sample.cachedata_volume]) ∧
    report.TotalSize rep = 8192 ∧
    report.over_datastores report.InfoCount (report.ByDatastore rep) = 2.
Proof.
  destruct (GetSizeReport_adds_up sample.calm DefaultConfig
              (fun v => if String.eqb (Name v) "shop_logs"
                        then report.DuFailed
                        else report.DuOutput (Some 4096))
              [sample.pgdata_volume; sample.logs_volume;
               sample.cachedata_volume] sample.blank)
    as (rep & Hrun & Htotal & _ & Hcount & _).
  exists rep. split; [exact Hrun |].
  split; [rewrite Htotal | rewrite Hcount]; vm_compute; reflexivity.
Defined.

(** ** The commands *)

(** [--dry-run] never changes anything: neither a file nor a container
    nor a volume, for [snapshot], [restore], [reset] and [delete], whatever
    the other flags, the arguments and the answers are. *)
Theorem dry_run_changes_nothing rt fl t c w :
  cmd.dryRun fl = true →
  snd (cmd.run rt fl t c w) = w.
Proof.
  intros Hdry. destruct c as [sf args | name | | args]; cbn [cmd.run].
  - unfold cmd.runSnapshot. rewrite Hdry.
    destruct (cmd.config_Load t); [| done].
    destruct (cmd.docker_found t); [| done]. cbn [negb].
    destruct (DetectComposeVolumesIn _ _ _) as [e | volumes]; [done |].
    by destruct (Z.of_nat (length volumes) =? 0).
  - unfold cmd.runRestore. rewrite Hdry.
    destruct (cmd.config_Load t); [| done].
    destruct (cmd.docker_found t); [| done]. cbn [negb].
    destruct (fst (Get _ _ _)); [done |].
    by rewrite andb_false_r.
  - unfold cmd.runReset. rewrite Hdry.
    destruct (cmd.config_Load t); [| done].
    destruct (cmd.docker_found t); [| done]. cbn [negb].
    destruct (DetectComposeVolumesIn _ _ _) as [e | volumes]; [done |].
    destruct (Z.of_nat (length volumes) =? 0); [done |].
    by rewrite andb_false_r.
  - unfold cmd.runDelete. rewrite Hdry.
    destruct (cmd.config_Load t); [| done].
    destruct (cmd.docker_found t); [| done]. cbn [negb].
    destruct (cmd.deleteTarget _ _ _ _ _); [done |].
    by destruct (fst (Get _ _ _)).
Qed.

Lemma dry_run_changes_nothing_witness :
  snd (cmd.run sample.calm sample3.preview sample3.session cmd.DoReset
         sample.one_snapshot) = sample.one_snapshot.
Proof.
  apply (dry_run_changes_nothing sample.calm sample3.preview sample3.session
           cmd.DoReset sample.one_snapshot).
  reflexivity.
Defined.

(** Without [--force], [restore] and [reset] go on only when the answer
    at the prompt is [yes], and [delete] only when the word read is
    [yes]; otherwise nothing changes. Declining [restore] or [reset] is
    not an error. *)
Theorem declined_changes_nothing rt fl t c w :
  cmd.force fl = false →
  match c with
  | cmd.DoSnapshot _ _ => False
  | cmd.DoRestore _ | cmd.DoReset => cmd.answer t ≠ "yes"
  | cmd.DoDelete _ => cmd.scanned t ≠ Some "yes"
  end →
  snd (cmd.run rt fl t c w) = w ∧
  (∀ e, fst (cmd.run rt fl t c w) = inl e →
        match e with
        | cmd.RestoreFailed _ | cmd.ResetFailed _ | cmd.DeleteFailed _
        | cmd.CreateFailed _ => False
        | _ => True
        end).
Proof.
  intros Hforce Hno. destruct c as [sf args | name | | args]; [done | | |];
    cbn [cmd.run].
  - unfold cmd.runRestore. rewrite Hforce.
    apply String.eqb_neq in Hno. rewrite Hno.
    destruct (cmd.config_Load t); [| by split; [| intros ? [= <-]]].
    destruct (cmd.docker_found t); [| by split; [| intros ? [= <-]]].
    cbn [negb]. destruct (fst (Get _ _ _)); [by split; [| intros ? [= <-]] |].
    destruct (cmd.dryRun fl); by split.
  - unfold cmd.runReset. rewrite Hforce.
    apply String.eqb_neq in Hno. rewrite Hno.
    destruct (cmd.config_Load t); [| by split; [| intros ? [= <-]]].
    destruct (cmd.docker_found t); [| by split; [| intros ? [= <-]]].
    cbn [negb].
    destruct (DetectComposeVolumesIn _ _ _) as [e | volumes];
      [by split; [| intros ? [= <-]] |].
    destruct (Z.of_nat (length volumes) =? 0); [by split |].
    destruct (cmd.dryRun fl); by split.
  - unfold cmd.runDelete, cmd.ConfirmDestructive. rewrite Hforce.
    destruct (cmd.config_Load t); [| by split; [| intros ? [= <-]]].
    destruct (cmd.docker_found t); [| by split; [| intros ? [= <-]]].
    cbn [negb].
    destruct (cmd.deleteTarget _ _ _ _ _) as [e | target] eqn:Htarget.
    { split; [done |]. intros e' [= <-].
      unfold cmd.deleteTarget in Htarget.
      destruct args; [| done].
      destruct (fst (List _ _ _)); [by injection Htarget as <- |].
      destruct (_ =? 0); [by injection Htarget as <- |].
      destruct (cmd.selection t);
        [by injection Htarget as <- | by injection Htarget as <- | done]. }
    destruct (fst (Get _ _ _)); [by split; [| intros ? [= <-]] |].
    destruct (cmd.dryRun fl); [by split |].
    destruct (cmd.scanned t) as [response |]; [| by split; [| intros ? [= <-]]].
    destruct (String.eqb_spec response "yes") as [-> | _]; [done |].
    by split.
Qed.

Lemma declined_changes_nothing_witness :
  snd (cmd.run sample.calm sample3.careful sample3.session
         (cmd.DoRestore "good") sample.one_snapshot) = sample.one_snapshot ∧
  (∀ e, fst (cmd.run sample.calm sample3.careful sample3.session
               (cmd.DoRestore "good") sample.one_snapshot) = inl e →
        match e with
        | cmd.RestoreFailed _ | cmd.ResetFailed _ | cmd.DeleteFailed _
        | cmd.CreateFailed _ => False
        | _ => True
        end).
Proof.
  apply (declined_changes_nothing sample.calm sample3.careful sample3.session
           (cmd.DoRestore "good") sample.one_snapshot).
  - reflexivity.
  - discriminate.
Defined.

(** A [restore] that is forced, or confirmed with [yes], and not a dry
    run, is [Manager.Restore]: the world it leaves is the one [Restore]
    leaves, and since the command has already found the record, the only
    error it can report from [Restore] is that of the first import that
    fails. *)
Theorem confirmed_restore rt fl t name cfg s w :
  cmd.config_Load t = Some cfg → cmd.docker_found t = true →
  stated.record_file w name = Holds (Yaml s) →
  cmd.dryRun fl = false →
  cmd.force fl = true ∨ cmd.answer t = "yes" →
  cmd.runRestore rt fl t name w
  = (match stated.first_failing
             (stated.import_failing rt (Join (SnapshotDir cfg) name))
             (Volumes s) with
     | Some v => inl (cmd.RestoreFailed (ErrImport (Name v)))
     | None => inr tt
     end,
     snd (Restore rt cfg name w)).
Proof.
  intros Hcfg Hdocker Hrec Hdry Hgo. unfold cmd.runRestore.
  rewrite Hcfg, Hdocker, Hdry, Get_record, Hrec. cbn [negb fst andb].
  assert (negb (cmd.force fl) && true
          && negb (String.eqb (cmd.answer t) "yes") = false) as ->.
  { destruct Hgo as [-> | ->]; [done |]. by rewrite andb_false_r. }
  rewrite Restore_run, Hrec. cbn [snd].
  by destruct (stated.first_failing _ (Volumes s)).
Qed.

Lemma confirmed_restore_witness :
  cmd.runRestore sample.calm sample3.forced sample3.session "good"
    sample.one_snapshot
  = (inr tt,
     snd (Restore sample.calm DefaultConfig "good" sample.one_snapshot)).
Proof.
  apply (confirmed_restore sample.calm sample3.forced sample3.session "good"
           DefaultConfig
           (sample.record "good" 1705000000 "/old/place/good" [])
           sample.one_snapshot).
  - reflexivity.
  - reflexivity.
  - reflexivity.
  - reflexivity.
  - by left.
Defined.

(** What a [CreateWithOptions] that fails at an export leaves behind.
    When a snapshot of a fresh name (a single path element) fails at the
    export of a volume, its directory stays, without a record: [List]
    does not show it, and [delete] of that name, which looks the record up
    first, reports that the snapshot is not found and removes nothing,
    with or without [--force]. *)
Theorem failed_snapshot_is_left_behind
    rt cfg name volumes opts w v fl t :
  element name = true →
  fst (CreateWithOptions rt cfg name volumes opts w) = inl (ErrExport v) →
  stated.record_file w name = Missing →
  cmd.config_Load t = Some cfg → cmd.docker_found t = true →
  (∃ es, root (snd (CreateWithOptions rt cfg name volumes opts w)) = Some es ∧
         es !! name = Some (Directory Missing)) ∧
  (readdir_fails rt = false →
   ∃ l, List rt cfg (snd (CreateWithOptions rt cfg name volumes opts w))
        = (inr l, snd (CreateWithOptions rt cfg name volumes opts w)) ∧
        ∀ r, r ∈ l →
          ∃ entry s, entry ≠ name ∧
                     stated.record_file w entry = Holds (Yaml s) ∧
                     r = with_Path s (Join (SnapshotDir cfg) entry)) ∧
  cmd.runDelete rt fl t [name]
    (snd (CreateWithOptions rt cfg name volumes opts w))
  = (inl (cmd.SnapshotNotFound name),
     snd (CreateWithOptions rt cfg name volumes opts w)).
Proof.
  intros _ Hfail Hfresh Hcfg Hdocker.
  pose proof (CreateWithOptions_run rt cfg name volumes opts w) as Hrun.
  destruct (MkdirAll rt cfg (Join (SnapshotDir cfg) name) w) as [w1 |] eqn:Hmk;
    [| by rewrite Hrun in Hfail].
  destruct (MkdirAll_frame _ _ _ _ _ Hmk) as (_ & _ & Hrec).
  destruct (MkdirAll_directory _ _ _ _ _ Hmk) as (es & meta & Hroot1 & Hes).
  destruct Hrun as (r & w' & Hcreate & _ & _ & Hr).
  rewrite Hcreate in *. cbn [fst snd] in *. subst r.
  assert (root w' = root w1) as Hroot.
  { destruct (stated.first_failing _ volumes); [by destruct Hr |].
    by destruct Hr as [[[=] _] | (? & [=] & _)]. }
  assert (∀ other, stated.record_file w' other = stated.record_file w other)
    as Hsame.
  { intros other. rewrite <- Hrec. unfold stated.record_file.
    by rewrite Hroot. }
  assert (meta = Missing) as ->.
  { pose proof (Hrec name) as Hn. rewrite Hfresh in Hn.
    unfold stated.record_file in Hn. by rewrite Hroot1, Hes in Hn. }
  split; [exists es; by rewrite Hroot |]. split.
  - intros Hread.
    destruct (List_by_record_file rt cfg w' Hread) as (l & Hlist & Hmem).
    exists l. split; [done |].
    intros r' (entry & s & He & ->)%Hmem. exists entry, s.
    rewrite Hsame in He. split; [| done].
    intros ->. by rewrite Hfresh in He.
  - unfold cmd.runDelete. rewrite Hcfg, Hdocker. cbn [negb cmd.deleteTarget].
    by rewrite Get_record, Hsame, Hfresh.
Qed.

Lemma failed_snapshot_is_left_behind_witness :
  cmd.runDelete sample.stormy sample3.forced sample3.session ["nightly"]
    (snd (CreateWithOptions sample.stormy DefaultConfig "nightly"
            [sample.pgdata_volume; sample.cachedata_volume] noOptions
            sample.blank))
  = (inl (cmd.SnapshotNotFound "nightly"),
     snd (CreateWithOptions sample.stormy DefaultConfig "nightly"
            [sample.pgdata_volume; sample.cachedata_volume] noOptions
            sample.blank)).
Proof.
  apply (failed_snapshot_is_left_behind sample.stormy DefaultConfig "nightly"
           [sample.pgdata_volume; sample.cachedata_volume] noOptions
           sample.blank "shop_cachedata" sample3.forced
           sample3.session).
  - reflexivity.
  - reflexivity.
  - reflexivity.
  - reflexivity.
  - reflexivity.
Defined.

(** When the detection finds no volume, [snapshot] and [reset] succeed
    and do nothing: no empty snapshot is written, and [reset] makes no
    auto-backup. *)
Theorem nothing_detected_nothing_done rt fl sf t args cfg w :
  cmd.config_Load t = Some cfg → cmd.docker_found t = true →
  (DetectComposeVolumesIn (cmd.host t) (cmd.applyFlags sf cfg) (cmd.visit t)
   = inr [] →
   cmd.runSnapshot rt fl sf t args w = (inr tt, w)) ∧
  (DetectComposeVolumesIn (cmd.host t) cfg (cmd.visit t) = inr [] →
   cmd.runReset rt fl t w = (inr tt, w)).
Proof.
  intros Hcfg Hdocker. split; intros Hnone.
  - unfold cmd.runSnapshot. by rewrite Hcfg, Hdocker, Hnone.
  - unfold cmd.runReset. by rewrite Hcfg, Hdocker, Hnone.
Qed.

Lemma nothing_detected_nothing_done_witness :
  cmd.runReset sample.calm sample3.forced sample3.excluding
    sample.one_snapshot = (inr tt, sample.one_snapshot).
Proof.
  apply (proj2 (nothing_detected_nothing_done sample.calm sample3.forced
                  (cmd.mkSnapshotFlags [] "" [] []) sample3.excluding []
                  sample2.without_pgdata sample.one_snapshot
                  eq_refl eq_refl)).
  reflexivity.
Defined.


Lemma applyFlags_fields sf cfg :
  IncludeVolumes (cmd.applyFlags sf cfg)
  = match cmd.snapshotInclude sf with
    | [] => IncludeVolumes cfg
    | _ => cmd.snapshotInclude sf
    end ∧
  ExcludeVolumes (cmd.applyFlags sf cfg)
  = ExcludeVolumes cfg ++ cmd.snapshotExclude sf ∧
  SnapshotDir (cmd.applyFlags sf cfg) = SnapshotDir cfg ∧
  DefaultTags (cmd.applyFlags sf cfg) = DefaultTags cfg.
Proof.
  unfold cmd.applyFlags.
  destruct (cmd.snapshotInclude sf), (cmd.snapshotExclude sf); cbn;
    by rewrite ?app_nil_r.
Qed.

Lemma sized_Name rt dir volumes :
  map Name (map (runs.sized rt dir) volumes) = map Name volumes.
Proof.
  rewrite map_map. apply map_ext. intros v. unfold runs.sized.
  by destruct (stat_size rt _).
Qed.

(** What [snapshot] captures. A [snapshot] under the name of one path
    element that succeeds without [--dry-run] either detected no volume,
    and then did nothing, or detected some and left a record that [Get]
    reads back under that name, with the name, with the default tags of
    the config followed by the [--tag] values, with the [--description],
    and with the detected volumes in their order; every volume of that
    record is a compose volume of the project whose reference is neither
    excluded by the config nor by [--exclude], and is in the [--include]
    list when one is given: that list replaces the include list of the
    config, which counts only without it. *)
Theorem snapshot_respects_flags rt fl sf t args cfg w w' :
  cmd.config_Load t = Some cfg →
  cmd.dryRun fl = false →
  element (cmd.snapshot_name t args w) = true →
  cmd.runSnapshot rt fl sf t args w = (inr tt, w') →
  (DetectComposeVolumesIn (cmd.host t) (cmd.applyFlags sf cfg) (cmd.visit t)
   = inr [] ∧ w' = w) ∨
  ∃ volumes s,
    DetectComposeVolumesIn (cmd.host t) (cmd.applyFlags sf cfg) (cmd.visit t)
    = inr volumes ∧
    volumes ≠ [] ∧
    Get cfg (cmd.snapshot_name t args w) w' = (inr s, w') ∧
    SName s = cmd.snapshot_name t args w ∧
    Tags s = DefaultTags cfg ++ cmd.snapshotTags sf ∧
    Description s = cmd.snapshotDescription sf ∧
    map Name (Volumes s) = map Name volumes ∧
    ∀ v, v ∈ Volumes s →
      ∃ ref,
        Name v = getProjectName (cwd (cmd.host t)) +:+ "_" +:+ ref ∧
        (ref ∉ ExcludeVolumes cfg) ∧ (ref ∉ cmd.snapshotExclude sf) ∧
        (cmd.snapshotInclude sf ≠ [] → ref ∈ cmd.snapshotInclude sf) ∧
        (cmd.snapshotInclude sf = [] → IncludeVolumes cfg ≠ [] →
         ref ∈ IncludeVolumes cfg).
Proof.
  intros Hcfg Hdry _. unfold cmd.runSnapshot.
  fold (cmd.snapshot_name t args w). rewrite Hcfg, Hdry.
  destruct (cmd.docker_found t); cbn [negb]; [| done].
  destruct (DetectComposeVolumesIn _ _ _) as [| volumes] eqn:Hdetect; [done |].
  destruct volumes as [| v1 rest]; [intros [= <-]; by left |].
  set (volumes := v1 :: rest) in *.
  replace (Z.of_nat (length volumes) =? 0) with false
    by (symmetry; apply Z.eqb_neq; subst volumes; cbn [length]; lia).
  destruct (CreateWithOptions _ _ _ _ _ _) as [[e | s] w1] eqn:Hcreate;
    [done |].
  intros [= <-]. right. exists volumes, s.
  split; [done |]. split; [done |].
  destruct (applyFlags_fields sf cfg) as (Hinc & Hexc & Hdir & Htags).
  pose proof (CreateWithOptions_run rt (cmd.applyFlags sf cfg)
                (cmd.snapshot_name t args w) volumes
                {| OptTags := cmd.snapshotTags sf;
                   OptDescription := cmd.snapshotDescription sf;
                   OptMetadata := ∅; OptIncremental := false;
                   OptParentName := "" |} w) as Hrun.
  destruct (MkdirAll _ _ _ _); [| by rewrite Hcreate in Hrun].
  destruct Hrun as (r & w2 & Heq & _ & _ & Hr). rewrite Hcreate in Heq.
  injection Heq as <- <-.
  destruct (stated.first_failing _ volumes); [by destruct Hr |].
  destruct Hr as [[[=] _] | (s' & [= <-] & _ & _ & _ & Hpath & Hrec & _)].
  split.
  { rewrite Get_record, Hrec, <- Hdir, <- Hpath. by rewrite with_Path_same. }
  apply CreateWithOptions_record in Hcreate. subst s.
  cbn [SName Tags Description Volumes OptTags OptDescription].
  rewrite Htags. repeat (split; [done |]).
  split; [apply sized_Name |].
  intros v (v0 & -> & Hv0)%list_elem_of_fmap.
  unfold DetectComposeVolumesIn in Hdetect.
  destruct (loadCompose _ _) as [| compose]; [done |].
  injection Hdetect as <-.
  apply extracted_volume in Hv0 as (entry & mount & _ & _ & Hmount).
  pose proof (mountVolume_survives (getProjectName (cwd (cmd.host t)))
                (cmd.applyFlags sf cfg) compose (snd entry) mount) as Hs.
  rewrite Hmount in Hs. destruct Hs as (Hs & Hname & _).
  exists (stated.reference mount). split.
  { unfold runs.sized. by destruct (stat_size rt _). }
  unfold stated.survives in Hs.
  apply andb_prop in Hs as [Hs Hex]. apply andb_prop in Hs as [_ Hin].
  apply negb_true_iff, bool_decide_eq_false in Hex.
  rewrite Hexc, elem_of_app in Hex.
  unfold stated.included in Hin. rewrite Hinc in Hin.
  split; [tauto |]. split; [tauto |]. split.
  - intros Hsome. destruct (cmd.snapshotInclude sf); [done |].
    by apply bool_decide_eq_true in Hin.
  - intros Hnone Hsome. rewrite Hnone in Hin.
    destruct (IncludeVolumes cfg); [done |].
    by apply bool_decide_eq_true in Hin.
Qed.

Lemma snapshot_respects_flags_witness :
  ∃ w',
    cmd.runSnapshot sample.calm sample3.forced sample3.tag_and_exclude
      sample3.session ["nightly"] sample.blank = (inr tt, w') ∧
    ((DetectComposeVolumesIn (cmd.host sample3.session)
        (cmd.applyFlags sample3.tag_and_exclude DefaultConfig)
        (cmd.visit sample3.session) = inr [] ∧ w' = sample.blank) ∨
     ∃ volumes s,
       DetectComposeVolumesIn (cmd.host sample3.session)
         (cmd.applyFlags sample3.tag_and_exclude DefaultConfig)
         (cmd.visit sample3.session) = inr volumes ∧
       volumes ≠ [] ∧
       Get DefaultConfig "nightly" w' = (inr s, w') ∧
       SName s = "nightly" ∧
       Tags s = ["before"] ∧
       Description s = "" ∧
       map Name (Volumes s) = map Name volumes ∧
       ∀ v, v ∈ Volumes s →
         ∃ ref,
           Name v = "shop_" +:+ ref ∧
           (ref ∉ @nil string) ∧ (ref ∉ ["cachedata"]) ∧
           (@nil string ≠ [] → ref ∈ @nil string) ∧
           (@nil string = [] → @nil string ≠ [] → ref ∈ @nil string)).
Proof.
  eexists. split; [vm_compute; reflexivity |].
  apply (snapshot_respects_flags sample.calm sample3.forced
           sample3.tag_and_exclude sample3.session ["nightly"]
           DefaultConfig sample.blank).
  - reflexivity.
  - reflexivity.
  - reflexivity.
  - vm_compute. reflexivity.
Defined.
